(** * Autoclicker core: a shallow embedding of the job executor, the trigger
    and condition engine, the shared-condition registry and the bridge
    request path, with the properties the specification states about them.

    Python objects are records, dictionaries read from JSON are association
    lists, exceptions are an explicit [Raise] result, and everything the
    code asks of the outside world (an action's [execute], a stop request
    from another thread, the pipe, library builtins) is an oracle that is
    passed in. *)

From Stdlib Require Import ZArith QArith Lia Bool Ascii String.
From Stdlib.Strings Require Import Byte.
From stdpp Require Import base option list strings pretty gmap.

#[local] Set Warnings "-register-all".
Local Open Scope string_scope.
Local Open Scope list_scope.
Local Open Scope Z_scope.

(** ** Python values and exceptions *)

(** The exception classes the modelled code raises or catches. *)
Inductive exn :=
| ValueError | TypeError | AttributeError | OverflowError | RuntimeError
| OSError | ConnectionRefusedError | ConnectionAbortedError | TimeoutError
| UnicodeDecodeError | JSONDecodeError
| Win32Error (winerror : Z)
| OtherException.

Inductive result (A : Type) :=
| Ok (a : A)
| Raise (e : exn).
Arguments Ok {A} a.
Arguments Raise {A} e.

Definition bind {A B} (r : result A) (k : A -> result B) : result B :=
  match r with
  | Ok a => k a
  | Raise e => Raise e
  end.

Notation "x <- r ;;; k" := (bind r (fun x => k))
  (at level 100, r at next level, right associativity).

(** A float as JSON can deliver it: a finite number, an infinity or NaN. *)
Inductive pyfloat :=
| FFinite (q : Q)
| FInf (negative : bool)
| FNaN.

Inductive pyval :=
| PyNone
| PyBool (b : bool)
| PyInt (n : Z)
| PyFloat (f : pyfloat)
| PyStr (s : string)
| PyList (l : list pyval)
| PyDict (d : list (string * pyval)).

Abbreviation pydict := (list (string * pyval)).

(** [d.get(k)], [k in d] and [d[k] = v] on a dictionary kept in insertion
    order. *)
Fixpoint dict_get (k : string) (d : pydict) : option pyval :=
  match d with
  | [] => None
  | (k', v) :: rest => if String.eqb k' k then Some v else dict_get k rest
  end.

Definition dict_mem (k : string) (d : pydict) : bool :=
  match dict_get k d with Some _ => true | None => false end.

Fixpoint dict_set (k : string) (v : pyval) (d : pydict) : pydict :=
  match d with
  | [] => [(k, v)]
  | (k', v') :: rest =>
      if String.eqb k' k then (k, v) :: rest else (k', v') :: dict_set k v rest
  end.

Definition dict_get_default (k : string) (default : pyval) (d : pydict) : pyval :=
  match dict_get k d with Some v => v | None => default end.

(** Truth value testing. *)
Definition truthy (v : pyval) : bool :=
  match v with
  | PyNone => false
  | PyBool b => b
  | PyInt n => negb (n =? 0)
  | PyFloat (FFinite q) => negb (Qeq_bool q 0)
  | PyFloat _ => true
  | PyStr s => negb (String.eqb s "")
  | PyList l => match l with [] => false | _ => true end
  | PyDict d => match d with [] => false | _ => true end
  end.

(** ** core/job_executor.py *)

Module job_executor.

(** What the executor reads of an [Action] (the class itself lives in
    core/action.py).  A branch target is [Some n] when the attribute holds an
    [int] and [None] otherwise; [fallback_action_sequence] holds
    dictionaries, as its annotation says, and is empty when the attribute is
    [None]; [click_xy] is the [x], [y] pair of an action that has both
    attributes. *)
Record Action := {
  type : string;
  condition_id : option string;
  next_action_index_if_condition_met : option Z;
  next_action_index_if_condition_not_met : option Z;
  is_absolute : bool;
  fallback_action_sequence : list pydict;
  click_xy : option (Z * Z);
}.

Definition _MAX_FALLBACK_DEPTH : nat := 3.
Definition _ABSOLUTE_ACTION_MAX_RETRIES : nat := 10.
Definition _ABSOLUTE_ACTION_RETRY_INTERVAL : Q := 1 # 2.

(** The outcome of one call of [action.execute]: a condition-met flag, or an
    exception. *)
Inductive exec_outcome :=
| Returned (condition_met : bool)
| Raised (e : exn).

(** The observable steps of a run, kept in [trace] in program order: a call
    of [action.execute] with its outcome, a wait on the stop event, and the
    return of one [_execute_action_with_fallback] call. *)
Inductive event :=
| EvExecute (depth : nat) (idx : Z) (a : Action) (r : exec_outcome)
| EvWait (depth : nat) (idx : Z) (timeout : Q)
| EvReturn (depth : nat) (idx : Z) (a : Action) (met : bool) (next : Z).

(** The executor's mutable fields.  [clock] counts the interactions with the
    outside world so far and indexes the oracles; [trace] is the record of
    what happened. *)
Record executor := {
  _is_executing : bool;
  _stop_event : bool;
  last_click_position : option (Z * Z);
  clock : nat;
  trace : list event;
}.

Definition set_is_executing (b : bool) (st : executor) : executor :=
  {| _is_executing := b; _stop_event := _stop_event st;
     last_click_position := last_click_position st;
     clock := clock st; trace := trace st |}.

Definition set_stop_event (st : executor) : executor :=
  {| _is_executing := _is_executing st; _stop_event := true;
     last_click_position := last_click_position st;
     clock := clock st; trace := trace st |}.

Definition set_last_click (p : Z * Z) (st : executor) : executor :=
  {| _is_executing := _is_executing st; _stop_event := _stop_event st;
     last_click_position := Some p;
     clock := clock st; trace := trace st |}.

Definition tick (st : executor) : executor :=
  {| _is_executing := _is_executing st; _stop_event := _stop_event st;
     last_click_position := last_click_position st;
     clock := S (clock st); trace := trace st |}.

Definition log (ev : event) (st : executor) : executor :=
  {| _is_executing := _is_executing st; _stop_event := _stop_event st;
     last_click_position := last_click_position st;
     clock := clock st; trace := trace st ++ [ev] |}.

(** [JobExecutor.stop] called from another thread: it clears [_is_executing]
    and sets the stop event. *)
Definition external_stop (requested : bool) (st : executor) : executor :=
  if requested then set_stop_event (set_is_executing false st) else st.

Definition stop_job (st : executor) : executor :=
  set_stop_event (set_is_executing false st).

Definition stop_signalled (st : executor) : bool :=
  negb (_is_executing st) || _stop_event st.

(** [hasattr(a, f) and isinstance(a.f, int) and a.f >= 0], else fall through. *)
Definition jump_target (target : option Z) (current_action_index : Z) : Z :=
  match target with
  | Some n => if 0 <=? n then n else current_action_index + 1
  | None => current_action_index + 1
  end.

Section Executor.

(** The outside world.  [action_execute n a] is what the [n]-th interaction
    gives when it is a call of [a.execute], together with whether another
    thread called [stop] meanwhile; [stop_event_wait n] says whether [stop]
    was called during the [n]-th interaction when it is a wait;
    [create_action] is core/action.py's factory: an [Action], an object
    that is not an [Action] ([None] here), or an exception. *)
Variable action_execute : nat -> Action -> exec_outcome * bool.
Variable stop_event_wait : nat -> bool.
Variable create_action : pydict -> result (option Action).

(** The type of [_execute_action_with_fallback]'s recursive call. *)
Abbreviation callee := (Action -> Z -> nat -> executor -> bool * Z * executor).

(** The [for] loop over the fallback sequence, with its [break]s. *)
Fixpoint run_fallbacks (rec : callee) (current_action_index : Z)
    (fallback_depth : nat) (fbs : list pydict) (st : executor)
    : bool * executor :=
  match fbs with
  | [] => (false, st)
  | fallback_action_data :: rest =>
      if stop_signalled st then (false, st)
      else
        match create_action fallback_action_data with
        | Ok (Some fallback_action_obj) =>
            let '(fallback_condition_met, _, st') :=
              rec fallback_action_obj current_action_index
                  (S fallback_depth) st in
            if fallback_condition_met then (true, st')
            else run_fallbacks rec current_action_index fallback_depth rest st'
        | Ok None =>
            run_fallbacks rec current_action_index fallback_depth rest st
        | Raise _ =>
            run_fallbacks rec current_action_index fallback_depth rest st
        end
  end.

(** What follows a final condition-not-met: the fallback sequence when
    there is one, then the not-met branch target either way. *)
Definition after_not_met (rec : callee) (a : Action)
    (current_action_index : Z) (fallback_depth : nat) (st : executor)
    : bool * Z * executor :=
  let target :=
    jump_target (next_action_index_if_condition_not_met a)
                current_action_index in
  match fallback_action_sequence a with
  | [] => (false, target, st)
  | fbs =>
      let '(any_fallback_successful, st') :=
        run_fallbacks rec current_action_index fallback_depth fbs st in
      (any_fallback_successful, target, st')
  end.

(** The [while absolute_retries_left > 0] loop; each [continue] is the
    recursive call. *)
Fixpoint attempt (rec : callee) (a : Action) (current_action_index : Z)
    (fallback_depth : nat) (absolute_retries_left : nat)
    (condition_met_for_this_action : bool) (st : executor)
    : bool * Z * executor :=
  match absolute_retries_left with
  | O =>
      (false,
       jump_target (next_action_index_if_condition_not_met a)
                   current_action_index, st)
  | S retries_after =>
      if stop_signalled st then
        (condition_met_for_this_action, current_action_index + 1,
         set_is_executing false st)
      else
        let '(r, stop_called) := action_execute (clock st) a in
        let st1 :=
          external_stop stop_called
            (log (EvExecute fallback_depth current_action_index a r)
                 (tick st)) in
        match r with
        | Raised _ => (false, -1, stop_job st1)
        | Returned met =>
            let st2 :=
              if String.eqb (type a) "click" && met then
                match click_xy a with
                | Some p => set_last_click p st1
                | None => st1
                end
              else st1 in
            if negb (_is_executing st2) then
              (met, current_action_index + 1, st2)
            else if met then
              (true,
               jump_target (next_action_index_if_condition_met a)
                           current_action_index, st2)
            else if is_absolute a then
              match retries_after with
              | S _ =>
                  let stop_in_wait := stop_event_wait (clock st2) in
                  let st3 :=
                    external_stop stop_in_wait
                      (log (EvWait fallback_depth current_action_index
                                   _ABSOLUTE_ACTION_RETRY_INTERVAL)
                           (tick st2)) in
                  if _stop_event st3 then
                    (false, current_action_index + 1,
                     set_is_executing false st3)
                  else
                    attempt rec a current_action_index fallback_depth
                            retries_after false st3
              | O =>
                  after_not_met rec a current_action_index fallback_depth st2
              end
            else after_not_met rec a current_action_index fallback_depth st2
        end
  end.

(** One call of [_execute_action_with_fallback]; [fuel] bounds the
    recursion, which the depth guard cuts after [_MAX_FALLBACK_DEPTH]. *)
Fixpoint execute_with_fuel (fuel : nat) (action_to_execute : Action)
    (current_action_index : Z) (fallback_depth : nat) (st : executor)
    : bool * Z * executor :=
  match fuel with
  | O => (false, current_action_index + 1, st)
  | S fuel' =>
      let '(met, next, st') :=
        if (_MAX_FALLBACK_DEPTH <? fallback_depth)%nat then
          (false, current_action_index + 1, st)
        else
          attempt (execute_with_fuel fuel') action_to_execute
                  current_action_index fallback_depth
                  (if is_absolute action_to_execute
                   then _ABSOLUTE_ACTION_MAX_RETRIES else 1%nat)
                  false st in
      (met, next,
       log (EvReturn fallback_depth current_action_index action_to_execute
                     met next) st')
  end.

Definition _execute_action_with_fallback (action_to_execute : Action)
    (current_action_index : Z) (fallback_depth : nat) (st : executor)
    : bool * Z * executor :=
  execute_with_fuel (S (S _MAX_FALLBACK_DEPTH - fallback_depth))
                    action_to_execute current_action_index fallback_depth st.


(** *** Reading a trace *)

Definition ev_depth (e : event) : nat :=
  match e with
  | EvExecute d _ _ _ => d
  | EvWait d _ _ => d
  | EvReturn d _ _ _ _ => d
  end.

(** The steps of one retry loop: a call of [execute] or a wait. *)
Inductive own_event :=
| OInvoke (r : exec_outcome)
| OWait (timeout : Q).

Definition own_event_of (d : nat) (e : event) : option own_event :=
  match e with
  | EvExecute d' _ _ r => if (d' =? d)%nat then Some (OInvoke r) else None
  | EvWait d' _ t => if (d' =? d)%nat then Some (OWait t) else None
  | EvReturn _ _ _ _ _ => None
  end.

(** The retry-loop steps a call at depth [d] made itself. *)
Definition own_events (d : nat) (evs : list event) : list own_event :=
  omap (own_event_of d) evs.

Definition invocation_of (e : own_event) : option exec_outcome :=
  match e with
  | OInvoke r => Some r
  | OWait _ => None
  end.

(** The outcomes of the calls of [action.execute], in order. *)
Definition invocations (l : list own_event) : list exec_outcome :=
  omap invocation_of l.

(** The action's final condition-met result: the outcome of its last call. *)
Definition last_outcome (l : list own_event) : option exec_outcome :=
  last (invocations l).

Definition return_of (d : nat) (e : event) : option (Action * bool) :=
  match e with
  | EvReturn d' _ a met _ => if (d' =? d)%nat then Some (a, met) else None
  | _ => None
  end.

(** The calls of [_execute_action_with_fallback] at depth [d] that returned,
    each with the action it ran and the success flag it reported. *)
Definition returns_at (d : nat) (evs : list event) : list (Action * bool) :=
  omap (return_of d) evs.

(** What a call added to the trace. *)
Definition new_events (st st' : executor) : list event :=
  drop (length (trace st)) (trace st').

(** The shape of a retry loop with [n] tries left: nothing (stopped before
    the call), one last call, or a call that returned false, the fixed wait,
    and the loop with one try fewer. *)
Inductive retry_pattern : nat -> list own_event -> Prop :=
| rp_stopped n : retry_pattern n []
| rp_final n r : retry_pattern (S n) [OInvoke r]
| rp_retry n rest :
    retry_pattern (S n) rest ->
    retry_pattern (S (S n))
      (OInvoke (Returned false) :: OWait _ABSOLUTE_ACTION_RETRY_INTERVAL :: rest).

(** The branch the interpreter takes on a condition-met result. *)
Definition branch_target (a : Action) (condition_met : bool)
    (current_action_index : Z) : Z :=
  if condition_met
  then jump_target (next_action_index_if_condition_met a) current_action_index
  else jump_target (next_action_index_if_condition_not_met a)
                   current_action_index.

(** The fallback entries [create_action] turns into an [Action]. *)
Definition created_action (data : pydict) : option Action :=
  match create_action data with
  | Ok (Some a) => Some a
  | _ => None
  end.

Definition created (fbs : list pydict) : list Action := omap created_action fbs.

(** How a fallback sequence [fbs] ran, read off the returns [reports] of the
    calls one level down: the actions of a prefix of [fbs] ran in list
    order, every one before the last reported failure, a success ([ok]) is
    the last one, and a run that ended without success and without a stop
    went through the whole list. *)
Definition fallback_outcome (fbs : list pydict) (ok : bool)
    (reports : list (Action * bool)) (stopped : bool) : Prop :=
  exists (n : nat) (failed : list Action) (winner : option Action),
    (n <= length fbs)%nat /\
    created (take n fbs) = failed ++ option_list winner /\
    reports = ((fun a => (a, false)) <$> failed)
              ++ ((fun a => (a, true)) <$> option_list winner) /\
    ok = bool_decide (is_Some winner) /\
    (winner = None -> stopped = false -> n = length fbs).
(** *** The action loop of one run cycle ([_execute_loop], inner [while]) *)

(** [(current_action_index, action.type, action.condition_id)] *)
Definition signature : Type := Z * string * option string.

Definition signature_of (idx : Z) (a : Action) : signature :=
  (idx, type a, condition_id a).

Definition MAX_HISTORY_LENGTH : nat := 20.
Definition MIN_REPETITIONS_FOR_LOOP_DETECTION : nat := 3.

Record cycle_state := {
  exec : executor;
  current_action_index : Z;
  execution_history : list signature;
}.

(** One pass through the loop body: go round again, leave through a
    [break], or find the loop condition false. *)
Inductive step_result :=
| Continue (s : cycle_state)
| Break (s : cycle_state)
| Finished (s : cycle_state).

(** [len(h) >= 3 and all(sig == current for sig in h[-3:])] *)
Definition repeats_signature (current : signature) (h : list signature)
    : bool :=
  (MIN_REPETITIONS_FOR_LOOP_DETECTION <=? length h)%nat
  && forallb (fun sig => bool_decide (sig = current))
       (drop (length h - MIN_REPETITIONS_FOR_LOOP_DETECTION) h).

(** An entry of [job.actions] is [Some a] for an [Action] instance and
    [None] for anything else. *)
Definition action_step (actions_list : list (option Action))
    (s : cycle_state) : step_result :=
  let i := current_action_index s in
  if (0 <=? i) && (i <? Z.of_nat (length actions_list)) then
    if stop_signalled (exec s) then
      Break {| exec := set_is_executing false (exec s);
               current_action_index := i;
               execution_history := execution_history s |}
    else
      match actions_list !! Z.to_nat i with
      | None => Finished s
      | Some None =>
          Continue {| exec := exec s; current_action_index := i + 1;
                      execution_history := execution_history s |}
      | Some (Some action) =>
          let current_action_signature := signature_of i action in
          let appended := execution_history s ++ [current_action_signature] in
          let history :=
            if (MAX_HISTORY_LENGTH <? length appended)%nat
            then drop 1 appended else appended in
          if repeats_signature current_action_signature history then
            Break {| exec := stop_job (exec s); current_action_index := i;
                     execution_history := history |}
          else
            let '(_, next_index_to_jump_to, st') :=
              _execute_action_with_fallback action i 0 (exec s) in
            if next_index_to_jump_to =? -1 then
              Break {| exec := stop_job st'; current_action_index := i;
                       execution_history := history |}
            else
              Continue {| exec := st';
                          current_action_index := next_index_to_jump_to;
                          execution_history := history |}
      end
  else Finished s.

(** The state in which a run cycle enters its action loop. *)
Definition cycle_start (st : executor) : cycle_state :=
  {| exec := st; current_action_index := 0; execution_history := [] |}.

(** The loop after at most [n] passes. *)
Fixpoint action_loop (n : nat) (actions_list : list (option Action))
    (s : cycle_state) : cycle_state :=
  match n with
  | O => s
  | S n' =>
      match action_step actions_list s with
      | Continue s' => action_loop n' actions_list s'
      | Break s' => s'
      | Finished s' => s'
      end
  end.

Definition dispatch_of (e : event) : option signature :=
  match e with
  | EvReturn O idx a _ _ => Some (signature_of idx a)
  | _ => None
  end.

(** The signatures of the actions the loop itself handed to
    [_execute_action_with_fallback], in order. *)
Definition dispatched (evs : list event) : list signature :=
  omap dispatch_of evs.

(** No element stands three times in a row. *)
Definition no_triple {A} (l : list A) : Prop :=
  forall pre x post, l <> pre ++ [x; x; x] ++ post.

(** *** What a call leaves in the trace *)

(** A callee that adds only events at depth [d] or deeper, and whose single
    return at depth [d] carries its action and its success flag. *)
Definition returns_once (rec : callee) (d : nat) : Prop :=
  forall a idx st met next st',
    rec a idx d st = (met, next, st') ->
    exists evs,
      trace st' = trace st ++ evs /\
      Forall (fun e => (d <= ev_depth e)%nat) evs /\
      returns_at d evs = [(a, met)].

Definition own_to_event (d : nat) (idx : Z) (a : Action) (e : own_event)
    : event :=
  match e with
  | OInvoke r => EvExecute d idx a r
  | OWait t => EvWait d idx t
  end.

(** What one run of the retry loop with [n] tries left leaves behind: its
    own steps [own], then the events [fb] of the fallback calls. *)
Definition attempt_outcome (a : Action) (idx : Z) (d n : nat) (cm : bool)
    (st : executor) (res : bool * Z * executor) : Prop :=
  exists own fb,
    trace (res.2) = trace st ++ (own_to_event d idx a <$> own) ++ fb /\
    Forall (fun e => (S d <= ev_depth e)%nat) fb /\
    retry_pattern n own /\
    (forall b, last_outcome own = Some (Returned b) ->
               _is_executing (res.2) = true ->
               res.1.2 = branch_target a b idx) /\
    (last_outcome own = Some (Returned false) ->
     fallback_outcome (fallback_action_sequence a) (res.1.1)
                      (returns_at (S d) fb) (stop_signalled (res.2))) /\
    ((0 < n)%nat -> last_outcome own = None ->
     _is_executing (res.2) = false /\ fb = [] /\ res.1.1 = cm) /\
    ((0 < n)%nat -> stop_signalled st = false -> is_absolute a = false ->
     exists r, own = [OInvoke r]).

(** What one call at depth [d] leaves behind: its own retry steps, the
    events of its fallback calls, and its return record. *)
Definition call_outcome (a : Action) (idx : Z) (d : nat) (st : executor)
    (res : bool * Z * executor) : Prop :=
  exists own fb,
    trace (res.2) =
      trace st ++ (own_to_event d idx a <$> own) ++ fb
               ++ [EvReturn d idx a (res.1.1) (res.1.2)] /\
    Forall (fun e => (S d <= ev_depth e)%nat) fb /\
    retry_pattern
      (if is_absolute a then _ABSOLUTE_ACTION_MAX_RETRIES else 1%nat) own /\
    (forall b, last_outcome own = Some (Returned b) ->
               _is_executing (res.2) = true ->
               res.1.2 = branch_target a b idx) /\
    (last_outcome own = Some (Returned false) ->
     fallback_outcome (fallback_action_sequence a) (res.1.1)
                      (returns_at (S d) fb) (stop_signalled (res.2))) /\
    ((_MAX_FALLBACK_DEPTH < d)%nat ->
     own = [] /\ fb = [] /\ res.1 = (false, idx + 1)) /\
    ((d <= _MAX_FALLBACK_DEPTH)%nat -> stop_signalled st = false ->
     is_absolute a = false -> exists r, own = [OInvoke r]).

(** What holds between passes of a run cycle that started in [st0]: the
    recorded history is the tail of the dispatched signatures, all of it
    while it is shorter than [MAX_HISTORY_LENGTH], and nothing was
    dispatched three times in a row. *)
Definition cycle_invariant (st0 : executor) (s : cycle_state) : Prop :=
  exists evs,
    trace (exec s) = trace st0 ++ evs /\
    (exists k, dispatched evs = k ++ execution_history s) /\
    (length (execution_history s) <= MAX_HISTORY_LENGTH)%nat /\
    ((length (execution_history s) < MAX_HISTORY_LENGTH)%nat ->
     execution_history s = dispatched evs) /\
    no_triple (dispatched evs).

Definition cycle_safe (st0 : executor) (s : cycle_state) : Prop :=
  exists evs,
    trace (exec s) = trace st0 ++ evs /\ no_triple (dispatched evs).

(** *** Interactions, stops and the last click *)

(** The state in which the [try] block around [action.execute] and its
    handlers leave the executor, with the outcome of the call: the part of
    one pass of the retry loop between the stop check and the test of
    [_is_executing]. *)
Definition after_execute (a : Action) (current_action_index : Z)
    (fallback_depth : nat) (st : executor) : exec_outcome * executor :=
  let '(r, stop_called) := action_execute (clock st) a in
  let st1 :=
    external_stop stop_called
      (log (EvExecute fallback_depth current_action_index a r) (tick st)) in
  (r,
   match r with
   | Raised _ => stop_job st1
   | Returned met =>
       if String.eqb (type a) "click" && met then
         match click_xy a with
         | Some p => set_last_click p st1
         | None => st1
         end
       else st1
   end).

(** The state after [self._stop_event.wait(timeout=0.5)]. *)
Definition after_wait (current_action_index : Z) (fallback_depth : nat)
    (st : executor) : executor :=
  external_stop (stop_event_wait (clock st))
    (log (EvWait fallback_depth current_action_index
                 _ABSOLUTE_ACTION_RETRY_INTERVAL)
         (tick st)).

(** An interaction with the outside world: a call of [execute] or a wait. *)
Definition is_step (e : event) : bool :=
  match e with
  | EvReturn _ _ _ _ _ => false
  | _ => true
  end.

Definition steps (evs : list event) : list event := List.filter is_step evs.

(** Whether the interaction recorded as [e], made at clock [n], calls for
    the end of the run: [execute] raised, or [stop] was called while the
    interaction lasted. *)
Definition halts (n : nat) (e : event) : bool :=
  match e with
  | EvExecute _ _ a (Raised _) => true
  | EvExecute _ _ a (Returned _) => (action_execute n a).2
  | EvWait _ _ _ => stop_event_wait n
  | EvReturn _ _ _ _ _ => false
  end.

(** Of the interactions [l], the first of them made at clock [n], one that
    halts is the last. *)
Definition halting_last (n : nat) (l : list event) : Prop :=
  forall k e, l !! k = Some e -> halts (n + k) e = true -> length l = S k.

Definition none_halts (n : nat) (l : list event) : Prop :=
  forall k e, l !! k = Some e -> halts (n + k) e = false.

(** The outcome recorded for each call of [execute] is the one the world
    gave at that clock. *)
Definition recorded_faithfully (n : nat) (l : list event) : Prop :=
  forall k d idx a r,
    l !! k = Some (EvExecute d idx a r) -> r = (action_execute (n + k) a).1.

(** What holds of an executor that started a call or a run cycle in [st0]. *)
Definition stops_at_once (st0 st : executor) : Prop :=
  exists evs,
    trace st = trace st0 ++ evs /\
    clock st = (clock st0 + length (steps evs))%nat /\
    recorded_faithfully (clock st0) (steps evs) /\
    halting_last (clock st0) (steps evs) /\
    (stop_signalled st = false -> none_halts (clock st0) (steps evs)).

(** [job_context.last_click_position] as the events [evs] leave it: the
    coordinates of the last click action whose [execute] returned true. *)
Definition click_of (e : event) (before : option (Z * Z)) : option (Z * Z) :=
  match e with
  | EvExecute _ _ a (Returned true) =>
      if String.eqb (type a) "click" then
        match click_xy a with
        | Some p => Some p
        | None => before
        end
      else before
  | _ => before
  end.

Definition last_click_after (evs : list event) (before : option (Z * Z))
    : option (Z * Z) :=
  foldl (fun p e => click_of e p) before evs.

Definition tracks_last_click (st0 st : executor) : Prop :=
  exists evs,
    trace st = trace st0 ++ evs /\
    last_click_position st
    = last_click_after evs (last_click_position st0).

(** *** The run cycles ([_execute_loop], outer [while]) *)

(** [self._job.run_condition]: [None], an object that is not a
    [JobRunCondition], or a [JobRunCondition] (the class lives in
    core/job_run_condition.py). *)
Inductive run_condition :=
| NoRunCondition
| NotARunCondition
| ARunCondition.

(** The executor with its run counter and the job's [running] flag. *)
Record loop_state := {
  ex : executor;
  _current_run_count : nat;
  job_running : bool;
}.

(** [max(0.0, v) > 0] for the value of [delay_between_runs_s]; the
    comparison inside [max] raises on what is not a number. *)
Definition positive_delay (v : pyval) : result bool :=
  match v with
  | PyInt n => Ok (0 <? n)
  | PyBool b => Ok b
  | PyFloat (FFinite q) => Ok (negb (Qle_bool q 0))
  | PyFloat (FInf negative) => Ok (negb negative)
  | PyFloat FNaN => Ok false
  | _ => Raise TypeError
  end.

(** The [finally] clause, and the [except Exception] clause before it. *)
Definition finish (st : executor) (count : nat) : loop_state :=
  {| ex := set_is_executing false st; _current_run_count := count;
     job_running := false |}.

Definition abort (st : executor) (count : nat) : loop_state :=
  finish (stop_job st) count.

(** The action loop with a bound on its passes: [None] when the bound is
    reached before the loop ends. *)
Fixpoint run_action_loop (passes : nat) (actions_list : list (option Action))
    (s : cycle_state) : option cycle_state :=
  match passes with
  | O => None
  | S passes' =>
      match action_step actions_list s with
      | Continue s' => run_action_loop passes' actions_list s'
      | Break s' => Some s'
      | Finished s' => Some s'
      end
  end.

Section RunCycles.

(** [run_condition.check_continue(job_context)] asked with the given run
    count; the value of [job.params.get("delay_between_runs_s", 0.01)];
    and what [self._stop_event.wait(timeout=...)] gives after the cycle
    with the given number. *)
Variable check_continue : nat -> result bool.
Variable delay_between_runs_s : pyval.
Variable loop_delay_wait : nat -> result bool.

Definition should_continue_job_run_cycle (rc : run_condition) (count : nat)
    : bool :=
  match rc with
  | NotARunCondition => false
  | NoRunCondition => true
  | ARunCondition =>
      match check_continue count with
      | Ok answer => answer
      | Raise _ => false
      end
  end.

(** What follows the action sequence of a cycle that ended with the
    executor still executing: the count, the delay, and the state in which
    the outer loop tests its condition again, or the end through the
    [except] clause. *)
Definition after_cycle (st : executor) (count : nat)
    : loop_state + executor :=
  match positive_delay delay_between_runs_s with
  | Raise _ => inl (abort st (S count))
  | Ok positive =>
      if negb (stop_signalled st) && positive then
        match loop_delay_wait count with
        | Raise _ => inl (abort st (S count))
        | Ok stopped => inr (external_stop stopped st)
        end
      else inr st
  end.

Fixpoint _execute_loop (cycles passes : nat) (rc : run_condition)
    (actions_list : list (option Action)) (st : executor) (count : nat)
    : option loop_state :=
  match cycles with
  | O => None
  | S cycles' =>
      if stop_signalled st then Some (finish st count)
      else if negb (should_continue_job_run_cycle rc count) then
        Some (finish (stop_job st) count)
      else
        match run_action_loop passes actions_list (cycle_start st) with
        | None => None
        | Some c =>
            if negb (_is_executing (exec c)) then
              Some (finish (exec c) count)
            else
              match after_cycle (exec c) count with
              | inl ended => Some ended
              | inr st' =>
                  _execute_loop cycles' passes rc actions_list st' (S count)
              end
        end
  end.

End RunCycles.

(** *** The trace of one call *)

Ltac outcome_clause :=
  intros;
  repeat match goal with
         | H : last_outcome _ = _ |- _ =>
             unfold last_outcome in H; simpl in H;
             first [ discriminate H | injection H as H; try subst | idtac ]
         end;
  unfold last_outcome; simpl;
  first [ reflexivity | discriminate | congruence | lia
        | (eexists; reflexivity) | solve [repeat constructor] ].

Lemma trace_set_is_executing b st : trace (set_is_executing b st) = trace st.
Proof. reflexivity. Qed.

Lemma trace_external_stop r st : trace (external_stop r st) = trace st.
Proof. destruct r; reflexivity. Qed.

Lemma stop_signalled_not_executing st :
  _is_executing st = false -> stop_signalled st = true.
Proof. unfold stop_signalled. intros ->. reflexivity. Qed.

Lemma created_cons_some fb fbs a :
  create_action fb = Ok (Some a) -> created (fb :: fbs) = a :: created fbs.
Proof. intros H. unfold created. simpl. unfold created_action at 1. rewrite H. reflexivity. Qed.

Lemma created_cons_skip fb fbs :
  created_action fb = None -> created (fb :: fbs) = created fbs.
Proof. intros H. unfold created. simpl. rewrite H. reflexivity. Qed.

Lemma fallback_outcome_none fbs stopped :
  (stopped = false -> fbs = []) -> fallback_outcome fbs false [] stopped.
Proof.
  intros H. exists 0%nat, [], None. rewrite take_0. simpl.
  repeat split; try lia.
  intros _ Hs. rewrite (H Hs). reflexivity.
Qed.

Lemma fallback_outcome_skip fb fbs ok reports stopped :
  created_action fb = None ->
  fallback_outcome fbs ok reports stopped ->
  fallback_outcome (fb :: fbs) ok reports stopped.
Proof.
  intros Hc (n & failed & winner & Hn & Hcr & Hrep & Hok & Hall).
  exists (S n), failed, winner.
  change (take (S n) (fb :: fbs)) with (fb :: take n fbs).
  rewrite created_cons_skip by exact Hc.
  repeat split; try assumption; try (simpl; lia).
  intros Hw Hs. rewrite (Hall Hw Hs). reflexivity.
Qed.

Lemma fallback_outcome_failed fb fbs a ok reports stopped :
  create_action fb = Ok (Some a) ->
  fallback_outcome fbs ok reports stopped ->
  fallback_outcome (fb :: fbs) ok ((a, false) :: reports) stopped.
Proof.
  intros Hc (n & failed & winner & Hn & Hcr & Hrep & Hok & Hall).
  exists (S n), (a :: failed), winner.
  change (take (S n) (fb :: fbs)) with (fb :: take n fbs).
  rewrite (created_cons_some _ _ _ Hc), Hcr, Hrep.
  repeat split; try assumption; try (simpl; lia).
  intros Hw Hs. rewrite (Hall Hw Hs). reflexivity.
Qed.

Lemma fallback_outcome_success fb fbs a stopped :
  create_action fb = Ok (Some a) ->
  fallback_outcome (fb :: fbs) true [(a, true)] stopped.
Proof.
  intros Hc. exists 1%nat, [], (Some a).
  change (take 1 (fb :: fbs)) with (fb :: take 0 fbs). rewrite take_0.
  rewrite (created_cons_some _ _ _ Hc).
  repeat split; try (simpl; lia).
  intros Hw. discriminate Hw.
Qed.

Lemma run_fallbacks_spec rec idx d fbs :
  returns_once rec (S d) ->
  forall st ok st',
    run_fallbacks rec idx d fbs st = (ok, st') ->
    exists evs,
      trace st' = trace st ++ evs /\
      Forall (fun e => (S d <= ev_depth e)%nat) evs /\
      fallback_outcome fbs ok (returns_at (S d) evs) (stop_signalled st').
Proof.
  intros Hrec. induction fbs as [|fb fbs IH]; intros st ok st' H; simpl in H.
  - inversion H; subst. exists []. rewrite app_nil_r.
    repeat split; [constructor|]. apply fallback_outcome_none. reflexivity.
  - destruct (stop_signalled st) eqn:Hs.
    { inversion H; subst. exists []. rewrite app_nil_r.
      repeat split; [constructor|]. apply fallback_outcome_none.
      rewrite Hs. discriminate. }
    destruct (create_action fb) as [[act|]|e] eqn:Hc.
    + destruct (rec act idx (S d) st) as [[m nx] st1] eqn:Hr.
      destruct (Hrec _ _ _ _ _ _ Hr) as (evs1 & Ht1 & Hd1 & Hret1).
      destruct m.
      * inversion H; subst. exists evs1. repeat split; try assumption.
        rewrite Hret1. apply fallback_outcome_success. exact Hc.
      * destruct (IH _ _ _ H) as (evs2 & Ht2 & Hd2 & Hout).
        exists (evs1 ++ evs2). split; [|split].
        -- rewrite Ht2, Ht1, app_assoc. reflexivity.
        -- apply Forall_app; split; assumption.
        -- unfold returns_at in *. rewrite omap_app, Hret1. simpl.
           apply fallback_outcome_failed; assumption.
    + destruct (IH _ _ _ H) as (evs & Ht & Hd & Hout).
      exists evs. repeat split; try assumption.
      apply fallback_outcome_skip; [|exact Hout].
      unfold created_action. rewrite Hc. reflexivity.
    + destruct (IH _ _ _ H) as (evs & Ht & Hd & Hout).
      exists evs. repeat split; try assumption.
      apply fallback_outcome_skip; [|exact Hout].
      unfold created_action. rewrite Hc. reflexivity.
Qed.

Lemma last_outcome_retry r t rest :
  last_outcome (OInvoke r :: OWait t :: rest) =
  match last_outcome rest with Some r' => Some r' | None => Some r end.
Proof.
  unfold last_outcome. simpl. rewrite last_cons. reflexivity.
Qed.

Lemma after_not_met_spec rec a idx d st :
  returns_once rec (S d) ->
  exists fb,
    trace (after_not_met rec a idx d st).2 = trace st ++ fb /\
    Forall (fun e => (S d <= ev_depth e)%nat) fb /\
    (after_not_met rec a idx d st).1.2 = branch_target a false idx /\
    fallback_outcome (fallback_action_sequence a)
      (after_not_met rec a idx d st).1.1
      (returns_at (S d) fb) (stop_signalled (after_not_met rec a idx d st).2).
Proof.
  intros Hrec. unfold after_not_met.
  destruct (fallback_action_sequence a) as [|fb0 fbs] eqn:Hf.
  - exists []. simpl. rewrite app_nil_r. repeat split; [constructor|].
    apply fallback_outcome_none. reflexivity.
  - destruct (run_fallbacks rec idx d (fb0 :: fbs) st) as [ok st'] eqn:Hr.
    destruct (run_fallbacks_spec _ _ _ _ Hrec _ _ _ Hr) as (evs & Ht & Hd & Ho).
    exists evs. simpl. repeat split; assumption.
Qed.

Lemma attempt_spec rec a idx d :
  returns_once rec (S d) ->
  forall n cm st, attempt_outcome a idx d n cm st (attempt rec a idx d n cm st).
Proof.
  intros Hrec. induction n as [|k IH]; intros cm st.
  - exists [], []. simpl. rewrite app_nil_r.
    repeat split; outcome_clause.
  - pose proof (IH false) as IHf. clear IH. simpl.
    generalize dependent (attempt rec a idx d k false). intros continue IHf.
    destruct (stop_signalled st) eqn:Hs.
    { exists [], []. simpl. rewrite app_nil_r.
      repeat split; outcome_clause. }
    destruct (action_execute (clock st) a) as [r stop_called] eqn:Hx.
    destruct r as [met|e].
    2:{ exists [OInvoke (Raised e)], []. simpl. rewrite trace_external_stop.
        simpl. repeat split; outcome_clause. }
    set (st1 := external_stop stop_called
                  (log (EvExecute d idx a (Returned met)) (tick st))).
    set (st2 := if String.eqb (type a) "click" && met
                then match click_xy a with
                     | Some p => set_last_click p st1
                     | None => st1
                     end
                else st1).
    assert (Ht2 : trace st2 = trace st ++ [EvExecute d idx a (Returned met)]).
    { subst st2 st1. destruct (String.eqb (type a) "click" && met);
        [destruct (click_xy a)|]; simpl; rewrite trace_external_stop;
        reflexivity. }
    destruct (_is_executing st2) eqn:He; simpl.
    2:{ exists [OInvoke (Returned met)], []. simpl. rewrite Ht2, He.
        repeat split; try outcome_clause.
        intros Hl.
        assert (met = false) as ->
          by (unfold last_outcome in Hl; simpl in Hl; congruence).
        apply fallback_outcome_none.
        rewrite (stop_signalled_not_executing _ He). discriminate. }
    destruct met; simpl.
    { exists [OInvoke (Returned true)], []. simpl. rewrite Ht2.
      repeat split; outcome_clause. }
    assert (Hafter : attempt_outcome a idx d (S k) cm st
                       (after_not_met rec a idx d st2)).
    { destruct (after_not_met_spec rec a idx d st2 Hrec)
        as (fb & Htr & Hd & Hnext & Hout).
      exists [OInvoke (Returned false)], fb. rewrite Htr, Ht2. simpl.
      rewrite <- app_assoc. simpl.
      repeat split; try assumption; try outcome_clause.
      intros b Hl _. inversion Hl; subst. exact Hnext. }
    destruct (is_absolute a) eqn:Habs; [|exact Hafter].
    destruct k as [|k']; [exact Hafter|].
    set (st3 := external_stop (stop_event_wait (clock st2))
                  (log (EvWait d idx _ABSOLUTE_ACTION_RETRY_INTERVAL)
                       (tick st2))).
    assert (Ht3 : trace st3 = trace st ++
              [EvExecute d idx a (Returned false);
               EvWait d idx _ABSOLUTE_ACTION_RETRY_INTERVAL]).
    { subst st3. rewrite trace_external_stop. simpl. rewrite Ht2.
      rewrite <- app_assoc. reflexivity. }
    destruct (_stop_event st3) eqn:Hev.
    { exists [OInvoke (Returned false);
              OWait _ABSOLUTE_ACTION_RETRY_INTERVAL], [].
      simpl. rewrite Ht3.
      repeat split; try outcome_clause.
      intros _. apply fallback_outcome_none. discriminate. }
    destruct (IHf st3) as (own & fb & Htr & Hd & Hpat & Hjump & Hfb & Hnone & _).
    exists (OInvoke (Returned false)
            :: OWait _ABSOLUTE_ACTION_RETRY_INTERVAL :: own), fb.
    rewrite Htr, Ht3. simpl. rewrite <- app_assoc. simpl.
    rewrite last_outcome_retry.
    repeat split; try assumption;
      try match goal with
          | H : match last_outcome ?o with _ => _ end = None |- _ =>
              destruct (last_outcome o); discriminate H
          end.
    + constructor. exact Hpat.
    + intros b Hl Hex. destruct (last_outcome own) as [r|] eqn:Hlo.
      * inversion Hl; subst. apply Hjump; [reflexivity|exact Hex].
      * destruct (Hnone ltac:(lia) eq_refl) as (Hne & _). congruence.
    + intros Hl. destruct (last_outcome own) as [r|] eqn:Hlo.
      * inversion Hl; subst. apply Hfb. reflexivity.
      * destruct (Hnone ltac:(lia) eq_refl) as (Hne & Hfbnil & Hmet).
        rewrite Hfbnil, Hmet. apply fallback_outcome_none.
        rewrite (stop_signalled_not_executing _ Hne). discriminate.
    + intros _ _ Hn. congruence.
Qed.

Lemma returns_at_own d' d idx a own :
  returns_at d' (own_to_event d idx a <$> own) = [].
Proof.
  unfold returns_at. induction own as [|e own IH]; [reflexivity|].
  destruct e; simpl; exact IH.
Qed.

Lemma returns_at_deeper d fb :
  Forall (fun e => (S d <= ev_depth e)%nat) fb -> returns_at d fb = [].
Proof.
  unfold returns_at. induction 1 as [|e fb He _ IH]; [reflexivity|].
  destruct e; simpl in *; try exact IH.
  destruct (Nat.eqb_spec depth d); [lia|exact IH].
Qed.

Lemma own_events_own d idx a own :
  own_events d (own_to_event d idx a <$> own) = own.
Proof.
  unfold own_events. induction own as [|e own IH]; [reflexivity|].
  destruct e; simpl; rewrite Nat.eqb_refl; simpl; f_equal; exact IH.
Qed.

Lemma own_events_deeper d fb :
  Forall (fun e => (S d <= ev_depth e)%nat) fb -> own_events d fb = [].
Proof.
  unfold own_events. induction 1 as [|e fb He _ IH]; [reflexivity|].
  destruct e; simpl in *; try exact IH;
    destruct (Nat.eqb_spec depth d); solve [lia|exact IH].
Qed.

Lemma call_outcome_returns_once a idx d st res :
  call_outcome a idx d st res ->
  exists evs,
    trace (res.2) = trace st ++ evs /\
    Forall (fun e => (d <= ev_depth e)%nat) evs /\
    returns_at d evs = [(a, res.1.1)].
Proof.
  intros (own & fb & Ht & Hd & _).
  exists ((own_to_event d idx a <$> own) ++ fb
          ++ [EvReturn d idx a (res.1.1) (res.1.2)]).
  split; [exact Ht|split].
  - apply Forall_app; split; [|apply Forall_app; split].
    + apply Forall_fmap, Forall_forall. intros [r|t] _; simpl; lia.
    + eapply Forall_impl; [exact Hd|]. simpl. intros; lia.
    + repeat constructor.
  - unfold returns_at. rewrite !omap_app.
    fold (returns_at d (own_to_event d idx a <$> own)).
    fold (returns_at d fb).
    rewrite returns_at_own, (returns_at_deeper _ _ Hd). simpl.
    rewrite Nat.eqb_refl. reflexivity.
Qed.

Lemma execute_with_fuel_spec fuel :
  forall d, (S (S _MAX_FALLBACK_DEPTH - d) <= fuel)%nat ->
  forall a idx st, call_outcome a idx d st (execute_with_fuel fuel a idx d st).
Proof.
  induction fuel as [|fuel IH]; intros d Hfuel a idx st; [lia|].
  simpl. destruct (Nat.ltb_spec _MAX_FALLBACK_DEPTH d) as [Hdeep|Hshallow].
  - exists [], []. simpl.
    repeat split; try outcome_clause;
      unfold _MAX_FALLBACK_DEPTH in *; lia.
  - assert (Hrec : returns_once (execute_with_fuel fuel) (S d)).
    { intros a' idx' st0 met next st' Hcall.
      assert (Hc := IH (S d) ltac:(unfold _MAX_FALLBACK_DEPTH in *; lia)
                       a' idx' st0).
      rewrite Hcall in Hc.
      exact (call_outcome_returns_once _ _ _ _ _ Hc). }
    pose proof (attempt_spec _ a idx d Hrec
                  (if is_absolute a then _ABSOLUTE_ACTION_MAX_RETRIES
                   else 1%nat) false st) as Hatt.
    destruct (attempt (execute_with_fuel fuel) a idx d
                (if is_absolute a then _ABSOLUTE_ACTION_MAX_RETRIES
                 else 1%nat) false st) as [[met next] st'].
    destruct Hatt as (own & fb & Ht & Hd & Hpat & Hjump & Hfb & _ & Hone).
    exists own, fb. simpl in *. rewrite Ht, <- !app_assoc.
    repeat split; try assumption.
    + unfold _MAX_FALLBACK_DEPTH in *; lia.
    + unfold _MAX_FALLBACK_DEPTH in *; lia.
    + unfold _MAX_FALLBACK_DEPTH in *; lia.
    + intros _. apply Hone.
      destruct (is_absolute a); unfold _ABSOLUTE_ACTION_MAX_RETRIES; lia.
Qed.

Lemma call_spec a idx d st :
  call_outcome a idx d st (_execute_action_with_fallback a idx d st).
Proof. apply execute_with_fuel_spec. lia. Qed.

Lemma new_events_app st st' evs :
  trace st' = trace st ++ evs -> new_events st st' = evs.
Proof. unfold new_events. intros ->. apply drop_app_length. Qed.

Lemma own_events_call d idx a own fb met next :
  Forall (fun e => (S d <= ev_depth e)%nat) fb ->
  own_events d ((own_to_event d idx a <$> own) ++ fb
                ++ [EvReturn d idx a met next]) = own.
Proof.
  intros Hd. unfold own_events. rewrite !omap_app.
  fold (own_events d (own_to_event d idx a <$> own)).
  fold (own_events d fb).
  rewrite own_events_own, (own_events_deeper _ _ Hd). simpl.
  rewrite !app_nil_r. reflexivity.
Qed.

Lemma returns_below_call d idx a own fb met next :
  returns_at (S d) ((own_to_event d idx a <$> own) ++ fb
                    ++ [EvReturn d idx a met next]) = returns_at (S d) fb.
Proof.
  unfold returns_at. rewrite !omap_app.
  fold (returns_at (S d) (own_to_event d idx a <$> own)).
  rewrite returns_at_own. simpl.
  destruct (Nat.eqb_spec d (S d)); [lia|]. rewrite app_nil_r. reflexivity.
Qed.


(** *** The fuel is never the reason for a result *)

Lemma run_fallbacks_ext rec1 rec2 idx d fbs :
  (forall a i st, rec1 a i (S d) st = rec2 a i (S d) st) ->
  forall st, run_fallbacks rec1 idx d fbs st = run_fallbacks rec2 idx d fbs st.
Proof.
  intros Hext. induction fbs as [|fb fbs IH]; intros st; simpl; [reflexivity|].
  destruct (stop_signalled st); [reflexivity|].
  destruct (create_action fb) as [[act|]|e]; try apply IH.
  rewrite Hext. destruct (rec2 act idx (S d) st) as [[m nx] st1].
  destruct m; [reflexivity|apply IH].
Qed.

Lemma after_not_met_ext rec1 rec2 a idx d st :
  (forall a' i st', rec1 a' i (S d) st' = rec2 a' i (S d) st') ->
  after_not_met rec1 a idx d st = after_not_met rec2 a idx d st.
Proof.
  intros Hext. unfold after_not_met.
  destruct (fallback_action_sequence a); [reflexivity|].
  rewrite (run_fallbacks_ext rec1 rec2 idx d _ Hext). reflexivity.
Qed.

Lemma attempt_ext rec1 rec2 a idx d :
  (forall a' i st', rec1 a' i (S d) st' = rec2 a' i (S d) st') ->
  forall n cm st,
    attempt rec1 a idx d n cm st = attempt rec2 a idx d n cm st.
Proof.
  intros Hext. induction n as [|k IH]; intros cm st; [reflexivity|].
  simpl. destruct (stop_signalled st); [reflexivity|].
  destruct (action_execute (clock st) a) as [[met|e] stop_called];
    [|reflexivity].
  rewrite !(after_not_met_ext rec1 rec2 a idx d _ Hext).
  destruct k; [reflexivity|]. rewrite IH. reflexivity.
Qed.

(** Any fuel from [S (S _MAX_FALLBACK_DEPTH - d)] on gives a call at depth
    [d] the same result. *)
Lemma execute_with_fuel_stable fuel1 :
  forall fuel2 d,
    (S (S _MAX_FALLBACK_DEPTH - d) <= fuel1)%nat ->
    (S (S _MAX_FALLBACK_DEPTH - d) <= fuel2)%nat ->
    forall a idx st,
      execute_with_fuel fuel1 a idx d st = execute_with_fuel fuel2 a idx d st.
Proof.
  unfold _MAX_FALLBACK_DEPTH.
  induction fuel1 as [|f1 IH]; intros [|f2] d H1 H2 a idx st; try lia.
  cbn [execute_with_fuel]. unfold _MAX_FALLBACK_DEPTH.
  destruct (Nat.ltb_spec 3 d) as [Hdeep|Hshallow]; [reflexivity|].
  rewrite (attempt_ext (execute_with_fuel f1) (execute_with_fuel f2) a idx d);
    [reflexivity|].
  intros a' i st'. apply IH; lia.
Qed.

(** One call, at any depth: when the executor is still running after it,
    the index it returns is the branch the action's last condition-met
    result selects. *)
Lemma returned_index_follows_condition_result a idx d st b :
  let res := _execute_action_with_fallback a idx d st in
  last_outcome (own_events d (new_events st (res.2))) = Some (Returned b) ->
  _is_executing (res.2) = true ->
  res.1.2 = branch_target a b idx.
Proof.
  intros res. destruct (call_spec a idx d st)
    as (own & fb & Ht & Hd & _ & Hjump & _).
  fold res in Ht, Hjump.
  rewrite (new_events_app _ _ _ Ht), (own_events_call _ _ _ _ _ _ _ Hd).
  apply Hjump.
Qed.


(** C3: after a final condition-not-met the fallback actions run in list
    order and the run stops at the first one that reports success
    ([fallback_outcome], read off the returns one level down); a call beyond
    [_MAX_FALLBACK_DEPTH] = 3 calls no [execute], adds nothing but its own
    return record, and reports condition-not-met with the next index. *)
Theorem fallbacks_run_in_order_until_first_success a idx d st :
  let res := _execute_action_with_fallback a idx d st in
  let evs := new_events st (res.2) in
  (last_outcome (own_events d evs) = Some (Returned false) ->
   fallback_outcome (fallback_action_sequence a) (res.1.1)
     (returns_at (S d) evs) (stop_signalled (res.2))) /\
  ((_MAX_FALLBACK_DEPTH < d)%nat ->
   res.1 = (false, idx + 1) /\
   evs = [EvReturn d idx a false (idx + 1)]).
Proof.
  intros res evs. subst evs.
  destruct (call_spec a idx d st)
    as (own & fb & Ht & Hd & _ & _ & Hfb & Hdeep & _).
  fold res in Ht, Hfb, Hdeep.
  rewrite (new_events_app _ _ _ Ht), (own_events_call _ _ _ _ _ _ _ Hd),
    returns_below_call.
  split; [exact Hfb|].
  intros Hgt. destruct (Hdeep Hgt) as (-> & -> & Hres).
  split; [exact Hres|]. rewrite Hres. reflexivity.
Qed.

(** *** The action loop *)

Lemma dispatched_own d idx a own :
  dispatched (own_to_event d idx a <$> own) = [].
Proof.
  unfold dispatched. induction own as [|e own IH]; [reflexivity|].
  destruct e; simpl; exact IH.
Qed.

Lemma dispatched_deeper fb :
  Forall (fun e => (1 <= ev_depth e)%nat) fb -> dispatched fb = [].
Proof.
  unfold dispatched. induction 1 as [|e fb He _ IH]; [reflexivity|].
  destruct e; simpl in *; try exact IH.
  destruct depth; [lia|exact IH].
Qed.

Lemma dispatched_call idx a own fb met next :
  Forall (fun e => (1 <= ev_depth e)%nat) fb ->
  dispatched ((own_to_event 0 idx a <$> own) ++ fb
              ++ [EvReturn 0 idx a met next]) = [signature_of idx a].
Proof.
  intros Hd. unfold dispatched. rewrite !omap_app.
  fold (dispatched (own_to_event 0 idx a <$> own)). fold (dispatched fb).
  rewrite dispatched_own, (dispatched_deeper _ Hd). reflexivity.
Qed.

Lemma repeats_signature_spec sig h :
  repeats_signature sig h = true <-> exists pre, h = pre ++ [sig; sig; sig].
Proof.
  unfold repeats_signature, MIN_REPETITIONS_FOR_LOOP_DETECTION. split.
  - intros H. apply andb_true_iff in H as [Hlen Hall].
    apply Nat.leb_le in Hlen.
    exists (take (length h - 3) h).
    rewrite <- (take_drop (length h - 3) h) at 1. f_equal.
    assert (Hl : length (drop (length h - 3) h) = 3%nat)
      by (rewrite length_drop; lia).
    destruct (drop (length h - 3) h) as [|x [|y [|z [|w l]]]];
      simpl in Hl; try lia.
    simpl in Hall. repeat (apply andb_true_iff in Hall as [? Hall]).
    repeat match goal with
           | H : bool_decide _ = true |- _ => apply bool_decide_eq_true in H
           end.
    congruence.
  - intros [pre ->]. rewrite length_app.
    change (length [sig; sig; sig]) with 3%nat.
    apply andb_true_iff; split; [apply Nat.leb_le; lia|].
    rewrite drop_app_length' by lia. simpl.
    rewrite !bool_decide_eq_true_2 by reflexivity. reflexivity.
Qed.

Lemma no_triple_snoc {A} (l : list A) (x : A) :
  no_triple l -> (forall pre, l <> pre ++ [x; x]) -> no_triple (l ++ [x]).
Proof.
  intros Hl Hx pre y post Heq.
  destruct post as [|z post _] using rev_ind.
  - rewrite app_nil_r in Heq.
    change (pre ++ [y; y; y]) with (pre ++ [y; y] ++ [y]) in Heq.
    rewrite app_assoc in Heq. apply app_inj_tail in Heq as [Heq ->].
    exact (Hx pre Heq).
  - rewrite !app_assoc in Heq. apply app_inj_tail in Heq as [Heq _].
    rewrite <- app_assoc in Heq. exact (Hl pre y post Heq).
Qed.

Lemma suffix_ends_with {A} (k h p t : list A) :
  k ++ h = p ++ t -> (length t <= length h)%nat -> exists p', h = p' ++ t.
Proof.
  intros Heq Hlen.
  assert (Hk : (length k <= length p)%nat).
  { apply (f_equal length) in Heq. rewrite !length_app in Heq. lia. }
  exists (drop (length k) p).
  rewrite <- (drop_app_length k h), Heq.
  rewrite drop_app_le by exact Hk. reflexivity.
Qed.

Lemma cycle_invariant_safe st0 s : cycle_invariant st0 s -> cycle_safe st0 s.
Proof. intros (evs & Ht & _ & _ & _ & Hno). exists evs. split; assumption. Qed.

Lemma cycle_invariant_start st : cycle_invariant st (cycle_start st).
Proof.
  exists []. simpl. rewrite app_nil_r. repeat split.
  - exists []. reflexivity.
  - unfold MAX_HISTORY_LENGTH. lia.
  - intros pre x post H. destruct pre; discriminate H.
Qed.

Lemma action_step_invariant st0 actions_list s :
  cycle_invariant st0 s ->
  match action_step actions_list s with
  | Continue s' => cycle_invariant st0 s'
  | Break s' => cycle_safe st0 s'
  | Finished s' => cycle_safe st0 s'
  end.
Proof.
  intros Hinv. pose proof (cycle_invariant_safe _ _ Hinv) as Hsafe.
  unfold action_step.
  destruct ((0 <=? current_action_index s)
            && (current_action_index s <? Z.of_nat (length actions_list)));
    [|exact Hsafe].
  destruct (stop_signalled (exec s)); [exact Hsafe|].
  destruct (actions_list !! Z.to_nat (current_action_index s))
    as [[action|]|]; [| |exact Hsafe].
  2:{ destruct Hinv as (evs & Ht & Hsuf & Hlen & Hfull & Hno).
      exists evs. simpl. repeat split; assumption. }
  set (i := current_action_index s).
  set (sig := signature_of i action).
  set (appended := execution_history s ++ [sig]).
  set (history := if (MAX_HISTORY_LENGTH <? length appended)%nat
                  then drop 1 appended else appended).
  destruct (repeats_signature sig history) eqn:Hrep; [exact Hsafe|].
  destruct (call_spec action i 0 (exec s))
    as (own & fb & Ht' & Hd & _).
  destruct (_execute_action_with_fallback action i 0 (exec s))
    as [[met next] st'] eqn:Hcall. simpl in Ht'.
  destruct Hinv as (evs & Ht & [k Hsuf] & Hlen & Hfull & Hno).
  set (evs' := (own_to_event 0 i action <$> own) ++ fb
               ++ [EvReturn 0 i action met next]) in *.
  assert (Hdisp : dispatched (evs ++ evs') = dispatched evs ++ [sig]).
  { unfold dispatched at 1. rewrite omap_app. fold (dispatched evs).
    fold (dispatched evs'). subst evs'.
    rewrite (dispatched_call _ _ _ _ _ _ Hd). reflexivity. }
  assert (Htr : trace st' = trace st0 ++ evs ++ evs').
  { rewrite Ht', Ht, <- app_assoc. reflexivity. }
  assert (Happ : length appended = S (length (execution_history s)))
    by (subst appended; rewrite length_app; simpl; lia).
  assert (Hsuf' : exists k', dispatched evs ++ [sig] = k' ++ history).
  { subst history. destruct (MAX_HISTORY_LENGTH <? length appended)%nat.
    - destruct (execution_history s) as [|h0 hs] eqn:Hh.
      + exists (k ++ [sig]). rewrite Hsuf. subst appended. simpl.
        rewrite <- !app_assoc. reflexivity.
      + exists (k ++ [h0]). rewrite Hsuf. subst appended. simpl.
        rewrite drop_0, <- !app_assoc. reflexivity.
    - exists k. rewrite Hsuf. subst appended. rewrite <- app_assoc.
      reflexivity. }
  assert (Hlen' : (length history <= MAX_HISTORY_LENGTH)%nat).
  { subst history.
    destruct (Nat.ltb_spec MAX_HISTORY_LENGTH (length appended));
      [rewrite length_drop|]; lia. }
  assert (Hfull' : (length history < MAX_HISTORY_LENGTH)%nat ->
                   history = dispatched evs ++ [sig]).
  { subst history.
    destruct (Nat.ltb_spec MAX_HISTORY_LENGTH (length appended)).
    - rewrite length_drop. lia.
    - intros Hlt. subst appended. rewrite Hfull by lia. reflexivity. }
  assert (Hno' : no_triple (dispatched evs ++ [sig])).
  { apply no_triple_snoc; [exact Hno|]. intros pre Hpre.
    assert (Hends : exists pre', history = pre' ++ [sig; sig; sig]).
    { destruct (Nat.ltb_spec (length history) MAX_HISTORY_LENGTH) as [Hlt|Hge].
      - exists pre. rewrite (Hfull' Hlt), Hpre, <- app_assoc. reflexivity.
      - destruct Hsuf' as [k' Hk'].
        apply (suffix_ends_with k' history pre [sig; sig; sig]).
        + rewrite <- Hk', Hpre, <- app_assoc. reflexivity.
        + unfold MAX_HISTORY_LENGTH in Hge. simpl. lia. }
    apply repeats_signature_spec in Hends. congruence. }
  destruct (next =? -1).
  - exists (evs ++ evs'). simpl. rewrite Hdisp. split; assumption.
  - exists (evs ++ evs'). simpl. rewrite Hdisp. repeat split; assumption.
Qed.

Lemma action_loop_safe st0 actions_list n :
  forall s, cycle_invariant st0 s ->
            cycle_safe st0 (action_loop n actions_list s).
Proof.
  induction n as [|n IH]; intros s Hinv; simpl.
  - apply cycle_invariant_safe. exact Hinv.
  - pose proof (action_step_invariant st0 actions_list s Hinv) as Hstep.
    destruct (action_step actions_list s); [apply IH|..]; exact Hstep.
Qed.

(** C1: when a pass of the action loop has run an action and the loop goes
    on with the executor still running, the next index is the one the
    action's condition-met result selects.  On true, a
    [next_action_index_if_condition_met] that is an integer [n >= 0] makes
    [n] the next index; on false, a [next_action_index_if_condition_not_met]
    that is an integer [n >= 0] does; and when the attribute the result
    selects is no integer or a negative one, the next index is the current
    index plus one. *)
Theorem next_index_follows_condition_result actions_list s s' action b :
  action_step actions_list s = Continue s' ->
  actions_list !! Z.to_nat (current_action_index s) = Some (Some action) ->
  last_outcome (own_events 0 (new_events (exec s) (exec s')))
    = Some (Returned b) ->
  _is_executing (exec s') = true ->
  (b = true ->
   forall n, next_action_index_if_condition_met action = Some n -> 0 <= n ->
             current_action_index s' = n) /\
  (b = false ->
   forall n, next_action_index_if_condition_not_met action = Some n ->
             0 <= n -> current_action_index s' = n) /\
  ((forall n, (if b then next_action_index_if_condition_met action
               else next_action_index_if_condition_not_met action) = Some n ->
              n < 0) ->
   current_action_index s' = current_action_index s + 1).
Proof.
  unfold action_step. intros Hstep Haction Hlast Hrun.
  rewrite Haction in Hstep.
  destruct ((0 <=? current_action_index s)
            && (current_action_index s <? Z.of_nat (length actions_list)));
    [|discriminate].
  destruct (stop_signalled (exec s)); [discriminate|].
  destruct (repeats_signature _ _); [discriminate|].
  pose proof (returned_index_follows_condition_result
                action (current_action_index s) 0 (exec s) b) as Hjump.
  destruct (_execute_action_with_fallback action (current_action_index s) 0
              (exec s)) as [[met next] st'].
  destruct (next =? -1); [discriminate|].
  inversion Hstep; subst s'. simpl in *.
  specialize (Hjump Hlast Hrun). rewrite Hjump. clear.
  unfold branch_target, jump_target.
  split; [|split].
  - intros -> n -> Hn. apply Z.leb_le in Hn. rewrite Hn. reflexivity.
  - intros -> n -> Hn. apply Z.leb_le in Hn. rewrite Hn. reflexivity.
  - intros Hneg. destruct b.
    + destruct (next_action_index_if_condition_met action) as [n|];
        [|reflexivity].
      specialize (Hneg n eq_refl).
      destruct (Z.leb_spec 0 n); [lia|reflexivity].
    + destruct (next_action_index_if_condition_not_met action) as [n|];
        [|reflexivity].
      specialize (Hneg n eq_refl).
      destruct (Z.leb_spec 0 n); [lia|reflexivity].
Qed.

(** C4: within a run cycle no signature is handed to
    [_execute_action_with_fallback] three times in a row, and a pass that
    finds the signature about to run equal to the two recorded before it
    leaves the loop with the stop event set and the executor stopped,
    without running anything. *)
Theorem loop_detection_stops_third_repeat actions_list st :
  (forall n,
     no_triple
       (dispatched
          (new_events st (exec (action_loop n actions_list (cycle_start st))))))
  /\
  (forall s action pre,
     0 <= current_action_index s < Z.of_nat (length actions_list) ->
     stop_signalled (exec s) = false ->
     actions_list !! Z.to_nat (current_action_index s) = Some (Some action) ->
     execution_history s =
       pre ++ [signature_of (current_action_index s) action;
               signature_of (current_action_index s) action] ->
     exists s',
       action_step actions_list s = Break s' /\
       _stop_event (exec s') = true /\
       _is_executing (exec s') = false /\
       trace (exec s') = trace (exec s)).
Proof.
  split.
  - intros n.
    destruct (action_loop_safe st actions_list n (cycle_start st)
                (cycle_invariant_start st)) as (evs & Ht & Hno).
    rewrite (new_events_app _ _ _ Ht). exact Hno.
  - intros s action pre Hrange Hrun Haction Hhist. unfold action_step.
    replace ((0 <=? current_action_index s)
             && (current_action_index s <? Z.of_nat (length actions_list)))
      with true by (symmetry; apply andb_true_iff; split;
                    [apply Z.leb_le|apply Z.ltb_lt]; lia).
    rewrite Hrun, Haction, Hhist.
    set (sig := signature_of (current_action_index s) action).
    assert (Hrep : repeats_signature sig
              (if (MAX_HISTORY_LENGTH
                   <? length ((pre ++ [sig; sig]) ++ [sig]))%nat
               then drop 1 ((pre ++ [sig; sig]) ++ [sig])
               else (pre ++ [sig; sig]) ++ [sig]) = true).
    { apply repeats_signature_spec. rewrite <- app_assoc. simpl.
      destruct (Nat.ltb_spec MAX_HISTORY_LENGTH
                  (length (pre ++ [sig; sig; sig]))) as [Hlong|_].
      - destruct pre as [|p0 pre'].
        + simpl in Hlong. unfold MAX_HISTORY_LENGTH in Hlong. lia.
        + exists pre'. simpl. rewrite drop_0. reflexivity.
      - exists pre. reflexivity. }
    rewrite Hrep. eexists. split; [reflexivity|]. simpl.
    repeat split; reflexivity.
Qed.

(** *** A rule for what every call and every run cycle keeps *)

(** One pass of the retry loop, cut at the interactions. *)
Lemma attempt_unfold rec a idx d k cm st :
  attempt rec a idx d (S k) cm st =
  if stop_signalled st then (cm, idx + 1, set_is_executing false st)
  else
    let '(r, st2) := after_execute a idx d st in
    match r with
    | Raised _ => (false, -1, st2)
    | Returned met =>
        if negb (_is_executing st2) then (met, idx + 1, st2)
        else if met then
          (true, jump_target (next_action_index_if_condition_met a) idx, st2)
        else if is_absolute a then
          match k with
          | S _ =>
              let st3 := after_wait idx d st2 in
              if _stop_event st3 then
                (false, idx + 1, set_is_executing false st3)
              else attempt rec a idx d k false st3
          | O => after_not_met rec a idx d st2
          end
        else after_not_met rec a idx d st2
    end.
Proof.
  cbn [attempt]. unfold after_execute, after_wait.
  destruct (stop_signalled st); [reflexivity|].
  destruct (action_execute (clock st) a) as [[met|e] sc]; reflexivity.
Qed.

(** An executor that is still executing after a call of [execute] was not
    asked to stop during it. *)
Lemma after_execute_running a idx d st :
  stop_signalled st = false ->
  _is_executing (after_execute a idx d st).2 = true ->
  stop_signalled (after_execute a idx d st).2 = false.
Proof.
  unfold after_execute, stop_signalled. intros Hs.
  apply orb_false_iff in Hs as [Hex Hev].
  destruct (action_execute (clock st) a) as [[met|e] [|]]; simpl;
    try discriminate;
    try (destruct (String.eqb (type a) "click" && met);
         [destruct (click_xy a)|]; simpl; try discriminate;
         intros _; rewrite Hev; destruct (_is_executing st);
         solve [reflexivity|discriminate]).
Qed.

Section InvariantRule.

(** A property of the executor's state that stopping, an interaction made
    while no stop is signalled, and a return record each keep. *)
Variable Inv : executor -> Prop.
Hypothesis Inv_halt : forall st, Inv st -> Inv (set_is_executing false st).
Hypothesis Inv_stop : forall st, Inv st -> Inv (stop_job st).
Hypothesis Inv_execute : forall a idx d st,
  Inv st -> stop_signalled st = false -> Inv (after_execute a idx d st).2.
Hypothesis Inv_wait : forall idx d st,
  Inv st -> stop_signalled st = false -> Inv (after_wait idx d st).
Hypothesis Inv_return : forall d idx a met next st,
  Inv st -> Inv (log (EvReturn d idx a met next) st).

Lemma run_fallbacks_keeps rec idx d fbs :
  (forall a i st, Inv st -> Inv (rec a i (S d) st).2) ->
  forall st, Inv st -> Inv (run_fallbacks rec idx d fbs st).2.
Proof.
  intros Hrec. induction fbs as [|fb fbs IH]; intros st Hst; simpl;
    [exact Hst|].
  destruct (stop_signalled st); [exact Hst|].
  destruct (create_action fb) as [[act|]|e]; try (apply IH; exact Hst).
  pose proof (Hrec act idx st Hst) as Hcall.
  destruct (rec act idx (S d) st) as [[m nx] st1]. simpl in Hcall.
  destruct m; [exact Hcall|apply IH; exact Hcall].
Qed.

Lemma after_not_met_keeps rec a idx d st :
  (forall a' i st', Inv st' -> Inv (rec a' i (S d) st').2) ->
  Inv st -> Inv (after_not_met rec a idx d st).2.
Proof.
  intros Hrec Hst. unfold after_not_met.
  destruct (fallback_action_sequence a) as [|fb fbs] eqn:Hfbs; [exact Hst|].
  pose proof (run_fallbacks_keeps rec idx d (fb :: fbs) Hrec st Hst) as Hrun.
  destruct (run_fallbacks rec idx d (fb :: fbs) st) as [ok st1].
  exact Hrun.
Qed.

Lemma attempt_keeps rec a idx d :
  (forall a' i st', Inv st' -> Inv (rec a' i (S d) st').2) ->
  forall n cm st, Inv st -> Inv (attempt rec a idx d n cm st).2.
Proof.
  intros Hrec. induction n as [|k IH]; intros cm st Hst; [exact Hst|].
  rewrite attempt_unfold.
  destruct (stop_signalled st) eqn:Hs; [apply Inv_halt; exact Hst|].
  pose proof (Inv_execute a idx d st Hst Hs) as H2.
  pose proof (after_execute_running a idx d st Hs) as Hrun.
  destruct (after_execute a idx d st) as [r st2]. cbn [snd] in H2, Hrun.
  cbv beta iota. destruct r as [met|e]; [|exact H2].
  destruct (_is_executing st2) eqn:Hex; cbn [negb]; [|exact H2].
  specialize (Hrun eq_refl).
  destruct met; [exact H2|].
  destruct (is_absolute a);
    [|apply after_not_met_keeps; assumption].
  destruct k as [|k']; [apply after_not_met_keeps; assumption|].
  cbv zeta. pose proof (Inv_wait idx d st2 H2 Hrun) as H3.
  destruct (_stop_event (after_wait idx d st2));
    [apply Inv_halt; exact H3|apply IH; exact H3].
Qed.

Lemma execute_with_fuel_keeps fuel :
  forall a idx d st, Inv st -> Inv (execute_with_fuel fuel a idx d st).2.
Proof.
  induction fuel as [|fuel IH]; intros a idx d st Hst; [exact Hst|].
  cbn [execute_with_fuel].
  destruct (_MAX_FALLBACK_DEPTH <? d)%nat.
  - apply Inv_return. exact Hst.
  - pose proof (attempt_keeps (execute_with_fuel fuel) a idx d
                  (fun a' i st' => IH a' i (S d) st')
                  (if is_absolute a then _ABSOLUTE_ACTION_MAX_RETRIES
                   else 1%nat) false st Hst) as Hatt.
    destruct (attempt (execute_with_fuel fuel) a idx d
                (if is_absolute a then _ABSOLUTE_ACTION_MAX_RETRIES
                 else 1%nat) false st) as [[met next] st'].
    apply Inv_return. exact Hatt.
Qed.

Lemma call_keeps a idx d st :
  Inv st -> Inv (_execute_action_with_fallback a idx d st).2.
Proof. apply execute_with_fuel_keeps. Qed.

Lemma action_step_keeps actions_list s :
  Inv (exec s) ->
  match action_step actions_list s with
  | Continue s' | Break s' | Finished s' => Inv (exec s')
  end.
Proof.
  intros Hs. unfold action_step.
  destruct ((0 <=? current_action_index s)
            && (current_action_index s <? Z.of_nat (length actions_list)));
    [|exact Hs].
  destruct (stop_signalled (exec s)); [apply Inv_halt; exact Hs|].
  destruct (actions_list !! Z.to_nat (current_action_index s))
    as [[action|]|]; [|exact Hs..].
  destruct (repeats_signature _ _); [apply Inv_stop; exact Hs|].
  pose proof (call_keeps action (current_action_index s) 0 (exec s) Hs)
    as Hcall.
  destruct (_execute_action_with_fallback action (current_action_index s) 0
              (exec s)) as [[met next] st'].
  destruct (next =? -1); [apply Inv_stop|]; exact Hcall.
Qed.

Lemma action_loop_keeps actions_list n :
  forall s, Inv (exec s) -> Inv (exec (action_loop n actions_list s)).
Proof.
  induction n as [|n IH]; intros s Hs; [exact Hs|]. simpl.
  pose proof (action_step_keeps actions_list s Hs) as Hstep.
  destruct (action_step actions_list s); [apply IH|..]; exact Hstep.
Qed.

End InvariantRule.

(** *** A stop request or an exception ends the run at once *)

Lemma steps_snoc evs e :
  steps (evs ++ [e]) = if is_step e then steps evs ++ [e] else steps evs.
Proof.
  unfold steps. rewrite List.filter_app. simpl.
  destruct (is_step e); [reflexivity|apply app_nil_r].
Qed.

Lemma stops_at_once_start st : stops_at_once st st.
Proof.
  exists []. rewrite app_nil_r. simpl. repeat split.
  - lia.
  - intros k d idx a r Hk. rewrite lookup_nil in Hk. discriminate.
  - intros k e Hk. rewrite lookup_nil in Hk. discriminate.
  - intros _ k e Hk. rewrite lookup_nil in Hk. discriminate.
Qed.

(** A change of the flags that leaves a stop signalled. *)
Lemma stops_at_once_stopped st0 st st' :
  stops_at_once st0 st ->
  trace st' = trace st -> clock st' = clock st ->
  stop_signalled st' = true ->
  stops_at_once st0 st'.
Proof.
  intros (evs & Ht & Hc & Hf & Hl & _) Ht' Hc' Hs'.
  exists evs. rewrite Ht', Hc', Hs'. repeat split; try assumption.
  discriminate.
Qed.

(** One interaction [e], made while no stop is signalled. *)
Lemma stops_at_once_step st0 st st' e :
  stops_at_once st0 st ->
  stop_signalled st = false ->
  trace st' = trace st ++ [e] ->
  is_step e = true ->
  clock st' = S (clock st) ->
  (forall d idx a r,
     e = EvExecute d idx a r -> r = (action_execute (clock st) a).1) ->
  (stop_signalled st' = false -> halts (clock st) e = false) ->
  stops_at_once st0 st'.
Proof.
  intros (evs & Ht & Hc & Hf & Hl & Hn) Hs Ht' He Hc' Hr Hh.
  specialize (Hn Hs). exists (evs ++ [e]).
  rewrite steps_snoc, He, length_app, Ht', Ht, Hc', Hc, <- app_assoc.
  simpl. repeat split.
  - lia.
  - intros k d idx a r Hk.
    apply lookup_snoc_Some in Hk as [[_ Hk]|[-> Hk]];
      [exact (Hf _ _ _ _ _ Hk)|].
    rewrite <- Hc. exact (Hr _ _ _ _ Hk).
  - intros k e' Hk Hhalt.
    apply lookup_snoc_Some in Hk as [[_ Hk]|[-> _]].
    + rewrite (Hn _ _ Hk) in Hhalt. discriminate.
    + rewrite length_app. simpl. lia.
  - intros Hs' k e' Hk.
    apply lookup_snoc_Some in Hk as [[_ Hk]|[-> <-]];
      [exact (Hn _ _ Hk)|].
    rewrite <- Hc. exact (Hh Hs').
Qed.

(** What one call of [execute] does to the executor. *)
Lemma after_execute_spec a idx d st :
  let r := (action_execute (clock st) a).1 in
  let st2 := (after_execute a idx d st).2 in
  (after_execute a idx d st).1 = r /\
  trace st2 = trace st ++ [EvExecute d idx a r] /\
  clock st2 = S (clock st) /\
  (stop_signalled st2 = false ->
   halts (clock st) (EvExecute d idx a r) = false) /\
  last_click_position st2
  = click_of (EvExecute d idx a r) (last_click_position st).
Proof.
  unfold after_execute, halts, click_of, stop_signalled.
  destruct (action_execute (clock st) a) as [[[|]|e] [|]]; simpl;
    destruct (String.eqb (type a) "click"); try destruct (click_xy a);
    simpl; repeat split; intros; try reflexivity; try discriminate.
Qed.

Lemma stops_at_once_execute st0 a idx d st :
  stops_at_once st0 st -> stop_signalled st = false ->
  stops_at_once st0 (after_execute a idx d st).2.
Proof.
  intros Hst Hs.
  destruct (after_execute_spec a idx d st) as (_ & Ht & Hc & Hh & _).
  apply (stops_at_once_step st0 st _ _ Hst Hs Ht eq_refl Hc); [|exact Hh].
  intros d' idx' a' r' Heq. inversion Heq; subst. reflexivity.
Qed.

(** What one retry wait does to the executor. *)
Lemma after_wait_spec idx d st :
  let e := EvWait d idx _ABSOLUTE_ACTION_RETRY_INTERVAL in
  let st3 := after_wait idx d st in
  trace st3 = trace st ++ [e] /\
  clock st3 = S (clock st) /\
  (stop_signalled st3 = false -> halts (clock st) e = false) /\
  last_click_position st3 = last_click_position st.
Proof.
  unfold after_wait, halts, stop_signalled.
  destruct (stop_event_wait (clock st)); simpl; repeat split; intros;
    try reflexivity; try discriminate.
Qed.

Lemma stops_at_once_wait st0 idx d st :
  stops_at_once st0 st -> stop_signalled st = false ->
  stops_at_once st0 (after_wait idx d st).
Proof.
  intros Hst Hs.
  destruct (after_wait_spec idx d st) as (Ht & Hc & Hh & _).
  apply (stops_at_once_step st0 st _ _ Hst Hs Ht eq_refl Hc); [|exact Hh].
  intros d' idx' a' r' Heq. discriminate Heq.
Qed.

Lemma stops_at_once_return st0 d idx a met next st :
  stops_at_once st0 st ->
  stops_at_once st0 (log (EvReturn d idx a met next) st).
Proof.
  intros (evs & Ht & Hc & Hf & Hl & Hn).
  exists (evs ++ [EvReturn d idx a met next]).
  rewrite steps_snoc. simpl. rewrite Ht, <- app_assoc.
  repeat split; assumption.
Qed.

(** An executor on which a stop is signalled makes no interaction. *)
Definition stays_idle (st0 st : executor) : Prop :=
  exists evs,
    trace st = trace st0 ++ evs /\ steps evs = [] /\
    stop_signalled st = true /\
    last_click_position st = last_click_position st0.

Lemma stays_idle_flags st0 st st' :
  stays_idle st0 st ->
  trace st' = trace st -> stop_signalled st' = true ->
  last_click_position st' = last_click_position st ->
  stays_idle st0 st'.
Proof.
  intros (evs & Ht & Hsteps & _ & Hclick) Ht' Hs' Hc'.
  exists evs. rewrite Ht', Hc'. repeat split; assumption.
Qed.

Lemma stays_idle_return st0 d idx a met next st :
  stays_idle st0 st -> stays_idle st0 (log (EvReturn d idx a met next) st).
Proof.
  intros (evs & Ht & Hsteps & Hs & Hclick).
  exists (evs ++ [EvReturn d idx a met next]).
  rewrite steps_snoc. simpl. rewrite Ht, <- app_assoc.
  repeat split; assumption.
Qed.

(** *** The last click *)

Lemma tracks_last_click_start st : tracks_last_click st st.
Proof. exists []. rewrite app_nil_r. split; reflexivity. Qed.

Lemma tracks_last_click_event st0 st st' e :
  tracks_last_click st0 st ->
  trace st' = trace st ++ [e] ->
  last_click_position st' = click_of e (last_click_position st) ->
  tracks_last_click st0 st'.
Proof.
  intros (evs & Ht & Hclick) Ht' Hc'. exists (evs ++ [e]).
  rewrite Ht', Ht, <- app_assoc. split; [reflexivity|].
  unfold last_click_after. rewrite foldl_app. simpl.
  fold (last_click_after evs (last_click_position st0)).
  rewrite <- Hclick. exact Hc'.
Qed.

Lemma tracks_last_click_flags st0 st st' :
  tracks_last_click st0 st ->
  trace st' = trace st ->
  last_click_position st' = last_click_position st ->
  tracks_last_click st0 st'.
Proof.
  intros (evs & Ht & Hclick) Ht' Hc'. exists evs.
  rewrite Ht', Hc'. split; assumption.
Qed.

(** Every call of [_execute_action_with_fallback] and every run cycle
    keeps the three properties. *)
Lemma stops_at_once_kept st0 :
  (forall a idx d st,
     stops_at_once st0 st ->
     stops_at_once st0 (_execute_action_with_fallback a idx d st).2) /\
  (forall actions_list n s,
     stops_at_once st0 (exec s) ->
     stops_at_once st0 (exec (action_loop n actions_list s))).
Proof.
  split; intros; [apply call_keeps|apply action_loop_keeps]; try assumption;
    try (intros; apply stops_at_once_execute; assumption);
    try (intros; apply stops_at_once_wait; assumption);
    try (intros; apply stops_at_once_return; assumption);
    intros st1 H1; apply (stops_at_once_stopped st0 st1); try assumption;
    reflexivity.
Qed.

Lemma stays_idle_kept st0 :
  (forall a idx d st,
     stays_idle st0 st ->
     stays_idle st0 (_execute_action_with_fallback a idx d st).2) /\
  (forall actions_list n s,
     stays_idle st0 (exec s) ->
     stays_idle st0 (exec (action_loop n actions_list s))).
Proof.
  assert (Hoff : forall st a' idx' d', stays_idle st0 st ->
            stop_signalled st = false ->
            stays_idle st0 (after_execute a' idx' d' st).2).
  { intros st a' idx' d' (evs & _ & _ & Hs & _) Hn. congruence. }
  assert (Hoff' : forall st idx' d', stays_idle st0 st ->
            stop_signalled st = false ->
            stays_idle st0 (after_wait idx' d' st)).
  { intros st idx' d' (evs & _ & _ & Hs & _) Hn. congruence. }
  split; intros; [apply call_keeps|apply action_loop_keeps]; try assumption;
    try (intros; apply Hoff; assumption);
    try (intros; apply Hoff'; assumption);
    try (intros; apply stays_idle_return; assumption);
    intros st1 H1; apply (stays_idle_flags st0 st1); try assumption;
    reflexivity.
Qed.

Lemma tracks_last_click_kept st0 :
  (forall a idx d st,
     tracks_last_click st0 st ->
     tracks_last_click st0 (_execute_action_with_fallback a idx d st).2) /\
  (forall actions_list n s,
     tracks_last_click st0 (exec s) ->
     tracks_last_click st0 (exec (action_loop n actions_list s))).
Proof.
  assert (Hex : forall a' idx' d' st, tracks_last_click st0 st ->
            stop_signalled st = false ->
            tracks_last_click st0 (after_execute a' idx' d' st).2).
  { intros a' idx' d' st Hst _.
    destruct (after_execute_spec a' idx' d' st) as (_ & Ht & _ & _ & Hc).
    exact (tracks_last_click_event st0 st _ _ Hst Ht Hc). }
  assert (Hw : forall idx' d' st, tracks_last_click st0 st ->
            stop_signalled st = false ->
            tracks_last_click st0 (after_wait idx' d' st)).
  { intros idx' d' st Hst _.
    destruct (after_wait_spec idx' d' st) as (Ht & _ & _ & Hc).
    exact (tracks_last_click_event st0 st _ _ Hst Ht Hc). }
  assert (Hr : forall d' idx' a' met next st, tracks_last_click st0 st ->
            tracks_last_click st0 (log (EvReturn d' idx' a' met next) st)).
  { intros d' idx' a' met next st Hst.
    exact (tracks_last_click_event st0 st
             (log (EvReturn d' idx' a' met next) st)
             (EvReturn d' idx' a' met next) Hst eq_refl eq_refl). }
  split; intros; [apply call_keeps|apply action_loop_keeps]; try assumption;
    intros st1 H1; apply (tracks_last_click_flags st0 st1); try assumption;
    reflexivity.
Qed.

(** X2: when [action.execute] raises, or [stop] is called while an interaction
    lasts, that interaction is the last one of the call and of the run
    cycle, and the executor is left stopped; the outcomes in the trace are
    those the world gave; and a call or run cycle that starts on a stopped
    executor makes no interaction at all. *)
Theorem halting_interaction_ends_the_run st :
  forall st',
    (exists a idx d, st' = (_execute_action_with_fallback a idx d st).2) \/
    (exists actions_list n,
       st' = exec (action_loop n actions_list (cycle_start st))) ->
    let l := steps (new_events st st') in
    recorded_faithfully (clock st) l /\
    (forall k e, l !! k = Some e -> halts (clock st + k) e = true ->
                 length l = S k /\ stop_signalled st' = true) /\
    (stop_signalled st = true -> l = [] /\ stop_signalled st' = true).
Proof.
  intros st' Hst'.
  assert (Hstop : stops_at_once st st').
  { destruct Hst' as [(a & idx & d & ->)|(actions_list & n & ->)].
    - apply (proj1 (stops_at_once_kept st)), stops_at_once_start.
    - apply (proj2 (stops_at_once_kept st)), stops_at_once_start. }
  assert (Hidle : stop_signalled st = true -> stays_idle st st').
  { intros Hs.
    assert (H0 : stays_idle st st).
    { exists []. rewrite app_nil_r. repeat split. exact Hs. }
    destruct Hst' as [(a & idx & d & ->)|(actions_list & n & ->)].
    - apply (proj1 (stays_idle_kept st)), H0.
    - apply (proj2 (stays_idle_kept st)), H0. }
  destruct Hstop as (evs & Ht & Hc & Hf & Hl & Hn).
  cbv zeta. rewrite (new_events_app _ _ _ Ht). repeat split.
  - exact Hf.
  - exact (Hl _ _ H H0).
  - destruct (stop_signalled st') eqn:Hs; [reflexivity|].
    rewrite (Hn eq_refl _ _ H) in H0. discriminate.
  - destruct (Hidle H) as (evs' & Ht' & Hsteps & _).
    rewrite Ht in Ht'. apply app_inv_head in Ht'. subst evs'. exact Hsteps.
  - destruct (Hidle H) as (_ & _ & _ & Hs & _). exact Hs.
Qed.

(** X3: after a call and after a run cycle, [last_click_position] holds the
    coordinates of the last click action whose [execute] returned true, and
    what it held before when there was none. *)
Theorem last_click_position_is_last_met_click st :
  (forall a idx d,
     let st' := (_execute_action_with_fallback a idx d st).2 in
     last_click_position st'
     = last_click_after (new_events st st') (last_click_position st)) /\
  (forall actions_list n,
     let st' := exec (action_loop n actions_list (cycle_start st)) in
     last_click_position st'
     = last_click_after (new_events st st') (last_click_position st)).
Proof.
  split; intros.
  - destruct (proj1 (tracks_last_click_kept st) a idx d st
                (tracks_last_click_start st)) as (evs & Ht & Hc).
    subst st'. rewrite (new_events_app _ _ _ Ht). exact Hc.
  - destruct (proj2 (tracks_last_click_kept st) actions_list n
                (cycle_start st) (tracks_last_click_start st))
      as (evs & Ht & Hc).
    subst st'. rewrite (new_events_app _ _ _ Ht). exact Hc.
Qed.

(** *** The run loop *)

Lemma run_action_loop_some passes actions_list :
  forall s s',
    run_action_loop passes actions_list s = Some s' ->
    action_loop passes actions_list s = s'.
Proof.
  induction passes as [|n IH]; intros s s'; [discriminate|]. simpl.
  destruct (action_step actions_list s); [apply IH|..]; congruence.
Qed.

Section RunInvariant.

Variable Inv : executor -> Prop.
Hypothesis Inv_halt : forall st, Inv st -> Inv (set_is_executing false st).
Hypothesis Inv_stop : forall st, Inv st -> Inv (stop_job st).
Hypothesis Inv_execute : forall a idx d st,
  Inv st -> stop_signalled st = false -> Inv (after_execute a idx d st).2.
Hypothesis Inv_wait : forall idx d st,
  Inv st -> stop_signalled st = false -> Inv (after_wait idx d st).
Hypothesis Inv_return : forall d idx a met next st,
  Inv st -> Inv (log (EvReturn d idx a met next) st).

Variable check_continue : nat -> result bool.
Variable delay_between_runs_s : pyval.
Variable loop_delay_wait : nat -> result bool.

Lemma execute_loop_keeps cycles passes rc actions_list :
  forall st count s',
    Inv st ->
    _execute_loop check_continue delay_between_runs_s loop_delay_wait
      cycles passes rc actions_list st count = Some s' ->
    Inv (ex s').
Proof.
  induction cycles as [|cycles IH]; intros st count s' Hst; [discriminate|].
  cbn [_execute_loop].
  destruct (stop_signalled st);
    [intros [= <-]; apply Inv_halt; exact Hst|].
  destruct (negb (should_continue_job_run_cycle check_continue rc count));
    [intros [= <-]; apply Inv_halt, Inv_stop; exact Hst|].
  destruct (run_action_loop passes actions_list (cycle_start st))
    as [c|] eqn:Hrun; [|discriminate].
  apply run_action_loop_some in Hrun.
  assert (Hc : Inv (exec c)).
  { rewrite <- Hrun.
    apply (action_loop_keeps Inv Inv_halt Inv_stop Inv_execute Inv_wait
             Inv_return). exact Hst. }
  destruct (negb (_is_executing (exec c)));
    [intros [= <-]; apply Inv_halt; exact Hc|].
  unfold after_cycle, abort.
  destruct (positive_delay delay_between_runs_s) as [positive|e];
    [|intros [= <-]; apply Inv_halt, Inv_stop; exact Hc].
  destruct (negb (stop_signalled (exec c)) && positive);
    [|apply IH; exact Hc].
  destruct (loop_delay_wait count) as [[|]|e].
  - apply IH. apply Inv_stop. exact Hc.
  - apply IH. exact Hc.
  - intros [= <-]. apply Inv_halt, Inv_stop. exact Hc.
Qed.

Lemma execute_loop_ends cycles passes rc actions_list :
  forall st count s',
    _execute_loop check_continue delay_between_runs_s loop_delay_wait
      cycles passes rc actions_list st count = Some s' ->
    _is_executing (ex s') = false /\ job_running s' = false /\
    (count <= _current_run_count s')%nat.
Proof.
  induction cycles as [|cycles IH]; intros st count s'; [discriminate|].
  cbn [_execute_loop].
  destruct (stop_signalled st); [intros [= <-]; cbn; auto|].
  destruct (negb (should_continue_job_run_cycle check_continue rc count));
    [intros [= <-]; cbn; auto|].
  destruct (run_action_loop passes actions_list (cycle_start st))
    as [c|]; [|discriminate].
  destruct (negb (_is_executing (exec c))); [intros [= <-]; cbn; auto|].
  unfold after_cycle, abort.
  assert (Hnext : forall st',
            _execute_loop check_continue delay_between_runs_s loop_delay_wait
              cycles passes rc actions_list st' (S count) = Some s' ->
            _is_executing (ex s') = false /\ job_running s' = false /\
            (count <= _current_run_count s')%nat).
  { intros st' Hloop. destruct (IH _ _ _ Hloop) as (H1 & H2 & H3).
    repeat split; [exact H1|exact H2|lia]. }
  destruct (positive_delay delay_between_runs_s) as [positive|e];
    [|intros [= <-]; cbn; auto].
  destruct (negb (stop_signalled (exec c)) && positive); [|apply Hnext].
  destruct (loop_delay_wait count) as [[|]|e];
    [apply Hnext|apply Hnext|intros [= <-]; cbn; auto].
Qed.

End RunInvariant.

(** X20: whenever [_execute_loop] returns, the executor is not executing and
    the job's [running] flag is false, the run count has not gone down,
    and over the whole run an interaction in which [execute] raised or
    [stop] was called is the last one made.  Entered on a stopped executor
    the loop returns at once and leaves the trace and the count alone;
    entered with a run condition that is not a [JobRunCondition], or whose
    [check_continue] answers false or raises, it returns with the stop
    event set before any action is tried. *)
Theorem run_loop_ends_stopped
    check_continue delay_between_runs_s loop_delay_wait
    passes rc actions_list st count :
  (forall cycles s',
     _execute_loop check_continue delay_between_runs_s loop_delay_wait
       cycles passes rc actions_list st count = Some s' ->
     _is_executing (ex s') = false /\ job_running s' = false /\
     (count <= _current_run_count s')%nat /\
     (forall k e,
        steps (new_events st (ex s')) !! k = Some e ->
        halts (clock st + k) e = true ->
        length (steps (new_events st (ex s'))) = S k)) /\
  (forall cycles,
     stop_signalled st = true ->
     _execute_loop check_continue delay_between_runs_s loop_delay_wait
       (S cycles) passes rc actions_list st count
     = Some {| ex := set_is_executing false st;
               _current_run_count := count; job_running := false |}) /\
  (forall cycles,
     stop_signalled st = false ->
     should_continue_job_run_cycle check_continue rc count = false ->
     _execute_loop check_continue delay_between_runs_s loop_delay_wait
       (S cycles) passes rc actions_list st count
     = Some {| ex := set_is_executing false (stop_job st);
               _current_run_count := count; job_running := false |}).
Proof.
  split_and!.
  - intros cycles s' Hloop.
    destruct (execute_loop_ends _ _ _ _ _ _ _ _ _ _ Hloop) as (H1 & H2 & H3).
    split_and!; try assumption.
    assert (Hinv : stops_at_once st (ex s')).
    { apply (execute_loop_keeps (stops_at_once st)) in Hloop;
        [exact Hloop|..|apply stops_at_once_start];
        try (intros; apply stops_at_once_execute; assumption);
        try (intros; apply stops_at_once_wait; assumption);
        try (intros; apply stops_at_once_return; assumption);
        intros st1 Hst1; apply (stops_at_once_stopped st st1);
        try assumption; reflexivity. }
    destruct Hinv as (evs & Ht & _ & _ & Hl & _).
    rewrite (new_events_app _ _ _ Ht). exact Hl.
  - intros cycles Hstop. cbn [_execute_loop]. rewrite Hstop. reflexivity.
  - intros cycles Hrun Hstop. cbn [_execute_loop].
    rewrite Hrun, Hstop. reflexivity.
Qed.

End Executor.


(** *** Worked runs *)

(** The placeholder [create_action] of job_executor.py, which stands in
    for core/action.py's factory when that module cannot be imported: an
    empty dictionary gives the action ["dummy_fallback_error"], any other
    one the action its fields describe, with ["dummy"] for a missing
    ["type"].  The executor reads a branch target as an integer when it is
    an [int] or a [bool], [is_absolute] by its truth value, and a falsy
    fallback sequence as none.  A dictionary the [Action] record cannot
    hold (a ["type"] or ["condition_id"] that is no string, a fallback
    sequence that is no list of dictionaries) is outside the worked runs
    and gives no action here. *)
Definition int_field (k : string) (data : pydict) : option Z :=
  match dict_get k data with
  | Some (PyInt n) => Some n
  | Some (PyBool b) => Some (if b then 1 else 0)
  | _ => None
  end.

Definition type_field (data : pydict) : option string :=
  match dict_get "type" data with
  | None => Some "dummy"
  | Some (PyStr t) => Some t
  | Some _ => None
  end.

Definition condition_id_field (data : pydict) : option (option string) :=
  match dict_get "condition_id" data with
  | None | Some PyNone => Some None
  | Some (PyStr s) => Some (Some s)
  | Some _ => None
  end.

Definition as_dict (v : pyval) : option pydict :=
  match v with
  | PyDict d => Some d
  | _ => None
  end.

Definition fallback_field (v : pyval) : option (list pydict) :=
  if negb (truthy v) then Some []
  else
    match v with
    | PyList l => mapM as_dict l
    | _ => None
    end.

Definition placeholder_create_action (data : pydict)
    : result (option Action) :=
  match data with
  | [] =>
      Ok (Some {| type := "dummy_fallback_error"; condition_id := None;
                  next_action_index_if_condition_met := None;
                  next_action_index_if_condition_not_met := None;
                  is_absolute := false; fallback_action_sequence := [];
                  click_xy := None |})
  | _ =>
      match type_field data, condition_id_field data,
            fallback_field (dict_get_default "fallback_action_sequence"
                                             PyNone data) with
      | Some t, Some cid, Some fbs =>
          Ok (Some {| type := t;
                      condition_id := cid;
                      next_action_index_if_condition_met :=
                        int_field "next_action_index_if_condition_met" data;
                      next_action_index_if_condition_not_met :=
                        int_field "next_action_index_if_condition_not_met"
                                  data;
                      is_absolute :=
                        truthy (dict_get_default "is_absolute" (PyBool false)
                                                 data);
                      fallback_action_sequence := fbs;
                      click_xy := None |})
      | _, _, _ => Ok None
      end
  end.

Definition running : executor :=
  {| _is_executing := true; _stop_event := false;
     last_click_position := None; clock := 0; trace := [] |}.

(** The world in which an action's condition is met exactly when its type
    is ["ok"], and nobody asks for a stop. *)
Definition ok_world (n : nat) (a : Action) : exec_outcome * bool :=
  (Returned (String.eqb (type a) "ok"), false).

(** The world in which a condition is first met at the fifth interaction:
    after two failed calls and the two waits that follow them. *)
Definition third_time_world (n : nat) (a : Action) : exec_outcome * bool :=
  (Returned (4 <=? n)%nat, false).

Definition never_stops (n : nat) : bool := false.

Definition plain (t : string) (met not_met : option Z) : Action :=
  {| type := t; condition_id := None;
     next_action_index_if_condition_met := met;
     next_action_index_if_condition_not_met := not_met;
     is_absolute := false; fallback_action_sequence := []; click_xy := None |}.

Definition fallback_data (t : string) (fbs : list pyval) : pydict :=
  [("type", PyStr t); ("fallback_action_sequence", PyList fbs)].

(** An action whose condition fails, with three fallbacks: the first fails,
    the second succeeds. *)
Definition with_fallbacks : Action :=
  {| type := "click"; condition_id := None;
     next_action_index_if_condition_met := None;
     next_action_index_if_condition_not_met := Some 7;
     is_absolute := false;
     fallback_action_sequence :=
       [fallback_data "miss" []; fallback_data "ok" [];
        fallback_data "never" []];
     click_xy := None |}.


Definition absolute_wait : Action :=
  {| type := "wait_for"; condition_id := Some "c1";
     next_action_index_if_condition_met := Some 2;
     next_action_index_if_condition_not_met := None;
     is_absolute := true; fallback_action_sequence := []; click_xy := None |}.

Definition call_in (world : nat -> Action -> exec_outcome * bool)
    (a : Action) (d : nat) : bool * Z * executor :=
  _execute_action_with_fallback world never_stops placeholder_create_action
    a 0 d running.

Example fallback_run_reports :
  returns_at 1 (trace (call_in ok_world with_fallbacks 0).2)
  = [(plain "miss" None None, false); (plain "ok" None None, true)]
  /\ (call_in ok_world with_fallbacks 0).1 = (true, 7).
Proof. vm_compute. split; reflexivity. Qed.

Example absolute_retry_run :
  own_events 0 (trace (call_in third_time_world absolute_wait 0).2)
  = [OInvoke (Returned false); OWait (1 # 2);
     OInvoke (Returned false); OWait (1 # 2);
     OInvoke (Returned true)]
  /\ (call_in third_time_world absolute_wait 0).1 = (true, 2).
Proof. vm_compute. split; reflexivity. Qed.



(** C3 on [with_fallbacks]: the first fallback failed, the second won, the
    third never ran. *)
Lemma fallbacks_run_in_order_until_first_success_witness :
  fallback_outcome placeholder_create_action
    (fallback_action_sequence with_fallbacks) true
    [(plain "miss" None None, false); (plain "ok" None None, true)] false.
Proof.
  exact (proj1 (fallbacks_run_in_order_until_first_success
                  ok_world never_stops placeholder_create_action
                  with_fallbacks 0 0 running) eq_refl).
Defined.

Definition three_actions : list (option Action) :=
  [Some absolute_wait; Some (plain "skipped" None None);
   Some (plain "ok" None None)].

(** The first pass of the action loop over [three_actions]. *)
Definition first_pass : step_result :=
  action_step third_time_world never_stops placeholder_create_action
    three_actions (cycle_start running).

Definition after_first_step : cycle_state :=
  match first_pass with
  | Continue s' => s'
  | _ => cycle_start running
  end.

(** C1 on [three_actions]: the first action's condition is met at the third
    try, its met-target is 2, and the loop goes on at index 2, past the
    second action. *)
Lemma next_index_follows_condition_result_witness :
  first_pass = Continue after_first_step
  /\ next_action_index_if_condition_met absolute_wait = Some 2
  /\ current_action_index after_first_step = 2.
Proof.
  split; [reflexivity|]. split; [reflexivity|].
  exact (proj1 (next_index_follows_condition_result
                  third_time_world never_stops placeholder_create_action
                  three_actions (cycle_start running) after_first_step
                  absolute_wait true eq_refl eq_refl eq_refl eq_refl)
               eq_refl 2 eq_refl ltac:(lia)).
Defined.

(** An action that jumps back to itself is run twice and stopped at the
    third pass. *)
Definition self_loop : list (option Action) :=
  [Some (plain "spin" (Some 0) (Some 0))].

Example self_loop_is_cut :
  let s := action_loop ok_world never_stops placeholder_create_action 10
             self_loop (cycle_start running) in
  dispatched (trace (exec s))
    = [signature_of 0 (plain "spin" (Some 0) (Some 0));
       signature_of 0 (plain "spin" (Some 0) (Some 0))]
  /\ _stop_event (exec s) = true /\ _is_executing (exec s) = false.
Proof. vm_compute. repeat split; reflexivity. Qed.

(** C4 on [self_loop]: the third pass is the one that stops the job. *)
Lemma loop_detection_stops_third_repeat_witness :
  no_triple
    (dispatched
       (new_events running
          (exec (action_loop ok_world never_stops placeholder_create_action
                   10 self_loop (cycle_start running))))).
Proof.
  exact (proj1 (loop_detection_stops_third_repeat
                  ok_world never_stops placeholder_create_action
                  self_loop running) 10%nat).
Defined.

(** The world in which the second call of [execute] raises. *)
Definition raising_world (n : nat) (a : Action) : exec_outcome * bool :=
  match n with
  | 1%nat => (Raised RuntimeError, false)
  | _ => (Returned false, false)
  end.

(** On [with_fallbacks] in that world the first fallback raises: it is the
    second and last interaction, the other fallbacks never run, and the
    executor is left stopped. *)
Lemma halting_interaction_ends_the_run_witness :
  length (steps (new_events running
                   (call_in raising_world with_fallbacks 0).2)) = 2%nat /\
  stop_signalled (call_in raising_world with_fallbacks 0).2 = true.
Proof.
  exact (proj1 (proj2 (halting_interaction_ends_the_run
                         raising_world never_stops placeholder_create_action
                         running _
                         (or_introl
                            (ex_intro _ with_fallbacks
                               (ex_intro _ 0 (ex_intro _ 0%nat eq_refl))))))
           1%nat
           (EvExecute 1 0 (plain "miss" None None) (Raised RuntimeError))
           eq_refl eq_refl).
Defined.

(** A run condition that allows two cycles. *)
Definition twice (count : nat) : result bool := Ok (count <? 2)%nat.

(** A job of one action under that run condition, without a delay between
    the runs: it completes two cycles and ends stopped. *)
Lemma run_loop_ends_stopped_witness :
  exists s',
    _execute_loop ok_world never_stops placeholder_create_action
      twice (PyInt 0) (fun _ => Ok false) 5 5 ARunCondition
      [Some (plain "ok" None None)] running 0 = Some s' /\
    _current_run_count s' = 2%nat /\
    _is_executing (ex s') = false /\ job_running s' = false.
Proof.
  eexists. split; [reflexivity|]. split; [reflexivity|].
  pose proof (proj1 (run_loop_ends_stopped
                       ok_world never_stops placeholder_create_action
                       twice (PyInt 0) (fun _ => Ok false) 5 ARunCondition
                       [Some (plain "ok" None None)] running 0)
                5%nat _ eq_refl)
    as (H1 & H2 & _).
  split; [exact H1|exact H2].
Defined.

(** Two clicks, the second of which misses: the position kept is that of
    the first. *)
Definition click_at (t : string) (p : Z * Z) : Action :=
  {| type := t; condition_id := None;
     next_action_index_if_condition_met := None;
     next_action_index_if_condition_not_met := None;
     is_absolute := false; fallback_action_sequence := [];
     click_xy := Some p |}.

Definition first_hits_world (n : nat) (a : Action) : exec_outcome * bool :=
  (Returned (n =? 0)%nat, false).

Definition two_clicks : list (option Action) :=
  [Some (click_at "click" (3, 4)); Some (click_at "click" (30, 40))].

Lemma last_click_position_is_last_met_click_witness :
  last_click_position
    (exec (action_loop first_hits_world never_stops placeholder_create_action
             5 two_clicks (cycle_start running)))
  = Some (3, 4).
Proof.
  exact (eq_trans
           (proj2 (last_click_position_is_last_met_click
                     first_hits_world never_stops placeholder_create_action
                     running) two_clicks 5%nat)
           eq_refl).
Defined.

End job_executor.

(** ** core/trigger.py *)

Module trigger.

Record TriggerAction := {
  action_type : string;
  target : string;
}.

Definition LOGIC_AND : string := "AND".
Definition LOGIC_OR : string := "OR".

Section CheckConditions.

(** The condition objects of a trigger, and what the call
    [condition_obj.check( **context)] made for the [i]-th entry of the list
    gives: a flag, or an exception. *)
Variable Condition : Type.
Variable check : nat -> Condition -> result bool.

Record Trigger := {
  name : string;
  conditions : list Condition;
  condition_logic : string;
  actions : list TriggerAction;
  enabled : bool;
  check_interval_seconds : Q;
  is_ai_trigger : bool;
  last_checked_time : Q;
  last_triggered_time : Q;
}.

Definition set_last_checked_time (now : Q) (t : Trigger) : Trigger :=
  {| name := name t; conditions := conditions t;
     condition_logic := condition_logic t; actions := actions t;
     enabled := enabled t;
     check_interval_seconds := check_interval_seconds t;
     is_ai_trigger := is_ai_trigger t;
     last_checked_time := now;
     last_triggered_time := last_triggered_time t |}.

(** The [for] loop of [check_conditions] from position [i] on, with the
    [results] gathered so far, and the two returns that follow it. *)
Fixpoint check_loop (logic : string) (i : nat) (cs : list Condition)
    (results : list bool) : bool :=
  match cs with
  | [] =>
      match results with
      | [] => false
      | _ => String.eqb logic LOGIC_AND
      end
  | condition_obj :: rest =>
      match check i condition_obj with
      | Ok result =>
          if String.eqb logic LOGIC_OR && result then true
          else if String.eqb logic LOGIC_AND && negb result then false
          else check_loop logic (S i) rest (results ++ [result])
      | Raise _ =>
          if String.eqb logic LOGIC_AND then false
          else check_loop logic (S i) rest (results ++ [false])
      end
  end.

(** [check_conditions] at time [now] ([time.monotonic()]): the answer and
    the trigger with [last_checked_time] as the call leaves it. *)
Definition check_conditions (now : Q) (t : Trigger) : bool * Trigger :=
  if negb (enabled t) then (false, t)
  else if is_ai_trigger t then (false, t)
  else
    match conditions t with
    | [] => (match actions t with [] => false | _ => true end, t)
    | cs =>
        (check_loop (condition_logic t) 0 cs [], set_last_checked_time now t)
    end.

Lemma check_loop_and i cs results :
  check_loop LOGIC_AND i cs results = true <->
  (forall j c, cs !! j = Some c -> check (i + j) c = Ok true) /\
  (cs = [] -> results <> []).
Proof.
  revert i results. induction cs as [|c cs IH]; intros i results; simpl.
  - destruct results; split.
    + discriminate.
    + intros [_ H]. exfalso. apply H; reflexivity.
    + intros _. split; [intros j c Hj; rewrite lookup_nil in Hj|]; discriminate.
    + reflexivity.
  - destruct (check i c) as [[|]|e] eqn:Hc; simpl.
    + rewrite IH. split.
      * intros [Hall _]. split; [|discriminate].
        intros [|j] c' Hj; simpl in Hj.
        -- inversion Hj; subst. rewrite Nat.add_0_r. exact Hc.
        -- rewrite <- Nat.add_succ_comm. apply Hall. exact Hj.
      * intros [Hall _]. split.
        -- intros j c' Hj. rewrite Nat.add_succ_comm.
           apply (Hall (S j)). exact Hj.
        -- intros _ Hnil. destruct results; discriminate Hnil.
    + split; [discriminate|]. intros [Hall _].
      specialize (Hall 0%nat c eq_refl). rewrite Nat.add_0_r in Hall.
      congruence.
    + split; [discriminate|]. intros [Hall _].
      specialize (Hall 0%nat c eq_refl). rewrite Nat.add_0_r in Hall.
      congruence.
Qed.

Lemma check_loop_or i cs results :
  check_loop LOGIC_OR i cs results = true <->
  exists j c, cs !! j = Some c /\ check (i + j) c = Ok true.
Proof.
  revert i results. induction cs as [|c cs IH]; intros i results; simpl.
  - destruct results; (split; [discriminate|]);
      intros (j & c & Hj & _); rewrite lookup_nil in Hj; discriminate.
  - assert (Hrest :
      (exists j c', cs !! j = Some c' /\ check (S i + j) c' = Ok true) ->
      exists j c', (c :: cs) !! j = Some c' /\ check (i + j) c' = Ok true).
    { intros (j & c' & Hj & Hok). exists (S j), c'. split; [exact Hj|].
      rewrite <- Nat.add_succ_comm. exact Hok. }
    assert (Hinv : forall r, check i c = r -> r <> Ok true ->
      (exists j c', (c :: cs) !! j = Some c' /\ check (i + j) c' = Ok true) ->
      exists j c', cs !! j = Some c' /\ check (S i + j) c' = Ok true).
    { intros r Hr Hne ([|j] & c' & Hj & Hok); simpl in Hj.
      - inversion Hj; subst. rewrite Nat.add_0_r in Hok. congruence.
      - exists j, c'. split; [exact Hj|].
        rewrite Nat.add_succ_comm. exact Hok. }
    destruct (check i c) as [[|]|e] eqn:Hc; simpl.
    + split; [|reflexivity]. intros _. exists 0%nat, c.
      rewrite Nat.add_0_r. split; [reflexivity|exact Hc].
    + rewrite IH. split; [exact Hrest|].
      apply (Hinv _ eq_refl). discriminate.
    + rewrite IH. split; [exact Hrest|].
      apply (Hinv _ eq_refl). discriminate.
Qed.

(** C5: for an enabled trigger that is not an AI trigger, with conditions
    [check_conditions] answers true under AND exactly when every condition's
    check returns true, and under OR exactly when some condition's check
    returns true, a check that raises counting as false; without conditions
    it answers true exactly when the trigger has an action. *)
Theorem check_conditions_semantics now t :
  enabled t = true ->
  is_ai_trigger t = false ->
  (conditions t <> [] ->
   (condition_logic t = LOGIC_AND ->
    ((check_conditions now t).1 = true <->
     forall i c, conditions t !! i = Some c -> check i c = Ok true)) /\
   (condition_logic t = LOGIC_OR ->
    ((check_conditions now t).1 = true <->
     exists i c, conditions t !! i = Some c /\ check i c = Ok true))) /\
  (conditions t = [] ->
   ((check_conditions now t).1 = true <-> actions t <> [])).
Proof.
  intros Hen Hai. unfold check_conditions. rewrite Hen, Hai. cbn [negb].
  split.
  - intros Hne. destruct (conditions t) as [|c cs] eqn:Hcs; [congruence|].
    cbn [fst]. split; intros ->.
    + rewrite check_loop_and. split.
      * intros [H _]. exact H.
      * intros H. split; [exact H|discriminate].
    + rewrite check_loop_or. reflexivity.
  - intros ->. simpl. destruct (actions t); split;
      congruence || discriminate || reflexivity.
Qed.

End CheckConditions.

(** The checks of a worked trigger: the first raises, the others return
    true. *)
Definition raises_then_true (i : nat) (c : string) : result bool :=
  match i with
  | O => Raise RuntimeError
  | _ => Ok true
  end.

Definition or_trigger : Trigger string :=
  {| name := "t"; conditions := ["a"; "b"]; condition_logic := LOGIC_OR;
     actions := [{| action_type := "start_job"; target := "j" |}];
     enabled := true; check_interval_seconds := 1 # 2;
     is_ai_trigger := false; last_checked_time := 0;
     last_triggered_time := 0 |}.

(** C5 on [or_trigger], an OR trigger whose first check raises and whose
    second returns true. *)
Lemma check_conditions_semantics_witness :
  (check_conditions string raises_then_true 5 or_trigger).1 = true.
Proof.
  apply (proj2 (proj1 (check_conditions_semantics string raises_then_true 5
                         or_trigger eq_refl eq_refl)
                  ltac:(discriminate)) eq_refl).
  exists 1%nat, "b". split; reflexivity.
Defined.

End trigger.

(** ** core/condition.py *)

Module condition.

Record Condition := {
  id : string;
  name : string;
  type : string;
  params : pydict;
  is_monitored_by_ai_brain : bool;
  _is_valid : bool;
  _validation_error : option string;
}.

Definition NoneCondition_TYPE : string := "none".

(** The keys of [_CONDITION_CLASSES]. *)
Definition _CONDITION_CLASSES : list string :=
  [NoneCondition_TYPE; "color_at_position"; "image_on_screen";
   "text_on_screen"; "window_exists"; "process_exists";
   "text_in_relative_region"; "region_color"; "multi_image_on_screen"].

Definition is_ValueError (e : exn) : bool :=
  match e with
  | ValueError | UnicodeDecodeError | JSONDecodeError => true
  | _ => false
  end.

(** [s.replace('_', ' ')] *)
Fixpoint replace_underscores (s : string) : string :=
  match s with
  | EmptyString => EmptyString
  | String c rest =>
      String (if Ascii.eqb c "_"%char then " "%char else c)
             (replace_underscores rest)
  end.

Definition set_invalid (msg : string) (c : Condition) : Condition :=
  {| id := id c; name := name c; type := type c; params := params c;
     is_monitored_by_ai_brain := is_monitored_by_ai_brain c;
     _is_valid := false; _validation_error := Some msg |}.

Definition set_params (p : pydict) (c : Condition) : Condition :=
  {| id := id c; name := name c; type := type c; params := p;
     is_monitored_by_ai_brain := is_monitored_by_ai_brain c;
     _is_valid := _is_valid c; _validation_error := _validation_error c |}.

Section Builtins.

(** Library behaviour the constructors rely on: [str.strip], [str.title],
    [str()] as f-strings apply it, [int()] on a string ([None] for the
    strings it rejects with [ValueError]), the text [str(e)] of the
    exception [e] that [int(v)] raises, and whether the bridge module was
    imported. *)
Variable str_strip : string -> string.
Variable str_title : string -> string.
Variable py_str : pyval -> string.
Variable int_of_str : string -> option Z.
Variable int_error_text : pyval -> string.
Variable _BridgeImported : bool.

(** [int(v)] *)
Definition py_int (v : pyval) : result Z :=
  match v with
  | PyInt n => Ok n
  | PyBool b => Ok (if b then 1 else 0)
  | PyFloat (FFinite q) => Ok (Z.quot (Qnum q) (Z.pos (Qden q)))
  | PyFloat (FInf _) => Raise OverflowError
  | PyFloat FNaN => Raise ValueError
  | PyStr s =>
      match int_of_str s with
      | Some n => Ok n
      | None => Raise ValueError
      end
  | PyNone => Raise TypeError
  | PyList _ => Raise TypeError
  | PyDict _ => Raise TypeError
  end.

Definition has_region_key (p : pydict) : bool :=
  dict_mem "region_x1" p || dict_mem "region_y1" p
  || dict_mem "region_x2" p || dict_mem "region_y2" p.

(** The [try] block of [_validate_basic_params]. *)
Definition read_region (p : pydict) : result (Z * Z * Z * Z) :=
  x1 <- py_int (dict_get_default "region_x1" (PyInt 0) p) ;;;
  y1 <- py_int (dict_get_default "region_y1" (PyInt 0) p) ;;;
  x2 <- py_int (dict_get_default "region_x2" (PyInt (x1 + 1)) p) ;;;
  y2 <- py_int (dict_get_default "region_y2" (PyInt (y1 + 1)) p) ;;;
  Ok (x1, y1, x2, y2).

(** The value at which the [try] block of [_validate_basic_params] stops
    when one of its [int()] calls raises. *)
Definition failed_coordinate (p : pydict) : pyval :=
  let region_x1 := dict_get_default "region_x1" (PyInt 0) p in
  match py_int region_x1 with
  | Raise _ => region_x1
  | Ok x1 =>
      let region_y1 := dict_get_default "region_y1" (PyInt 0) p in
      match py_int region_y1 with
      | Raise _ => region_y1
      | Ok y1 =>
          let region_x2 := dict_get_default "region_x2" (PyInt (x1 + 1)) p in
          match py_int region_x2 with
          | Raise _ => region_x2
          | Ok _ => dict_get_default "region_y2" (PyInt (y1 + 1)) p
          end
      end
  end.

Definition _validate_basic_params (c : Condition) : result Condition :=
  if has_region_key (params c) then
    match read_region (params c) with
    | Ok (x1, y1, x2, y2) =>
        let c1 :=
          if (x2 <=? x1) || (y2 <=? y1) then
            set_invalid
              ("Invalid region: x2(" +:+ pretty x2 +:+ ") must be > x1("
               +:+ pretty x1 +:+ ") and y2(" +:+ pretty y2
               +:+ ") must be > y1(" +:+ pretty y1 +:+ ").") c
          else c in
        Ok (set_params
              (dict_set "region_y2" (PyInt y2)
                 (dict_set "region_x2" (PyInt x2)
                    (dict_set "region_y1" (PyInt y1)
                       (dict_set "region_x1" (PyInt x1) (params c))))) c1)
    | Raise e =>
        match e with
        | ValueError | TypeError =>
            Ok (set_invalid
                  ("Invalid region coordinate types: "
                   +:+ int_error_text (failed_coordinate (params c))) c)
        | _ => Raise e
        end
    end
  else Ok c.

(** [Condition.__init__]; [uuid] is what [uuid.uuid4().hex] gives when it is
    asked. *)
Definition __init__ (uuid : string) (type_ : string) (params_ : pyval)
    (id_ : pyval) (name_ : pyval) (is_monitored : bool) : result Condition :=
  if String.eqb type_ "" then Raise ValueError
  else
    let the_params := match params_ with PyDict d => d | _ => [] end in
    let the_id :=
      match id_ with
      | PyStr s =>
          if negb (String.eqb s "") && negb (String.eqb (str_strip s) "")
          then s else uuid
      | _ => uuid
      end in
    let final_name :=
      match name_ with
      | PyStr s =>
          if negb (String.eqb s "") && negb (String.eqb (str_strip s) "")
          then s
          else str_title (replace_underscores type_) +:+ "_"
               +:+ String.substring 0 8 the_id
      | _ => str_title (replace_underscores type_) +:+ "_"
             +:+ String.substring 0 8 the_id
      end in
    _validate_basic_params
      {| id := the_id; name := str_strip final_name; type := type_;
         params := the_params; is_monitored_by_ai_brain := is_monitored;
         _is_valid := true; _validation_error := None |}.

(** [NoneCondition.__init__]: [name and name.strip()] calls [strip] on
    whatever truthy value [name] is. *)
Definition NoneCondition (uuid : string) (params_ id_ name_ : pyval)
    (is_monitored : bool) : result Condition :=
  resolved_name <-
    (if truthy name_ then
       match name_ with
       | PyStr s =>
           Ok (if String.eqb (str_strip s) "" then PyStr "Always True"
               else name_)
       | _ => Raise AttributeError
       end
     else Ok (PyStr "Always True")) ;;;
  __init__ uuid NoneCondition_TYPE params_ id_ resolved_name false.

(** What a subclass constructor does to a valid object after
    [super().__init__]: the [params] as it leaves them, and either its
    verdict (a validation error, or none) or the exception it raises. *)
Variable specific_init :
  string -> Condition -> pydict * result (option string).

(** The constructor of the class registered for [ty]; with it, the state of
    the [params] dictionary, which the caller shares with the object. *)
Definition construct (ty : string) (uuid : string) (params_ : pydict)
    (id_ name_ : pyval) (is_monitored : bool) : pydict * result Condition :=
  if String.eqb ty NoneCondition_TYPE then
    match NoneCondition uuid (PyDict params_) id_ name_ is_monitored with
    | Ok c => (params c, Ok c)
    | Raise e => (params_, Raise e)
    end
  else
    match __init__ uuid ty (PyDict params_) id_ name_ is_monitored with
    | Raise e => (params_, Raise e)
    | Ok c =>
        if negb (_is_valid c) then (params c, Ok c)
        else
          match specific_init ty c with
          | (p, Ok None) => (p, Ok (set_params p c))
          | (p, Ok (Some msg)) => (p, Ok (set_invalid msg (set_params p c)))
          | (p, Raise e) => (p, Raise e)
          end
    end.

Definition name_or (default : string) (condition_name : pyval) : string :=
  if truthy condition_name then py_str condition_name else default.

Definition create_condition (uuid : string) (data : pyval)
    : result Condition :=
  match data with
  | PyDict d =>
      let condition_type := dict_get_default "type" PyNone d in
      let params_ := dict_get_default "params" (PyDict []) d in
      let condition_id := dict_get_default "id" PyNone d in
      let condition_name := dict_get_default "name" PyNone d in
      let is_monitored :=
        truthy (dict_get_default "is_monitored_by_ai_brain" (PyBool false) d) in
      match condition_type with
      | PyStr ty =>
          if String.eqb ty "" then
            NoneCondition uuid params_ condition_id condition_name is_monitored
          else
            let the_params :=
              match params_ with PyDict p => p | _ => [] end in
            if existsb (String.eqb ty) _CONDITION_CLASSES then
              match construct ty uuid the_params condition_id condition_name
                              is_monitored with
              | (_, Ok c) => Ok c
              | (p, Raise e) =>
                  NoneCondition uuid (PyDict p) condition_id
                    (PyStr (name_or "Errored" condition_name
                            +:+ (if is_ValueError e then "_INVALID"
                                 else "_UNEXPECTED_ERROR")))
                    is_monitored
              end
            else
              NoneCondition uuid (PyDict the_params) condition_id
                (PyStr (name_or "UnknownType" condition_name +:+ "_" +:+ ty))
                is_monitored
      | _ =>
          NoneCondition uuid params_ condition_id condition_name is_monitored
      end
  | _ => NoneCondition uuid (PyDict []) PyNone PyNone false
  end.

(** [Condition.check], the guard every subclass's [check] starts with. *)
Definition base_check (c : Condition) : bool :=
  if negb (_is_valid c) then false
  else if negb _BridgeImported && negb (String.eqb (type c) NoneCondition_TYPE)
  then false
  else true.

(** A subclass's [check]: [if not super().check( **context): return False],
    then what the subclass does ([specific_check]; for [NoneCondition],
    [return True]). *)
Definition check (specific_check : Condition -> bool) (c : Condition)
    : bool :=
  if negb (base_check c) then false
  else if String.eqb (type c) NoneCondition_TYPE then true
  else specific_check c.

Definition to_dict (c : Condition) : pydict :=
  [("id", PyStr (id c)); ("name", PyStr (name c)); ("type", PyStr (type c));
   ("params", PyDict (params c));
   ("is_monitored_by_ai_brain", PyBool (is_monitored_by_ai_brain c))].

(** The region of [d] is one [_validate_basic_params] rejects: after [int()]
    and the defaults, [x2 <= x1] or [y2 <= y1]; or a coordinate on which
    [int()] raises [ValueError] or [TypeError]. *)
Definition region_rejected (d : pydict) : Prop :=
  match read_region d with
  | Ok (x1, y1, x2, y2) => x2 <= x1 \/ y2 <= y1
  | Raise e => e = ValueError \/ e = TypeError
  end.

Lemma check_invalid specific_check c :
  _is_valid c = false -> check specific_check c = false.
Proof. intros H. unfold check, base_check. rewrite H. reflexivity. Qed.

Lemma validate_rejected c :
  has_region_key (params c) = true ->
  region_rejected (params c) ->
  exists c',
    _validate_basic_params c = Ok c' /\ _is_valid c' = false /\
    is_Some (_validation_error c') /\ type c' = type c.
Proof.
  unfold _validate_basic_params, region_rejected. intros -> Hrej.
  destruct (read_region (params c)) as [[[[x1 y1] x2] y2]|e].
  - assert (Hb : (x2 <=? x1) || (y2 <=? y1) = true).
    { apply orb_true_iff. destruct Hrej; [left|right]; apply Z.leb_le; lia. }
    rewrite Hb. eexists. split; [reflexivity|]. simpl. eauto.
  - destruct Hrej as [-> | ->]; eexists; (split; [reflexivity|]); simpl; eauto.
Qed.

(** C8, as the code has it: a region that [_validate_basic_params] rejects
    leaves the constructor returning an object with [_is_valid] false and a
    validation error set; every subclass constructor returns that object
    untouched, and every [check] on it returns false. *)
Theorem rejected_region_sets_invalid_flag
    uuid ty d id_ name_ is_monitored :
  ty <> "" ->
  has_region_key d = true ->
  region_rejected d ->
  exists c,
    __init__ uuid ty (PyDict d) id_ name_ is_monitored = Ok c /\
    _is_valid c = false /\
    is_Some (_validation_error c) /\
    (ty <> NoneCondition_TYPE ->
     construct ty uuid d id_ name_ is_monitored = (params c, Ok c)) /\
    (forall specific_check, check specific_check c = false).
Proof.
  intros Hty Hkey Hrej. unfold construct, __init__.
  apply String.eqb_neq in Hty. rewrite Hty.
  match goal with
  | |- context [_validate_basic_params ?c0] =>
      destruct (validate_rejected c0 Hkey Hrej) as (c & Hv & Hinv & Hmsg & _);
      rewrite Hv
  end.
  exists c. repeat split; try assumption.
  - intros Hnone. apply String.eqb_neq in Hnone. rewrite Hnone, Hinv.
    reflexivity.
  - intros sc. apply check_invalid. exact Hinv.
Qed.

(** C10 fails on the code: a dictionary without a type whose name is the
    integer 5 reaches [NoneCondition] outside any [try], and [name.strip()]
    raises. *)
Theorem create_condition_raises_on_non_string_name uuid :
  create_condition uuid (PyDict [("name", PyInt 5)]) = Raise AttributeError.
Proof. reflexivity. Qed.

(** The same sibling input inside the [try] of a registered type is caught
    and answered with the fallback. *)
Lemma NoneCondition_string_name uuid p id_ s is_monitored :
  has_region_key p = false ->
  exists c,
    NoneCondition uuid (PyDict p) id_ (PyStr s) is_monitored = Ok c /\
    type c = NoneCondition_TYPE.
Proof.
  intros Hkey. unfold NoneCondition.
  destruct (truthy (PyStr s)); [destruct (String.eqb (str_strip s) "")|];
    simpl; unfold __init__, _validate_basic_params; simpl; rewrite Hkey;
    eexists; split; reflexivity.
Qed.

Lemma create_condition_catches_registered uuid :
  exists c,
    create_condition uuid
      (PyDict [("type", PyStr "none"); ("name", PyInt 5)]) = Ok c /\
    type c = NoneCondition_TYPE.
Proof. apply NoneCondition_string_name. reflexivity. Qed.

(** A float infinity as a region coordinate leaves [int()] with an
    [OverflowError], which neither [_validate_basic_params] nor the
    unknown-type branch of [create_condition] catches. *)
Lemma create_condition_raises_on_infinite_coordinate uuid :
  create_condition uuid
    (PyDict [("type", PyStr "no_such_type");
             ("params", PyDict [("region_x1", PyFloat (FInf false))])])
  = Raise OverflowError.
Proof. reflexivity. Qed.

(** *** Dictionaries *)

Lemma dict_get_set_same k v d : dict_get k (dict_set k v d) = Some v.
Proof.
  induction d as [|[k0 v0] d IH]; simpl.
  - rewrite String.eqb_refl. reflexivity.
  - destruct (String.eqb_spec k0 k) as [->|Hne]; simpl.
    + rewrite String.eqb_refl. reflexivity.
    + apply String.eqb_neq in Hne. rewrite Hne. exact IH.
Qed.

Lemma dict_get_set_other k k' v d :
  k <> k' -> dict_get k' (dict_set k v d) = dict_get k' d.
Proof.
  intros Hkk. induction d as [|[k0 v0] d IH]; simpl.
  - apply String.eqb_neq in Hkk. rewrite Hkk. reflexivity.
  - destruct (String.eqb_spec k0 k) as [->|Hne]; simpl.
    + apply String.eqb_neq in Hkk. rewrite Hkk. reflexivity.
    + rewrite IH. reflexivity.
Qed.

Lemma dict_set_get_same k v d : dict_get k d = Some v -> dict_set k v d = d.
Proof.
  induction d as [|[k0 v0] d IH]; simpl; [discriminate|].
  destruct (String.eqb_spec k0 k) as [->|Hne].
  - intros [= ->]. reflexivity.
  - intros Hget. rewrite (IH Hget). reflexivity.
Qed.

Lemma dict_mem_set k k' v d :
  dict_mem k' (dict_set k v d) = String.eqb k k' || dict_mem k' d.
Proof.
  unfold dict_mem. destruct (String.eqb_spec k k') as [->|Hne].
  - rewrite dict_get_set_same. reflexivity.
  - rewrite (dict_get_set_other _ _ _ _ Hne). reflexivity.
Qed.

(** *** The region a constructed condition holds *)

Definition region_keys : list string :=
  ["region_x1"; "region_y1"; "region_x2"; "region_y2"].

(** The [params] after the four assignments of [_validate_basic_params]. *)
Definition with_region (x1 y1 x2 y2 : Z) (p : pydict) : pydict :=
  dict_set "region_y2" (PyInt y2)
    (dict_set "region_x2" (PyInt x2)
       (dict_set "region_y1" (PyInt y1)
          (dict_set "region_x1" (PyInt x1) p))).

Lemma with_region_get x1 y1 x2 y2 p :
  dict_get "region_x1" (with_region x1 y1 x2 y2 p) = Some (PyInt x1) /\
  dict_get "region_y1" (with_region x1 y1 x2 y2 p) = Some (PyInt y1) /\
  dict_get "region_x2" (with_region x1 y1 x2 y2 p) = Some (PyInt x2) /\
  dict_get "region_y2" (with_region x1 y1 x2 y2 p) = Some (PyInt y2).
Proof.
  unfold with_region. repeat split;
    repeat first [ apply dict_get_set_same
                 | rewrite dict_get_set_other by discriminate ].
Qed.

Lemma with_region_other x1 y1 x2 y2 p k :
  ~ In k region_keys ->
  dict_get k (with_region x1 y1 x2 y2 p) = dict_get k p.
Proof.
  intros Hk. unfold with_region.
  rewrite !dict_get_set_other; [reflexivity|..];
    intros <-; apply Hk; simpl; auto.
Qed.

Lemma with_region_has_key x1 y1 x2 y2 p :
  has_region_key (with_region x1 y1 x2 y2 p) = true.
Proof.
  unfold has_region_key, dict_mem.
  destruct (with_region_get x1 y1 x2 y2 p) as (-> & _). reflexivity.
Qed.

Lemma with_region_read x1 y1 x2 y2 p :
  read_region (with_region x1 y1 x2 y2 p) = Ok (x1, y1, x2, y2).
Proof.
  unfold read_region, dict_get_default.
  destruct (with_region_get x1 y1 x2 y2 p) as (-> & -> & -> & ->).
  reflexivity.
Qed.

Lemma with_region_again x1 y1 x2 y2 p :
  with_region x1 y1 x2 y2 (with_region x1 y1 x2 y2 p)
  = with_region x1 y1 x2 y2 p.
Proof.
  destruct (with_region_get x1 y1 x2 y2 p) as (H1 & H2 & H3 & H4).
  unfold with_region at 1.
  rewrite (dict_set_get_same _ _ _ H1), (dict_set_get_same _ _ _ H2),
    (dict_set_get_same _ _ _ H3), (dict_set_get_same _ _ _ H4).
  reflexivity.
Qed.

(** [_validate_basic_params] touches [params], [_is_valid] and
    [_validation_error] only. *)
Lemma validate_keeps_identity c c' :
  _validate_basic_params c = Ok c' ->
  id c' = id c /\ name c' = name c /\ type c' = type c /\
  is_monitored_by_ai_brain c' = is_monitored_by_ai_brain c.
Proof.
  unfold _validate_basic_params.
  destruct (has_region_key (params c)).
  - destruct (read_region (params c)) as [[[[x1 y1] x2] y2]|e].
    + destruct ((x2 <=? x1) || (y2 <=? y1)); intros [= <-]; simpl; auto.
    + destruct e; intros [= <-]; simpl; auto.
  - intros [= <-]. auto.
Qed.

(** What [_validate_basic_params] leaves in [params]. *)
Lemma validate_region c c' :
  _validate_basic_params c = Ok c' ->
  _is_valid c = true ->
  (has_region_key (params c) = false /\ c' = c) \/
  (has_region_key (params c) = true /\ _is_valid c' = false /\
   is_Some (_validation_error c') /\
   forall k, ~ In k region_keys ->
             dict_get k (params c') = dict_get k (params c)) \/
  (exists x1 y1 x2 y2,
     has_region_key (params c) = true /\
     read_region (params c) = Ok (x1, y1, x2, y2) /\
     x1 < x2 /\ y1 < y2 /\
     c' = set_params (with_region x1 y1 x2 y2 (params c)) c).
Proof.
  unfold _validate_basic_params. intros Hv Hvalid.
  destruct (has_region_key (params c)) eqn:Hkey.
  - destruct (read_region (params c)) as [[[[x1 y1] x2] y2]|e] eqn:Hread.
    + destruct ((x2 <=? x1) || (y2 <=? y1)) eqn:Hbad.
      * right; left. injection Hv as <-. simpl.
        repeat split; eauto. intros k Hk. apply with_region_other, Hk.
      * right; right. exists x1, y1, x2, y2.
        apply orb_false_iff in Hbad as [Hx Hy].
        apply Z.leb_gt in Hx, Hy. injection Hv as <-.
        repeat split; assumption || reflexivity.
    + right; left.
      destruct e; try discriminate Hv; injection Hv as <-; simpl;
        repeat split; eauto.
  - left. injection Hv as <-. split; reflexivity.
Qed.

(** X6: a condition that comes out of [Condition.__init__] valid and with a
    region holds four integer coordinates with [x1 < x2] and [y1 < y2];
    without a region key its parameters are the dictionary it was given;
    and the constructor never touches a key that is not a region key. *)
Theorem constructed_region_is_normalised
    uuid ty d id_ name_ is_monitored c :
  __init__ uuid ty (PyDict d) id_ name_ is_monitored = Ok c ->
  (has_region_key d = false -> params c = d /\ _is_valid c = true) /\
  (has_region_key d = true -> _is_valid c = true ->
   exists x1 y1 x2 y2,
     dict_get "region_x1" (params c) = Some (PyInt x1) /\
     dict_get "region_y1" (params c) = Some (PyInt y1) /\
     dict_get "region_x2" (params c) = Some (PyInt x2) /\
     dict_get "region_y2" (params c) = Some (PyInt y2) /\
     x1 < x2 /\ y1 < y2) /\
  (forall k, ~ In k region_keys -> dict_get k (params c) = dict_get k d).
Proof.
  unfold __init__. destruct (String.eqb ty ""); [discriminate|].
  intros Hv. apply validate_region in Hv; [|reflexivity]. simpl in Hv.
  destruct Hv as [[Hkey ->]|[(Hkey & Hinv & _ & Hother)
                            |(x1 & y1 & x2 & y2 & Hkey & _ & Hx & Hy & ->)]];
    simpl; rewrite Hkey; repeat split; try discriminate; try reflexivity.
  - congruence.
  - exact Hother.
  - intros _ _. exists x1, y1, x2, y2.
    destruct (with_region_get x1 y1 x2 y2 d) as (H1 & H2 & H3 & H4).
    repeat split; assumption.
  - intros k Hk. apply with_region_other, Hk.
Qed.

(** *** The type and the id of what [create_condition] returns *)

(** The id [Condition.__init__] settles on. *)
Definition chosen_id (uuid : string) (id_ : pyval) : string :=
  match id_ with
  | PyStr s =>
      if negb (String.eqb s "") && negb (String.eqb (str_strip s) "")
      then s else uuid
  | _ => uuid
  end.

Lemma init_fields uuid ty p id_ name_ is_monitored c :
  __init__ uuid ty p id_ name_ is_monitored = Ok c ->
  type c = ty /\ id c = chosen_id uuid id_ /\
  is_monitored_by_ai_brain c = is_monitored.
Proof.
  unfold __init__. destruct (String.eqb ty ""); [discriminate|].
  intros Hv. apply validate_keeps_identity in Hv as (Hid & _ & Hty & Hmon).
  simpl in *. repeat split; assumption.
Qed.

Lemma NoneCondition_fields uuid p id_ name_ is_monitored c :
  NoneCondition uuid p id_ name_ is_monitored = Ok c ->
  type c = NoneCondition_TYPE /\ id c = chosen_id uuid id_ /\
  is_monitored_by_ai_brain c = false.
Proof.
  unfold NoneCondition.
  destruct (if truthy name_ then _ else _) as [resolved|e];
    [|discriminate].
  simpl. apply init_fields.
Qed.

Lemma construct_fields ty uuid p id_ name_ is_monitored p' c :
  construct ty uuid p id_ name_ is_monitored = (p', Ok c) ->
  type c = ty /\ id c = chosen_id uuid id_.
Proof.
  unfold construct. destruct (String.eqb_spec ty NoneCondition_TYPE) as [->|_].
  - destruct (NoneCondition _ _ _ _ _) as [c0|e] eqn:Hn; intros [= _ <-].
    apply NoneCondition_fields in Hn as (Hty & Hid & _). split; assumption.
  - destruct (__init__ _ _ _ _ _ _) as [c0|e] eqn:Hi; [|discriminate].
    apply init_fields in Hi as (Hty & Hid & _).
    destruct (negb (_is_valid c0)); [intros [= _ <-]; split; assumption|].
    destruct (specific_init ty c0) as [p0 [[msg|]|e]]; intros [= _ <-];
      simpl; split; assumption.
Qed.

(** X7: whatever [create_condition] returns has one of the nine registered
    types; when the type is not ["none"] it is the type the data asked
    for; and its id is the id of the data when that is a string with
    something other than whitespace in it, and a fresh one otherwise. *)
Theorem create_condition_type_and_id uuid data c :
  create_condition uuid data = Ok c ->
  In (type c) _CONDITION_CLASSES /\
  (type c <> NoneCondition_TYPE ->
   exists d, data = PyDict d /\ dict_get "type" d = Some (PyStr (type c))) /\
  (forall d s,
     data = PyDict d -> dict_get "id" d = Some (PyStr s) ->
     s <> "" -> str_strip s <> "" -> id c = s) /\
  ((forall d s, data = PyDict d -> dict_get "id" d = Some (PyStr s) ->
                s = "" \/ str_strip s = "") ->
   id c = uuid).
Proof.
  intros Hc.
  assert (Hnone : forall p id_ name_ m,
            NoneCondition uuid p id_ name_ m = Ok c ->
            In (type c) _CONDITION_CLASSES /\
            (type c <> NoneCondition_TYPE ->
             exists d, data = PyDict d /\
                       dict_get "type" d = Some (PyStr (type c))) /\
            id c = chosen_id uuid id_).
  { intros p id_ name_ m Hn.
    apply NoneCondition_fields in Hn as (Hty & Hid & _).
    rewrite Hty. split; [left; reflexivity|]. split; [congruence|exact Hid]. }
  assert (Hmain :
    In (type c) _CONDITION_CLASSES /\
    (type c <> NoneCondition_TYPE ->
     exists d, data = PyDict d /\ dict_get "type" d = Some (PyStr (type c))) /\
    id c = chosen_id uuid
             (match data with
              | PyDict d => dict_get_default "id" PyNone d
              | _ => PyNone
              end)).
  { unfold create_condition in Hc.
    destruct data as [| | | | | |d]; try exact (Hnone _ _ _ _ Hc).
    unfold dict_get_default in Hc at 1.
    destruct (dict_get "type" d) as [[| | | |ty| |]|] eqn:Hty;
      try exact (Hnone _ _ _ _ Hc).
    destruct (String.eqb ty ""); [exact (Hnone _ _ _ _ Hc)|].
    destruct (existsb (String.eqb ty) _CONDITION_CLASSES) eqn:Hreg;
      [|exact (Hnone _ _ _ _ Hc)].
    destruct (construct ty uuid _ _ _ _) as [p' [c0|e]] eqn:Hcons;
      [|exact (Hnone _ _ _ _ Hc)].
    injection Hc as ->.
    apply construct_fields in Hcons as (Htyc & Hid).
    rewrite Htyc. repeat split.
    - apply existsb_exists in Hreg as (x & Hx & Heq).
      apply String.eqb_eq in Heq. subst x. exact Hx.
    - intros _. exists d. split; [reflexivity|exact Hty].
    - exact Hid. }
  destruct Hmain as (Hin & Hty & Hid). repeat split; try assumption.
  - intros d s -> Hget Hs Hstrip. rewrite Hid.
    unfold dict_get_default. rewrite Hget. simpl.
    apply String.eqb_neq in Hs, Hstrip. rewrite Hs, Hstrip. reflexivity.
  - intros Hblank. rewrite Hid.
    destruct data as [| | | | | |d0]; try reflexivity.
    unfold dict_get_default.
    destruct (dict_get "id" d0) as [[| | | |s| |]|] eqn:Hget;
      try reflexivity.
    simpl. destruct (Hblank d0 s eq_refl Hget) as [-> | Hb].
    + reflexivity.
    + rewrite Hb. simpl. rewrite andb_false_r. reflexivity.
Qed.

(** *** Reading an always-true condition back from its [to_dict] *)

Lemma set_params_same c : set_params (params c) c = c.
Proof. destruct c; reflexivity. Qed.

Lemma validate_again c0 c :
  _validate_basic_params c0 = Ok c ->
  _validate_basic_params (set_params (params c) c0) = Ok c.
Proof.
  unfold _validate_basic_params at 1.
  destruct (has_region_key (params c0)) eqn:Hkey.
  - destruct (read_region (params c0)) as [[[[x1 y1] x2] y2]|e] eqn:Hread.
    + fold (with_region x1 y1 x2 y2 (params c0)). intros [= <-].
      unfold _validate_basic_params. cbn [params set_params].
      rewrite with_region_has_key, with_region_read. cbv beta iota.
      fold (with_region x1 y1 x2 y2 (with_region x1 y1 x2 y2 (params c0))).
      rewrite with_region_again.
      destruct ((x2 <=? x1) || (y2 <=? y1)); destruct c0; reflexivity.
    + destruct e; try discriminate; intros [= <-]; simpl;
        rewrite set_params_same; unfold _validate_basic_params;
        rewrite Hkey, Hread; reflexivity.
  - intros [= <-]. rewrite set_params_same.
    unfold _validate_basic_params. rewrite Hkey. reflexivity.
Qed.

(** [Condition.__init__] on the fields of an object it built gives that
    object again. *)
Lemma init_again uuid uuid' ty p id_ name_ is_monitored c :
  (forall s, str_strip (str_strip s) = str_strip s) ->
  __init__ uuid ty p id_ name_ is_monitored = Ok c ->
  name c <> "" -> id c <> "" -> str_strip (id c) <> "" ->
  __init__ uuid' ty (PyDict (params c)) (PyStr (id c)) (PyStr (name c))
           is_monitored = Ok c.
Proof.
  intros Hidem Hinit Hname Hid Hids.
  unfold __init__ in Hinit |- *.
  destruct (String.eqb ty "") eqn:Hty0; [discriminate|].
  apply String.eqb_neq in Hname, Hid, Hids.
  pose proof (validate_keeps_identity _ _ Hinit) as (Hid0 & Hname0 & _ & _).
  cbn [id name] in Hid0, Hname0.
  assert (Hstripped : str_strip (name c) = name c).
  { rewrite Hname0. apply Hidem. }
  cbv beta iota. rewrite Hid, Hids, Hname, Hstripped, Hname.
  cbn [negb andb]. rewrite Hstripped.
  apply validate_again in Hinit. unfold set_params in Hinit.
  cbn [id name type params is_monitored_by_ai_brain _is_valid
       _validation_error] in Hinit.
  rewrite <- Hname0, <- Hid0 in Hinit. exact Hinit.
Qed.

(** X8: an always-true condition with a name and an id is read back by
    [create_condition] from its own [to_dict] as it was, given that
    stripping a stripped string changes nothing. *)
Theorem always_true_round_trip uuid uuid' p id_ name_ is_monitored c :
  (forall s, str_strip (str_strip s) = str_strip s) ->
  NoneCondition uuid p id_ name_ is_monitored = Ok c ->
  name c <> "" -> id c <> "" -> str_strip (id c) <> "" ->
  create_condition uuid' (PyDict (to_dict c)) = Ok c.
Proof.
  intros Hidem Hn Hname Hid Hids.
  pose proof (NoneCondition_fields _ _ _ _ _ _ Hn) as (Hty & _ & Hmon).
  unfold NoneCondition in Hn.
  destruct (if truthy name_ then _ else _) as [resolved|e]; [|discriminate].
  cbn [bind] in Hn.
  pose proof (init_again _ uuid' _ _ _ _ _ _ Hidem Hn Hname Hid Hids)
    as Hagain.
  assert (Hstripped : str_strip (name c) = name c).
  { unfold __init__ in Hn.
    destruct (String.eqb NoneCondition_TYPE ""); [discriminate|].
    apply validate_keeps_identity in Hn as (_ & -> & _). apply Hidem. }
  apply String.eqb_neq in Hname.
  unfold create_condition, to_dict, dict_get_default.
  cbn [dict_get String.eqb Ascii.eqb Bool.eqb].
  rewrite Hty, Hmon.
  change (String.eqb NoneCondition_TYPE "") with false.
  change (existsb (String.eqb NoneCondition_TYPE) _CONDITION_CLASSES)
    with true.
  cbv iota. unfold construct. rewrite String.eqb_refl.
  unfold NoneCondition. cbn [truthy]. rewrite Hname. cbn [negb].
  rewrite Hstripped, Hname. cbn [bind]. rewrite Hagain. reflexivity.
Qed.

End Builtins.

(** *** Worked constructions *)

(** Builtins for the worked constructions, whose strings carry no
    surrounding whitespace and no digits to parse. *)
Definition plain_strip (s : string) : string := s.
Definition plain_title (s : string) : string := s.
Definition plain_str (v : pyval) : string :=
  match v with
  | PyStr s => s
  | PyInt n => pretty n
  | _ => "?"
  end.
Definition no_int_of_str (s : string) : option Z := None.
Definition plain_int_error (v : pyval) : string :=
  "cannot be read as an integer".

Definition inverted_region : pydict :=
  [("region_x1", PyInt 10); ("region_y1", PyInt 0);
   ("region_x2", PyInt 5); ("region_y2", PyInt 8)].

Definition fractional_region : pydict :=
  [("region_x1", PyFloat (FFinite (1 # 2))); ("region_y1", PyInt 0);
   ("region_x2", PyInt 10); ("region_y2", PyInt 10)].

(** C8 on a region whose [x2] lies left of [x1]. *)
Lemma rejected_region_sets_invalid_flag_witness :
  exists c,
    __init__ plain_strip plain_title no_int_of_str
      plain_int_error "u0" "window_exists"
      (PyDict inverted_region) PyNone PyNone false = Ok c /\
    _is_valid c = false /\
    is_Some (_validation_error c) /\
    forall specific_check, check true specific_check c = false.
Proof.
  destruct (rejected_region_sets_invalid_flag
              plain_strip plain_title no_int_of_str plain_int_error true
              (fun _ c => (params c, Ok None))
              "u0" "window_exists" inverted_region PyNone PyNone false
              ltac:(discriminate) eq_refl
              ltac:(vm_compute; left; discriminate))
    as (c & Hc & Hv & Hm & _ & Hcheck).
  exists c. repeat split; assumption.
Defined.

(** C8 as stated fails: a region coordinate that is not an integer, the
    float 0.5, is truncated by [int()]; the object stays valid, carries no
    validation error, and its [check] goes on to the subclass's test. *)
Lemma fractional_coordinate_is_accepted :
  exists c,
    __init__ plain_strip plain_title no_int_of_str
      plain_int_error "u0" "window_exists"
      (PyDict fractional_region) PyNone PyNone false = Ok c /\
    dict_get "region_x1" (params c) = Some (PyInt 0) /\
    _is_valid c = true /\
    _validation_error c = None /\
    check true (fun _ => true) c = true.
Proof. eexists. repeat split; reflexivity. Qed.

(** The region of [fractional_region] as the constructor leaves it. *)
Lemma constructed_region_is_normalised_witness :
  exists c,
    __init__ plain_strip plain_title no_int_of_str
      plain_int_error "u0" "window_exists"
      (PyDict fractional_region) PyNone PyNone false = Ok c /\
    exists x1 y1 x2 y2,
      dict_get "region_x1" (params c) = Some (PyInt x1) /\
      dict_get "region_y1" (params c) = Some (PyInt y1) /\
      dict_get "region_x2" (params c) = Some (PyInt x2) /\
      dict_get "region_y2" (params c) = Some (PyInt y2) /\
      x1 < x2 /\ y1 < y2.
Proof.
  eexists. split; [reflexivity|].
  exact (proj1 (proj2 (constructed_region_is_normalised
                         plain_strip plain_title no_int_of_str plain_int_error
                         "u0" "window_exists" fractional_region
                         PyNone PyNone false _ eq_refl))
           eq_refl eq_refl).
Defined.

(** A subclass constructor that accepts what it is given. *)
Definition accepting_init (ty : string) (c : Condition)
    : pydict * result (option string) :=
  (params c, Ok None).

Definition window_data : pyval :=
  PyDict [("type", PyStr "window_exists"); ("id", PyStr "w1");
          ("name", PyStr "Notepad")].

(** [create_condition] on [window_data] keeps the type and the id. *)
Lemma create_condition_type_and_id_witness :
  exists c,
    create_condition plain_strip plain_title plain_str no_int_of_str
      plain_int_error
      accepting_init "u0" window_data = Ok c /\
    In (type c) _CONDITION_CLASSES /\ id c = "w1".
Proof.
  eexists. split; [reflexivity|].
  pose proof (create_condition_type_and_id
                plain_strip plain_title plain_str no_int_of_str plain_int_error
                accepting_init "u0" window_data _ eq_refl)
    as (Hin & _ & Hid & _).
  split; [exact Hin|].
  exact (Hid _ "w1" eq_refl eq_refl ltac:(discriminate) ltac:(discriminate)).
Defined.

Definition always_true_built : Condition :=
  {| id := "n1"; name := "Always True"; type := NoneCondition_TYPE;
     params := []; is_monitored_by_ai_brain := false;
     _is_valid := true; _validation_error := None |}.

(** The always-true condition with id [n1], read back. *)
Lemma always_true_round_trip_witness :
  create_condition plain_strip plain_title plain_str no_int_of_str
    plain_int_error
    accepting_init "u1" (PyDict (to_dict always_true_built))
  = Ok always_true_built.
Proof.
  exact (always_true_round_trip
           plain_strip plain_title plain_str no_int_of_str
             plain_int_error accepting_init
           "u0" "u1" (PyDict []) (PyStr "n1") PyNone false always_true_built
           (fun s => eq_refl) eq_refl
           ltac:(discriminate) ltac:(discriminate) ltac:(discriminate)).
Defined.

(** *** RegionColorCondition *)

Section RegionColor.

(** Percentages and thresholds are Python floats: [number] with its zero,
    its addition and its comparisons [<=] and [<].  The one fact used of
    them is that [a < b] is the negation of [b <= a], which holds of floats
    that are not NaN; the constructor clamps every threshold into
    [0.0, 100.0]. *)
Variable number : Type.
Variable zero : number.
Variable add : number -> number -> number.
Variable leb : number -> number -> bool.
Variable ltb : number -> number -> bool.
Hypothesis ltb_not_leb : forall a b, ltb a b = negb (leb b a).

(** An entry of [target_colors_list]; the constructor gives each one its
    ["threshold"]. *)
Record color_def := {
  hex : string;
  rgb : Z * Z * Z;
  tolerance : Z;
  label : string;
  threshold : number;
}.

Record RegionColorCondition := {
  base : Condition;
  target_colors_list : list color_def;
  match_percentage_threshold : number;
  sampling_step : Z;
  condition_logic : string;
}.

(** What the capture and the analysis of the region gave one [check]: the
    capture raised or brought no image, the image has neither 3 nor 4
    channels, the conversion or [analyze_region_colors] failed, or the
    percentages by hex key. *)
Inductive region_analysis :=
| CaptureFailed
| UnexpectedChannels
| AnalysisFailed
| Analysed (color_percentages : list (string * number)).

(** [color_percentages.get(hex_key, 0.0)] *)
Fixpoint percentage_of (color_percentages : list (string * number))
    (hex_key : string) : number :=
  match color_percentages with
  | [] => zero
  | (k, v) :: rest =>
      if String.eqb k hex_key then v else percentage_of rest hex_key
  end.

(** The loop of the ANY branch: true at the first target whose percentage
    is [>=] its threshold. *)
Fixpoint any_target_met (color_percentages : list (string * number))
    (targets : list color_def) : bool :=
  match targets with
  | [] => false
  | cd :: rest =>
      if leb (threshold cd) (percentage_of color_percentages (hex cd))
      then true
      else any_target_met color_percentages rest
  end.

(** The loop of the ALL branch: false at the first target whose percentage
    is [<] its threshold. *)
Fixpoint all_targets_met (color_percentages : list (string * number))
    (targets : list color_def) : bool :=
  match targets with
  | [] => true
  | cd :: rest =>
      if ltb (percentage_of color_percentages (hex cd)) (threshold cd)
      then false
      else all_targets_met color_percentages rest
  end.

(** [sum(color_percentages.get(cd["hex"], 0.0) for cd in targets)] *)
Definition total_percentage (color_percentages : list (string * number))
    (targets : list color_def) : number :=
  fold_left add
    ((fun cd => percentage_of color_percentages (hex cd)) <$> targets) zero.

Definition RegionColorCondition_check
    (_BridgeImported _UtilsImported _CV2Available : bool)
    (world : region_analysis) (c : RegionColorCondition) : bool :=
  if negb (base_check _BridgeImported (base c)) then false
  else if negb _UtilsImported || negb _CV2Available then false
  else
    match world with
    | Analysed color_percentages =>
        if String.eqb (condition_logic c) "ANY_TARGET_MET_THRESHOLD" then
          match target_colors_list c with
          | [] => false
          | targets => any_target_met color_percentages targets
          end
        else if String.eqb (condition_logic c) "ALL_TARGETS_MET_THRESHOLD"
        then
          match target_colors_list c with
          | [] => true
          | targets => all_targets_met color_percentages targets
          end
        else if String.eqb (condition_logic c)
                           "TOTAL_PERCENTAGE_ABOVE_THRESHOLD"
        then
          match target_colors_list c with
          | [] => leb (match_percentage_threshold c) zero
          | targets =>
              leb (match_percentage_threshold c)
                  (total_percentage color_percentages targets)
          end
        else false
    | _ => false
    end.

(** The sum of the targets' percentages, as it is built up one target at a
    time: nothing for no target, and the sum so far plus the next target's
    percentage.  It is stated apart from [total_percentage], which
    [sum_of_percentages_total] shows computes it. *)
Inductive sum_of_percentages (color_percentages : list (string * number))
    : list color_def -> number -> Prop :=
| sum_no_target : sum_of_percentages color_percentages [] zero
| sum_next_target targets cd total :
    sum_of_percentages color_percentages targets total ->
    sum_of_percentages color_percentages (targets ++ [cd])
      (add total (percentage_of color_percentages (hex cd))).

Lemma any_target_met_spec pcts targets :
  any_target_met pcts targets = true <->
  exists cd, cd ∈ targets /\
             leb (threshold cd) (percentage_of pcts (hex cd)) = true.
Proof.
  induction targets as [|cd rest IH]; simpl.
  - split; [discriminate|]. intros (cd & Hin & _). inversion Hin.
  - destruct (leb (threshold cd) (percentage_of pcts (hex cd))) eqn:Hm.
    + split; [|reflexivity]. intros _. exists cd. split; [left|exact Hm].
    + rewrite IH. split.
      * intros (cd' & Hin & Hok). exists cd'. split; [right|]; assumption.
      * intros (cd' & Hin & Hok). inversion Hin; subst; [congruence|].
        exists cd'. split; assumption.
Qed.

Lemma all_targets_met_spec pcts targets :
  all_targets_met pcts targets = true <->
  forall cd, cd ∈ targets ->
             leb (threshold cd) (percentage_of pcts (hex cd)) = true.
Proof.
  induction targets as [|cd rest IH]; simpl.
  - split; [|reflexivity]. intros _ cd Hin. inversion Hin.
  - rewrite ltb_not_leb.
    destruct (leb (threshold cd) (percentage_of pcts (hex cd))) eqn:Hm; simpl.
    + rewrite IH. split.
      * intros Hall cd' Hin. inversion Hin; subst; [exact Hm|].
        apply Hall. assumption.
      * intros Hall cd' Hin. apply Hall. right. exact Hin.
    + split; [discriminate|]. intros Hall.
      rewrite (Hall cd) in Hm by left. discriminate.
Qed.

Lemma sum_of_percentages_total pcts targets :
  sum_of_percentages pcts targets (total_percentage pcts targets).
Proof.
  unfold total_percentage.
  induction targets as [|cd targets IH] using rev_ind.
  - apply sum_no_target.
  - rewrite fmap_app, fold_left_app. apply sum_next_target. exact IH.
Qed.

Lemma sum_of_percentages_unique pcts targets total :
  sum_of_percentages pcts targets total ->
  total = total_percentage pcts targets.
Proof.
  induction 1 as [|targets cd total _ IH].
  - reflexivity.
  - unfold total_percentage. rewrite fmap_app, fold_left_app.
    fold (total_percentage pcts targets). rewrite <- IH. reflexivity.
Qed.

(** C7: on a valid condition whose region was captured and analysed,
    [check] answers true under ANY exactly when some target's percentage is
    [>=] that target's threshold, under ALL exactly when every target's is,
    and under TOTAL exactly when the sum of the targets' percentages (there
    is one such sum, [sum_of_percentages]) is [>=]
    [match_percentage_threshold]. *)
Theorem region_color_check_logic color_percentages c :
  _is_valid (base c) = true ->
  let answer :=
    RegionColorCondition_check true true true (Analysed color_percentages) c in
  let met cd :=
    leb (threshold cd) (percentage_of color_percentages (hex cd)) = true in
  (condition_logic c = "ANY_TARGET_MET_THRESHOLD" ->
   (answer = true <-> exists cd, cd ∈ target_colors_list c /\ met cd)) /\
  (condition_logic c = "ALL_TARGETS_MET_THRESHOLD" ->
   (answer = true <-> forall cd, cd ∈ target_colors_list c -> met cd)) /\
  (condition_logic c = "TOTAL_PERCENTAGE_ABOVE_THRESHOLD" ->
   (exists total,
      sum_of_percentages color_percentages (target_colors_list c) total) /\
   (forall total,
      sum_of_percentages color_percentages (target_colors_list c) total ->
      (answer = true <-> leb (match_percentage_threshold c) total = true))).
Proof.
  intros Hvalid answer met. subst answer met.
  unfold RegionColorCondition_check, base_check. rewrite Hvalid.
  cbn [negb orb andb].
  split; [|split]; intros Hlogic; rewrite Hlogic;
    cbn [String.eqb Ascii.eqb Bool.eqb].
  - rewrite <- any_target_met_spec.
    destruct (target_colors_list c); reflexivity.
  - rewrite <- all_targets_met_spec.
    destruct (target_colors_list c); reflexivity.
  - split.
    + eexists. apply sum_of_percentages_total.
    + intros total Hsum. apply sum_of_percentages_unique in Hsum.
      subst total. destruct (target_colors_list c); reflexivity.
Qed.

End RegionColor.

(** *** A worked region check, with rationals for the floats *)

Definition Qltb (a b : Q) : bool := negb (Qle_bool b a).

Definition region_base : Condition :=
  {| id := "r1"; name := "Health bar"; type := "region_color";
     params := []; is_monitored_by_ai_brain := false;
     _is_valid := true; _validation_error := None |}.

Definition red_target : color_def Q :=
  {| hex := "#FF0000"; rgb := (255, 0, 0); tolerance := 10;
     label := "red"; threshold := 50%Q |}.

Definition blue_target : color_def Q :=
  {| hex := "#0000FF"; rgb := (0, 0, 255); tolerance := 10;
     label := "blue"; threshold := 20%Q |}.

Definition any_of_two : RegionColorCondition Q :=
  {| base := region_base; target_colors_list := [red_target; blue_target];
     match_percentage_threshold := 75%Q; sampling_step := 1;
     condition_logic := "ANY_TARGET_MET_THRESHOLD" |}.

Definition mostly_blue : list (string * Q) :=
  [("#FF0000", 5%Q); ("#0000FF", 60%Q)].

Definition total_of_two : RegionColorCondition Q :=
  {| base := region_base; target_colors_list := [red_target; blue_target];
     match_percentage_threshold := 60%Q; sampling_step := 1;
     condition_logic := "TOTAL_PERCENTAGE_ABOVE_THRESHOLD" |}.

Definition mostly_red : list (string * Q) :=
  [("#FF0000", 40%Q); ("#0000FF", 15%Q)].

(** C7 on [any_of_two] and [total_of_two].  With 5% red and 60% blue, red
    stays under its threshold and blue reaches its own, so ANY is met; with
    40% red and 15% blue neither target reaches its threshold, and their
    sum of 55% stays under the 60% that TOTAL asks for. *)
Lemma region_color_check_logic_witness :
  RegionColorCondition_check Q 0%Q Qplus Qle_bool Qltb true true true
    (Analysed Q mostly_blue) any_of_two = true
  /\ RegionColorCondition_check Q 0%Q Qplus Qle_bool Qltb true true true
       (Analysed Q mostly_red) total_of_two = false.
Proof.
  split.
  - apply (proj1 (region_color_check_logic Q 0%Q Qplus Qle_bool Qltb
                    (fun a b => eq_refl) mostly_blue any_of_two eq_refl)
                 eq_refl).
    exists blue_target. split; [right; left|reflexivity].
  - destruct (proj2 (proj2 (region_color_check_logic
                              Q 0%Q Qplus Qle_bool Qltb (fun a b => eq_refl)
                              mostly_red total_of_two eq_refl)) eq_refl)
      as [_ Htotal].
    specialize (Htotal (0 + 40 + 15)%Q).
    destruct (RegionColorCondition_check Q 0%Q Qplus Qle_bool Qltb
                true true true (Analysed Q mostly_red) total_of_two);
      [|reflexivity].
    assert (Hsum : sum_of_percentages Q 0%Q Qplus mostly_red
                     (target_colors_list Q total_of_two) (0 + 40 + 15)%Q).
    { apply (sum_next_target Q 0%Q Qplus mostly_red [red_target] blue_target),
            (sum_next_target Q 0%Q Qplus mostly_red [] red_target),
            sum_no_target. }
    pose proof (proj1 (Htotal Hsum) eq_refl) as Hmet.
    vm_compute in Hmet. discriminate Hmet.
Defined.

End condition.

(** ** core/condition_manager.py *)

Module condition_manager.

Import condition.

(** [shared_conditions]: the registry, keyed by condition id.  The order in
    which a Python dictionary lists its values is not kept. *)
Abbreviation registry := (gmap string Condition).

Definition is_none_type (v : option pyval) : bool :=
  match v with
  | Some (PyStr t) => String.eqb t NoneCondition_TYPE
  | _ => false
  end.

Section Manager.

Variable str_strip : string -> string.
Variable str_title : string -> string.
Variable py_str : pyval -> string.
Variable int_of_str : string -> option Z.
Variable int_error_text : pyval -> string.
Variable specific_init :
  string -> Condition -> pydict * result (option string).

(** [uuid4 i] is the identifier [uuid.uuid4().hex] would hand to the [i]-th
    condition built. *)
Variable uuid4 : nat -> string.

Abbreviation create_condition :=
  (condition.create_condition str_strip str_title py_str int_of_str
    int_error_text
                              specific_init).

(** The [for] loop of [load_shared_conditions]. *)
Fixpoint load_loop (i : nat) (items : list pyval) (reg : registry)
    : registry :=
  match items with
  | [] => reg
  | cond_data :: rest =>
      match cond_data with
      | PyDict d =>
          if is_none_type (dict_get "type" d) then load_loop (S i) rest reg
          else
            match create_condition (uuid4 i) cond_data with
            | Ok condition_obj =>
                if negb (String.eqb (id condition_obj) "")
                   && negb (String.eqb (type condition_obj)
                                       NoneCondition_TYPE)
                then load_loop (S i) rest
                       (<[id condition_obj := condition_obj]> reg)
                else load_loop (S i) rest reg
            | Raise _ => load_loop (S i) rest reg
            end
      | _ => load_loop (S i) rest reg
      end
  end.

Definition load_shared_conditions (conditions_data_list : pyval) : registry :=
  match conditions_data_list with
  | PyList items => load_loop 0 items ∅
  | _ => ∅
  end.

Definition get_shared_condition_by_id (condition_id : string)
    (reg : registry) : option Condition :=
  if String.eqb condition_id "" then None else reg !! condition_id.

Definition add_or_update_shared_condition (condition_obj : Condition)
    (reg : registry) : bool * registry :=
  if String.eqb (id condition_obj) "" then (false, reg)
  else if String.eqb (type condition_obj) NoneCondition_TYPE then (false, reg)
  else (true, <[id condition_obj := condition_obj]> reg).

Definition update_shared_condition_from_data (uuid : string)
    (condition_id : string) (updated_condition_data : pyval)
    (reg : registry) : bool * registry :=
  match updated_condition_data with
  | PyDict d =>
      if String.eqb condition_id "" then (false, reg)
      else
        match reg !! condition_id with
        | None => (false, reg)
        | Some original =>
            if is_none_type (dict_get "type" d) then (false, reg)
            else
              let d1 := dict_set "id" (PyStr condition_id) d in
              let d2 :=
                if negb (dict_mem "name" d1)
                   || String.eqb
                        (str_strip
                           (py_str (dict_get_default "name" (PyStr "") d1)))
                        ""
                then dict_set "name" (PyStr (name original)) d1
                else d1 in
              match create_condition uuid (PyDict d2) with
              | Ok updated_condition_obj =>
                  if String.eqb (type updated_condition_obj)
                                NoneCondition_TYPE
                  then (false, reg)
                  else (true, <[condition_id := updated_condition_obj]> reg)
              | Raise _ => (false, reg)
              end
        end
  | _ => (false, reg)
  end.

Definition delete_shared_condition (condition_id : string) (reg : registry)
    : bool * registry :=
  if String.eqb condition_id "" then (false, reg)
  else
    match reg !! condition_id with
    | Some _ => (true, delete condition_id reg)
    | None => (false, reg)
    end.

Definition get_serializable_data (reg : registry) : list pydict :=
  to_dict
    <$> filter (fun cond => type cond <> NoneCondition_TYPE)
               ((map_to_list reg).*2).

Definition clear_all_shared_conditions (reg : registry) : registry := ∅.

(** [list(self.shared_conditions.values())] *)
Definition get_all_shared_conditions (reg : registry) : list Condition :=
  (map_to_list reg).*2.

(** Every condition is stored under its own id, which is not empty. *)
Definition keys_are_ids (reg : registry) : Prop :=
  map_Forall (fun k cond => id cond = k /\ k <> "") reg.

(** The registry holds no condition of type ["none"]. *)
Definition no_none_condition (reg : registry) : Prop :=
  map_Forall (fun _ cond => type cond <> NoneCondition_TYPE) reg.

Lemma load_loop_no_none items :
  forall i reg, no_none_condition reg -> no_none_condition (load_loop i items reg).
Proof.
  induction items as [|cond_data rest IH]; intros i reg Hreg; simpl;
    [exact Hreg|].
  destruct cond_data; try (apply IH; exact Hreg).
  destruct (is_none_type _); [apply IH; exact Hreg|].
  destruct (create_condition _ _) as [c|e]; [|apply IH; exact Hreg].
  destruct (negb (String.eqb (id c) "")
            && negb (String.eqb (type c) NoneCondition_TYPE)) eqn:Hok;
    [|apply IH; exact Hreg].
  apply IH. apply map_Forall_insert_2; [|exact Hreg].
  apply andb_true_iff in Hok as [_ Hty]. apply negb_true_iff in Hty.
  apply String.eqb_neq. exact Hty.
Qed.

(** C6: every operation of the manager keeps conditions of type ["none"] out
    of the registry: loading skips them, adding or updating with one
    returns false and leaves the registry as it was, and the serialised
    data holds none. *)
Theorem none_condition_never_shared (reg : registry) :
  no_none_condition reg ->
  (forall data, no_none_condition (load_shared_conditions data)) /\
  (forall i d rest r,
     is_none_type (dict_get "type" d) = true ->
     load_loop i (PyDict d :: rest) r = load_loop (S i) rest r) /\
  (forall c,
     no_none_condition (add_or_update_shared_condition c reg).2 /\
     (type c = NoneCondition_TYPE ->
      add_or_update_shared_condition c reg = (false, reg))) /\
  (forall uuid cid data,
     no_none_condition
       (update_shared_condition_from_data uuid cid data reg).2 /\
     (forall d, data = PyDict d ->
                is_none_type (dict_get "type" d) = true ->
                update_shared_condition_from_data uuid cid data reg
                = (false, reg)) /\
     ((update_shared_condition_from_data uuid cid data reg).1 = false ->
      (update_shared_condition_from_data uuid cid data reg).2 = reg)) /\
  (forall cid, no_none_condition (delete_shared_condition cid reg).2) /\
  no_none_condition (clear_all_shared_conditions reg) /\
  (forall d, d ∈ get_serializable_data reg ->
             dict_get "type" d <> Some (PyStr NoneCondition_TYPE)).
Proof.
  intros Hreg. repeat split.
  - intros data. destruct data; try apply map_Forall_empty.
    apply load_loop_no_none, map_Forall_empty.
  - intros i d rest r Hnone. simpl. rewrite Hnone. reflexivity.
  - unfold add_or_update_shared_condition.
    destruct (String.eqb (id c) ""); [exact Hreg|].
    destruct (String.eqb (type c) NoneCondition_TYPE) eqn:Hty; [exact Hreg|].
    apply map_Forall_insert_2; [|exact Hreg]. apply String.eqb_neq. exact Hty.
  - intros Hty. unfold add_or_update_shared_condition.
    apply String.eqb_eq in Hty. rewrite Hty.
    destruct (String.eqb (id c) ""); reflexivity.
  - unfold update_shared_condition_from_data.
    destruct data; try exact Hreg.
    destruct (String.eqb cid ""); [exact Hreg|].
    destruct (reg !! cid); [|exact Hreg].
    destruct (is_none_type _); [exact Hreg|].
    destruct (create_condition _ _) as [c0|e]; [|exact Hreg].
    destruct (String.eqb (type c0) NoneCondition_TYPE) eqn:Hty; [exact Hreg|].
    apply map_Forall_insert_2; [|exact Hreg]. apply String.eqb_neq. exact Hty.
  - intros d -> Hnone. unfold update_shared_condition_from_data.
    rewrite Hnone. destruct (String.eqb cid ""); [reflexivity|].
    destruct (reg !! cid); reflexivity.
  - unfold update_shared_condition_from_data.
    destruct data; try reflexivity.
    destruct (String.eqb cid ""); [reflexivity|].
    destruct (reg !! cid); [|reflexivity].
    destruct (is_none_type _); [reflexivity|].
    destruct (create_condition _ _) as [c0|e]; [|reflexivity].
    destruct (String.eqb (type c0) NoneCondition_TYPE); [reflexivity|].
    discriminate.
  - intros cid. unfold delete_shared_condition.
    destruct (String.eqb cid ""); [exact Hreg|].
    destruct (reg !! cid); [|exact Hreg].
    apply map_Forall_delete. exact Hreg.
  - apply map_Forall_empty.
  - intros d Hd. unfold get_serializable_data in Hd.
    apply list_elem_of_fmap in Hd as (c & -> & Hc).
    apply list_elem_of_filter in Hc as [Hty _].
    simpl. intros Heq. apply Hty. congruence.
Qed.

(** *** Adding, finding and deleting *)

(** X9: a condition with an id, and not of type ["none"], is stored by
    [add_or_update_shared_condition] and found again under its id; no other
    id is affected; deleting it afterwards leaves the registry as a deletion
    before the insertion would; after a deletion the id is not found; and
    deleting an id that is not there returns false and changes nothing. *)
Theorem shared_condition_add_get_delete (reg : registry) c :
  id c <> "" -> type c <> NoneCondition_TYPE ->
  let reg' := (add_or_update_shared_condition c reg).2 in
  (add_or_update_shared_condition c reg).1 = true /\
  get_shared_condition_by_id (id c) reg' = Some c /\
  (forall k, k <> id c ->
     get_shared_condition_by_id k reg' = get_shared_condition_by_id k reg) /\
  delete_shared_condition (id c) reg' = (true, delete (id c) reg) /\
  (forall k,
     get_shared_condition_by_id k (delete_shared_condition k reg).2 = None) /\
  (forall k,
     get_shared_condition_by_id k reg = None ->
     delete_shared_condition k reg = (false, reg)).
Proof.
  intros Hid Hty. apply String.eqb_neq in Hid, Hty.
  unfold add_or_update_shared_condition, get_shared_condition_by_id,
    delete_shared_condition.
  rewrite Hid, Hty. cbn [fst snd]. repeat split.
  - apply lookup_insert_eq.
  - intros k Hk. destruct (String.eqb k ""); [reflexivity|].
    apply lookup_insert_ne. congruence.
  - rewrite lookup_insert_eq, delete_insert_eq. reflexivity.
  - intros k. destruct (String.eqb k ""); [reflexivity|].
    destruct (reg !! k) eqn:Hget; cbn [snd];
      [apply lookup_delete_eq|exact Hget].
  - intros k. destruct (String.eqb k ""); [reflexivity|].
    intros ->. reflexivity.
Qed.

Lemma load_loop_keys_are_ids items :
  forall i reg, keys_are_ids reg -> keys_are_ids (load_loop i items reg).
Proof.
  induction items as [|cond_data rest IH]; intros i reg Hreg; simpl;
    [exact Hreg|].
  destruct cond_data; try (apply IH; exact Hreg).
  destruct (is_none_type _); [apply IH; exact Hreg|].
  destruct (create_condition _ _) as [c|e]; [|apply IH; exact Hreg].
  destruct (negb (String.eqb (id c) "")
            && negb (String.eqb (type c) NoneCondition_TYPE)) eqn:Hok;
    [|apply IH; exact Hreg].
  apply IH. apply map_Forall_insert_2; [|exact Hreg].
  apply andb_true_iff in Hok as [Hid _]. apply negb_true_iff in Hid.
  apply String.eqb_neq in Hid. split; [reflexivity|exact Hid].
Qed.

(** X10: loading, adding, deleting and clearing keep every condition stored
    under its own id; so does [update_shared_condition_from_data] when the
    id it is given has something other than whitespace in it. *)
Theorem shared_conditions_are_keyed_by_id (reg : registry) :
  keys_are_ids reg ->
  (forall data, keys_are_ids (load_shared_conditions data)) /\
  (forall c, keys_are_ids (add_or_update_shared_condition c reg).2) /\
  (forall uuid cid data,
     str_strip cid <> "" ->
     keys_are_ids (update_shared_condition_from_data uuid cid data reg).2) /\
  (forall cid, keys_are_ids (delete_shared_condition cid reg).2) /\
  keys_are_ids (clear_all_shared_conditions reg) /\
  (forall cid c, get_shared_condition_by_id cid reg = Some c -> id c = cid).
Proof.
  intros Hreg. split_and!.
  - intros data. destruct data; try apply map_Forall_empty.
    apply load_loop_keys_are_ids, map_Forall_empty.
  - intros c. unfold add_or_update_shared_condition.
    destruct (String.eqb (id c) "") eqn:Hid; [exact Hreg|].
    destruct (String.eqb (type c) NoneCondition_TYPE); [exact Hreg|].
    apply map_Forall_insert_2; [|exact Hreg].
    apply String.eqb_neq in Hid. split; [reflexivity|exact Hid].
  - intros uuid cid data Hstrip. unfold update_shared_condition_from_data.
    destruct data as [| | | | | |d]; try exact Hreg.
    destruct (String.eqb cid "") eqn:Hcid; [exact Hreg|].
    destruct (reg !! cid) as [original|]; [|exact Hreg].
    destruct (is_none_type _); [exact Hreg|].
    destruct (create_condition _ _) as [c0|e] eqn:Hc; [|exact Hreg].
    destruct (String.eqb (type c0) NoneCondition_TYPE); [exact Hreg|].
    apply map_Forall_insert_2; [|exact Hreg].
    apply String.eqb_neq in Hcid. split; [|exact Hcid].
    destruct (create_condition_type_and_id _ _ _ _ _ _ _ _ _ Hc)
      as (_ & _ & Hid & _).
    apply (Hid _ cid eq_refl); try assumption.
    destruct (negb _ || _).
    + rewrite dict_get_set_other by discriminate.
      apply dict_get_set_same.
    + apply dict_get_set_same.
  - intros cid. unfold delete_shared_condition.
    destruct (String.eqb cid ""); [exact Hreg|].
    destruct (reg !! cid); [|exact Hreg].
    apply map_Forall_delete. exact Hreg.
  - apply map_Forall_empty.
  - intros cid c. unfold get_shared_condition_by_id.
    destruct (String.eqb cid ""); [discriminate|].
    intros Hget. exact (proj1 (Hreg _ _ Hget)).
Qed.

End Manager.

(** *** A worked registry *)

Definition window_condition : Condition :=
  {| id := "w1"; name := "Notepad"; type := "window_exists";
     params := [("window_title", PyStr "Notepad")];
     is_monitored_by_ai_brain := false;
     _is_valid := true; _validation_error := None |}.

Definition always_true : Condition :=
  {| id := "n1"; name := "Always True"; type := NoneCondition_TYPE;
     params := []; is_monitored_by_ai_brain := false;
     _is_valid := true; _validation_error := None |}.

Definition one_shared : registry := {[ "w1" := window_condition ]}.

Lemma one_shared_no_none : no_none_condition one_shared.
Proof. apply map_Forall_singleton. discriminate. Qed.

(** C6 on a registry of one window condition: offering it an always-true
    condition is refused and changes nothing. *)
Lemma none_condition_never_shared_witness :
  add_or_update_shared_condition always_true one_shared = (false, one_shared).
Proof.
  pose proof (none_condition_never_shared
                plain_strip plain_title plain_str no_int_of_str plain_int_error
                (fun _ c => (params c, Ok None)) (fun _ => "u")
                one_shared one_shared_no_none) as (_ & _ & Hadd & _).
  exact (proj2 (Hadd always_true) eq_refl).
Defined.

(** Adding [window_condition] to an empty registry and looking it up. *)
Lemma shared_condition_add_get_delete_witness :
  get_shared_condition_by_id "w1"
    (add_or_update_shared_condition window_condition ∅).2
  = Some window_condition.
Proof.
  exact (proj1 (proj2 (shared_condition_add_get_delete
                         ∅ window_condition
                         ltac:(discriminate) ltac:(discriminate)))).
Defined.

Lemma one_shared_keys_are_ids : keys_are_ids one_shared.
Proof.
  apply map_Forall_singleton. split; [reflexivity|discriminate].
Qed.

(** Updating the one shared condition from data keeps it under its id. *)
Lemma shared_conditions_are_keyed_by_id_witness :
  keys_are_ids
    (update_shared_condition_from_data
       plain_strip plain_title plain_str no_int_of_str
         plain_int_error accepting_init
       "u" "w1" (PyDict [("type", PyStr "process_exists")]) one_shared).2.
Proof.
  exact (proj1 (proj2 (proj2 (shared_conditions_are_keyed_by_id
                                plain_strip plain_title plain_str
                                no_int_of_str plain_int_error accepting_init
                                (fun _ => "u")
                                one_shared one_shared_keys_are_ids)))
           "u" "w1" (PyDict [("type", PyStr "process_exists")])
           ltac:(discriminate)).
Defined.

End condition_manager.

(** ** core/trigger.py: the [TriggerAction] class *)

Module trigger_action.

Import trigger.

Definition START_JOB : string := "start_job".
Definition STOP_JOB : string := "stop_job".
Definition PAUSE_JOB : string := "pause_job".
Definition RESUME_JOB : string := "resume_job".
Definition SWITCH_PROFILE : string := "switch_profile".

Definition VALID_ACTIONS : list string :=
  [START_JOB; STOP_JOB; PAUSE_JOB; RESUME_JOB; SWITCH_PROFILE].

Section Builtins.

(** [str.strip] and [str()], as in core/condition.py. *)
Variable str_strip : string -> string.
Variable py_str : pyval -> string.

(** [TriggerAction.__init__(action_type, target)] *)
Definition __init__ (action_type_ : string) (target_ : pyval)
    : result TriggerAction :=
  if negb (existsb (String.eqb action_type_) VALID_ACTIONS) then
    Raise ValueError
  else
    Ok {| action_type := action_type_;
          target := match target_ with
                    | PyStr s => str_strip s
                    | _ => ""
                    end |}.

Definition to_dict (a : TriggerAction) : pydict :=
  [("action_type", PyStr (action_type a)); ("target", PyStr (target a))].

Definition from_dict (data : pyval) : result TriggerAction :=
  match data with
  | PyDict d =>
      let action_type_ := dict_get_default "action_type" PyNone d in
      let target_ := dict_get_default "target" PyNone d in
      if negb (truthy action_type_) then Raise ValueError
      else __init__ (py_str action_type_) target_
  | _ => Raise ValueError
  end.

(** The target is the empty string or what [strip] returned. *)
Definition stripped_target (a : TriggerAction) : Prop :=
  target a = "" \/ exists s, target a = str_strip s.

Lemma init_valid action_type_ target_ a :
  __init__ action_type_ target_ = Ok a ->
  action_type a = action_type_ /\ In (action_type a) VALID_ACTIONS /\
  stripped_target a.
Proof.
  unfold __init__.
  destruct (existsb (String.eqb action_type_) VALID_ACTIONS) eqn:Hin;
    [|discriminate].
  intros Heq. injection Heq as <-. simpl. split; [reflexivity|split].
  - apply existsb_exists in Hin as (x & Hx & Heq).
    apply String.eqb_eq in Heq. subst x. exact Hx.
  - destruct target_; try (left; reflexivity). right. eexists. reflexivity.
Qed.

(** X4: whatever the data, [TriggerAction.from_dict] either raises
    [ValueError] or returns an action whose type is one of the five
    [VALID_ACTIONS] and whose target is a stripped string. *)
Theorem from_dict_valid_or_ValueError data :
  match from_dict data with
  | Ok a => In (action_type a) VALID_ACTIONS /\ stripped_target a
  | Raise e => e = ValueError
  end.
Proof.
  unfold from_dict. destruct data; try reflexivity.
  destruct (truthy _); [|reflexivity]. cbn [negb].
  destruct (__init__ _ _) as [a|e] eqn:Hinit.
  - apply init_valid in Hinit as (_ & Hin & Hs). split; assumption.
  - unfold __init__ in Hinit.
    destruct (existsb _ VALID_ACTIONS); simpl in Hinit; congruence.
Qed.

(** X5: an action that the constructor built is read back unchanged from its
    own [to_dict], given that [str()] of a string is that string and that
    stripping a stripped string changes nothing. *)
Theorem from_dict_to_dict_round_trip action_type_ target_ a :
  (forall s, py_str (PyStr s) = s) ->
  (forall s, str_strip (str_strip s) = str_strip s) ->
  str_strip "" = "" ->
  __init__ action_type_ target_ = Ok a ->
  from_dict (PyDict (to_dict a)) = Ok a.
Proof.
  intros Hstr Hidem Hempty Hinit.
  pose proof (init_valid _ _ _ Hinit) as (Hty & Hin & Hs).
  unfold from_dict, to_dict, dict_get_default. simpl.
  rewrite Hstr.
  assert (Hne : String.eqb (action_type a) "" = false).
  { apply String.eqb_neq. intros Heq. rewrite Heq in Hin.
    simpl in Hin. intuition discriminate. }
  rewrite Hne. simpl. unfold __init__.
  assert (Hex : existsb (String.eqb (action_type a)) VALID_ACTIONS = true).
  { apply existsb_exists. exists (action_type a). split; [exact Hin|].
    apply String.eqb_refl. }
  rewrite Hex. simpl. f_equal.
  assert (Ht : str_strip (target a) = target a).
  { destruct Hs as [-> | [s ->]]; [exact Hempty|apply Hidem]. }
  rewrite Ht. destruct a; reflexivity.
Qed.

End Builtins.

(** Reading back a stop-all action. *)
Lemma from_dict_to_dict_round_trip_witness :
  from_dict condition.plain_strip condition.plain_str
    (PyDict (to_dict {| action_type := STOP_JOB; target := "all" |}))
  = Ok {| action_type := STOP_JOB; target := "all" |}.
Proof.
  exact (from_dict_to_dict_round_trip
           condition.plain_strip condition.plain_str
           STOP_JOB (PyStr "all") _
           (fun s => eq_refl) (fun s => eq_refl) eq_refl eq_refl).
Defined.

End trigger_action.

(** ** core/observer.py *)

Module observer.

#[local] Arguments trigger.conditions {Condition} t.
#[local] Arguments trigger.condition_logic {Condition} t.
#[local] Arguments trigger.actions {Condition} t.
#[local] Arguments trigger.enabled {Condition} t.
#[local] Arguments trigger.last_checked_time {Condition} t.
#[local] Arguments trigger.set_last_checked_time {Condition} now t.

(** [_monitored_conditions_map]: the last check result of every condition
    the AI brain monitors, by condition id. *)
Abbreviation monitored_map := (gmap string bool).

Abbreviation Trigger := (trigger.Trigger condition.Condition).

(** The loop of [_refresh_monitored_conditions_list]. *)
Definition refresh_loop (all_shared_conditions : list condition.Condition)
    (m : monitored_map) : monitored_map :=
  foldl (fun m cond =>
           if condition.is_monitored_by_ai_brain cond
           then <[condition.id cond := false]> m else m)
        m all_shared_conditions.

(** [_refresh_monitored_conditions_list]; the condition manager is [None]
    when the observer has no job manager, or the job manager none. *)
Definition _refresh_monitored_conditions_list
    (the_condition_manager : option condition_manager.registry)
    : monitored_map :=
  match the_condition_manager with
  | None => ∅
  | Some reg =>
      refresh_loop (condition_manager.get_all_shared_conditions reg) ∅
  end.

(** The loop of [_check_ai_trigger_conditions] with the [results] gathered
    so far, and the return that follows it. *)
Fixpoint ai_check_loop (logic : string) (cs : list condition.Condition)
    (m : monitored_map) (results : list bool) : bool :=
  match cs with
  | [] =>
      match results with
      | [] => String.eqb logic trigger.LOGIC_AND
      | _ => String.eqb logic trigger.LOGIC_AND && forallb (fun r => r) results
      end
  | condition_in_trigger :: rest =>
      let current_state :=
        default false (m !! condition.id condition_in_trigger) in
      if String.eqb logic trigger.LOGIC_OR && current_state then true
      else if String.eqb logic trigger.LOGIC_AND && negb current_state
      then false
      else ai_check_loop logic rest m (results ++ [current_state])
  end.

Definition _check_ai_trigger_conditions (ai_trigger : Trigger)
    (current_time : Q) (m : monitored_map) : bool * Trigger :=
  if negb (trigger.enabled ai_trigger) then (false, ai_trigger)
  else
    match trigger.conditions ai_trigger with
    | [] =>
        (match trigger.actions ai_trigger with [] => false | _ => true end,
         ai_trigger)
    | cs =>
        (ai_check_loop (trigger.condition_logic ai_trigger) cs m [],
         trigger.set_last_checked_time current_time ai_trigger)
    end.

(** The calls [_execute_triggered_actions] makes on the job manager. *)
Inductive job_manager_call :=
| start_job (name : string)
| stop_all_running_jobs
| stop_job (name : string)
| load_profile (profile_name : string).

Section Observer.

(** [condition_obj.check( **context)] for the condition found under
    [cond_id]; [str.lower]; whether the job manager's call for the [i]-th
    action of a batch raises; and whether the observer's stop event is set
    once that action is done with. *)
Variable check : string -> condition.Condition -> result bool.
Variable str_lower : string -> string.
Variable call_raises : nat -> bool.
Variable stop_event_is_set : nat -> bool.

(** One pass of the loop of [_scan_monitored_conditions]. *)
Definition scan_step (reg : condition_manager.registry) (m : monitored_map)
    (cond_id : string) : monitored_map :=
  match condition_manager.get_shared_condition_by_id cond_id reg with
  | Some condition_obj =>
      if condition.is_monitored_by_ai_brain condition_obj then
        <[cond_id := match check cond_id condition_obj with
                     | Ok current_check_result => current_check_result
                     | Raise _ => false
                     end]> m
      else delete cond_id m
  | None => delete cond_id m
  end.

Definition _scan_monitored_conditions
    (the_condition_manager : option condition_manager.registry)
    (m : monitored_map) : monitored_map :=
  match the_condition_manager with
  | None => m
  | Some reg => foldl (scan_step reg) m (map_to_list m).*1
  end.

Definition action_requires_target (action_type : string) : bool :=
  existsb (String.eqb action_type)
    [trigger_action.START_JOB; trigger_action.STOP_JOB;
     trigger_action.PAUSE_JOB; trigger_action.RESUME_JOB;
     trigger_action.SWITCH_PROFILE].

Definition is_valid_target (action_type target : string) : bool :=
  negb (String.eqb target "")
  || (String.eqb action_type trigger_action.STOP_JOB
      && String.eqb (str_lower target) "all").

(** The loop of [_execute_triggered_actions] from the [i]-th action on,
    with the calls made so far. *)
Fixpoint execute_loop (i : nat) (actions : list trigger.TriggerAction)
    (calls : list job_manager_call) : list job_manager_call :=
  match actions with
  | [] => calls
  | action :: rest =>
      let action_type := trigger.action_type action in
      let target := trigger.target action in
      if action_requires_target action_type
         && negb (is_valid_target action_type target)
      then execute_loop (S i) rest calls
      else
        let calls' :=
          if String.eqb action_type trigger_action.START_JOB then
            calls ++ [start_job target]
          else if String.eqb action_type trigger_action.STOP_JOB then
            if String.eqb (str_lower target) "all"
            then calls ++ [stop_all_running_jobs]
            else calls ++ [stop_job target]
          else if String.eqb action_type trigger_action.SWITCH_PROFILE then
            calls ++ [load_profile target]
          else calls in
        if String.eqb action_type trigger_action.SWITCH_PROFILE
           && negb (call_raises i)
        then calls'
        else if stop_event_is_set i then calls'
        else execute_loop (S i) rest calls'
  end.

Definition _execute_triggered_actions (has_job_manager : bool)
    (actions : list trigger.TriggerAction) : list job_manager_call :=
  if negb has_job_manager then [] else execute_loop 0 actions [].

(** *** The monitored map *)

Lemma refresh_loop_spec l :
  forall m0 k,
    refresh_loop l m0 !! k =
    if existsb (fun c => condition.is_monitored_by_ai_brain c
                         && String.eqb (condition.id c) k) l
    then Some false else m0 !! k.
Proof.
  unfold refresh_loop.
  induction l as [|c l IH]; intros m0 k; [reflexivity|].
  cbn [foldl existsb]. rewrite IH. destruct (existsb _ l); [rewrite orb_true_r; reflexivity|].
  rewrite orb_false_r.
  destruct (condition.is_monitored_by_ai_brain c); [|reflexivity].
  cbn [andb]. destruct (String.eqb_spec (condition.id c) k) as [->|Hne].
  - apply lookup_insert_eq.
  - apply lookup_insert_ne. exact Hne.
Qed.

(** X11: after [_refresh_monitored_conditions_list] the map holds exactly the
    ids of the shared conditions that are monitored by the AI brain, each
    with the state false; without a condition manager it is empty. *)
Theorem refresh_lists_monitored_conditions reg k :
  (_refresh_monitored_conditions_list (Some reg) !! k = Some false <->
   exists c, c ∈ condition_manager.get_all_shared_conditions reg /\
             condition.is_monitored_by_ai_brain c = true /\
             condition.id c = k) /\
  _refresh_monitored_conditions_list (Some reg) !! k <> Some true /\
  _refresh_monitored_conditions_list None = ∅.
Proof.
  unfold _refresh_monitored_conditions_list. rewrite refresh_loop_spec.
  rewrite lookup_empty.
  destruct (existsb _ _) eqn:Hex; split_and!; try discriminate;
    try reflexivity.
  - split; [intros _|reflexivity].
    apply existsb_exists in Hex as (c & Hin & Hc).
    apply andb_true_iff in Hc as [Hmon Hid]. apply String.eqb_eq in Hid.
    exists c. split; [apply list_elem_of_In; exact Hin|]. split; assumption.
  - split; [discriminate|]. intros (c & Hin & Hmon & Hid).
    assert (Hex' : existsb
              (fun c => condition.is_monitored_by_ai_brain c
                        && String.eqb (condition.id c) k)
              (condition_manager.get_all_shared_conditions reg) = true).
    { apply existsb_exists. exists c. split; [apply list_elem_of_In, Hin|].
      rewrite Hmon, Hid, String.eqb_refl. reflexivity. }
    congruence.
Qed.

(** What a scan leaves under [k]. *)
Definition scanned (reg : condition_manager.registry) (k : string)
    : option bool :=
  match condition_manager.get_shared_condition_by_id k reg with
  | Some c =>
      if condition.is_monitored_by_ai_brain c then
        Some (match check k c with Ok b => b | Raise _ => false end)
      else None
  | None => None
  end.

Lemma scan_step_lookup reg m cond_id k :
  scan_step reg m cond_id !! k =
  if String.eqb cond_id k then scanned reg cond_id else m !! k.
Proof.
  unfold scan_step, scanned.
  destruct (String.eqb_spec cond_id k) as [->|Hne].
  - destruct (condition_manager.get_shared_condition_by_id k reg) as [c|];
      [destruct (condition.is_monitored_by_ai_brain c)|];
      first [apply lookup_insert_eq|apply lookup_delete_eq].
  - destruct (condition_manager.get_shared_condition_by_id cond_id reg)
      as [c|];
      [destruct (condition.is_monitored_by_ai_brain c)|];
      first [apply lookup_insert_ne|apply lookup_delete_ne]; exact Hne.
Qed.

Lemma scan_fold_lookup reg keys :
  forall m k,
    foldl (scan_step reg) m keys !! k =
    if bool_decide (k ∈ keys) then scanned reg k else m !! k.
Proof.
  induction keys as [|k0 keys IH]; intros m k.
  - rewrite bool_decide_eq_false_2 by apply not_elem_of_nil. reflexivity.
  - cbn [foldl]. rewrite IH, scan_step_lookup.
    destruct (bool_decide_reflect (k ∈ keys)) as [Hin|Hnin].
    + rewrite bool_decide_eq_true_2 by (right; exact Hin). reflexivity.
    + destruct (String.eqb_spec k0 k) as [->|Hne].
      * rewrite bool_decide_eq_true_2 by left. reflexivity.
      * rewrite bool_decide_eq_false_2; [reflexivity|].
        intros Hin. apply elem_of_cons in Hin as [->|Hin]; tauto.
Qed.

(** X12: after [_scan_monitored_conditions] an id is in the map exactly when it
    was there before and the condition manager still has a monitored
    condition under it; its state is then what the condition's [check]
    returned, and false when the check raised.  Without a condition
    manager the map is left as it was. *)
Theorem scan_updates_monitored_map reg m k :
  _scan_monitored_conditions (Some reg) m !! k =
    match m !! k, condition_manager.get_shared_condition_by_id k reg with
    | Some _, Some c =>
        if condition.is_monitored_by_ai_brain c then
          Some (match check k c with Ok b => b | Raise _ => false end)
        else None
    | _, _ => None
    end
  /\ _scan_monitored_conditions None m = m.
Proof.
  split; [|reflexivity].
  unfold _scan_monitored_conditions. rewrite scan_fold_lookup.
  unfold scanned.
  destruct (m !! k) as [b|] eqn:Hk.
  - rewrite bool_decide_eq_true_2.
    + destruct (condition_manager.get_shared_condition_by_id k reg);
        reflexivity.
    + apply list_elem_of_fmap. exists (k, b). split; [reflexivity|].
      apply elem_of_map_to_list. exact Hk.
  - rewrite bool_decide_eq_false_2; [reflexivity|].
    intros Hin. apply list_elem_of_fmap in Hin as ([k' b] & -> & Hin).
    apply elem_of_map_to_list in Hin. simpl in Hk. congruence.
Qed.

(** *** The verdict on an AI trigger *)

Lemma monitored_state (m : monitored_map) k :
  default false (m !! k) = true <-> m !! k = Some true.
Proof.
  destruct (m !! k) as [[|]|]; simpl; split; congruence.
Qed.

Lemma ai_check_loop_and cs m :
  forall results,
    forallb (fun r => r) results = true ->
    (ai_check_loop trigger.LOGIC_AND cs m results = true <->
     forall c, c ∈ cs -> m !! condition.id c = Some true).
Proof.
  induction cs as [|c cs IH]; intros results Hres.
  - cbn [ai_check_loop]. rewrite Hres. split.
    + intros _ c Hc. apply elem_of_nil in Hc. contradiction.
    + intros _. destruct results; reflexivity.
  - cbn [ai_check_loop].
    change (String.eqb trigger.LOGIC_AND trigger.LOGIC_OR) with false.
    change (String.eqb trigger.LOGIC_AND trigger.LOGIC_AND) with true.
    cbn [andb]. pose proof (monitored_state m (condition.id c)) as Hst.
    destruct (default false (m !! condition.id c)); cbn [negb].
    + rewrite IH.
      * split.
        -- intros Hall c' Hc'. apply elem_of_cons in Hc' as [->|Hc'];
             [apply Hst; reflexivity|apply Hall; exact Hc'].
        -- intros Hall c' Hc'. apply Hall. right. exact Hc'.
      * rewrite forallb_app, Hres. reflexivity.
    + split; [discriminate|]. intros Hall.
      apply Hst. apply Hall. left.
Qed.

Lemma ai_check_loop_or cs m :
  forall results,
    ai_check_loop trigger.LOGIC_OR cs m results = true <->
    exists c, c ∈ cs /\ m !! condition.id c = Some true.
Proof.
  induction cs as [|c cs IH]; intros results.
  - cbn [ai_check_loop].
    change (String.eqb trigger.LOGIC_OR trigger.LOGIC_AND) with false.
    split.
    + destruct results; discriminate.
    + intros (c & Hc & _). apply elem_of_nil in Hc. contradiction.
  - cbn [ai_check_loop].
    change (String.eqb trigger.LOGIC_OR trigger.LOGIC_OR) with true.
    change (String.eqb trigger.LOGIC_OR trigger.LOGIC_AND) with false.
    cbn [andb]. pose proof (monitored_state m (condition.id c)) as Hst.
    destruct (default false (m !! condition.id c)).
    + split; [intros _|reflexivity]. exists c. split; [left|].
      apply Hst. reflexivity.
    + rewrite IH. split.
      * intros (c' & Hc' & Hm). exists c'. split; [right; exact Hc'|exact Hm].
      * intros (c' & Hc' & Hm). apply elem_of_cons in Hc' as [->|Hc'].
        -- apply Hst in Hm. discriminate.
        -- exists c'. split; assumption.
Qed.

Lemma ai_check_loop_other logic cs m :
  logic <> trigger.LOGIC_AND -> logic <> trigger.LOGIC_OR ->
  forall results, ai_check_loop logic cs m results = false.
Proof.
  intros Hand Hor. apply String.eqb_neq in Hand, Hor.
  induction cs as [|c cs IH]; intros results; cbn [ai_check_loop].
  - rewrite Hand. destruct results; reflexivity.
  - rewrite Hand, Hor. cbn [andb]. apply IH.
Qed.

(** X13: for an enabled AI trigger with conditions, the verdict of
    [_check_ai_trigger_conditions] reads the monitored map: under AND it is
    true exactly when every condition's id is mapped to true, under OR
    exactly when some condition's id is, a condition that is not in the
    map counting as false; under any other logic it is false; and the
    trigger's [last_checked_time] becomes the current time. *)
Theorem ai_trigger_reads_monitored_map (t : Trigger) now m :
  trigger.enabled t = true -> trigger.conditions t <> [] ->
  let r := (_check_ai_trigger_conditions t now m).1 in
  (trigger.condition_logic t = trigger.LOGIC_AND ->
   (r = true <->
    forall c, c ∈ trigger.conditions t -> m !! condition.id c = Some true)) /\
  (trigger.condition_logic t = trigger.LOGIC_OR ->
   (r = true <->
    exists c, c ∈ trigger.conditions t /\ m !! condition.id c = Some true)) /\
  (trigger.condition_logic t <> trigger.LOGIC_AND ->
   trigger.condition_logic t <> trigger.LOGIC_OR -> r = false) /\
  trigger.last_checked_time (_check_ai_trigger_conditions t now m).2 = now.
Proof.
  intros Hen Hcs. unfold _check_ai_trigger_conditions. rewrite Hen.
  cbn [negb]. destruct (trigger.conditions t) as [|c cs] eqn:Hconds;
    [congruence|].
  cbn [fst snd]. split_and!.
  - intros ->. apply ai_check_loop_and. reflexivity.
  - intros ->. apply ai_check_loop_or.
  - intros Hand Hor. apply ai_check_loop_other; assumption.
  - reflexivity.
Qed.

(** *** The calls a batch of triggered actions makes *)

(** The call an action stands for: none when it has no target, and none
    for [pause_job] and [resume_job]. *)
Definition call_of (a : trigger.TriggerAction) : option job_manager_call :=
  let action_type := trigger.action_type a in
  let target := trigger.target a in
  if String.eqb target "" then None
  else if String.eqb action_type trigger_action.START_JOB then
    Some (start_job target)
  else if String.eqb action_type trigger_action.STOP_JOB then
    Some (if String.eqb (str_lower target) "all"
          then stop_all_running_jobs else stop_job target)
  else if String.eqb action_type trigger_action.SWITCH_PROFILE then
    Some (load_profile target)
  else None.

(** The [i]-th action is the last one of the batch to be looked at: it has
    a target, and it switched the profile without an exception, or the stop
    event is set when it is done with. *)
Definition ends_batch (i : nat) (a : trigger.TriggerAction) : bool :=
  negb (String.eqb (trigger.target a) "")
  && ((String.eqb (trigger.action_type a) trigger_action.SWITCH_PROFILE
       && negb (call_raises i))
      || stop_event_is_set i).

(** A call that names a job or a profile names it with a non-empty
    string. *)
Definition named (c : job_manager_call) : Prop :=
  match c with
  | start_job n | stop_job n | load_profile n => n <> ""
  | stop_all_running_jobs => True
  end.

Definition valid_type (a : trigger.TriggerAction) : Prop :=
  In (trigger.action_type a) trigger_action.VALID_ACTIONS.

Lemma execute_loop_cons i a rest calls :
  str_lower "" <> "all" -> valid_type a ->
  execute_loop i (a :: rest) calls =
  if String.eqb (trigger.target a) "" then execute_loop (S i) rest calls
  else if ends_batch i a then calls ++ option_list (call_of a)
  else execute_loop (S i) rest (calls ++ option_list (call_of a)).
Proof.
  intros Hlower Hvalid. apply String.eqb_neq in Hlower.
  unfold valid_type, trigger_action.VALID_ACTIONS in Hvalid.
  cbn [execute_loop]. unfold ends_batch, call_of, is_valid_target.
  destruct a as [ty tg]. cbn [trigger.action_type trigger.target] in *.
  destruct (String.eqb_spec tg "") as [->|Hne].
  - rewrite Hlower, andb_false_r. cbn [negb orb].
    destruct Hvalid as [<-|[<-|[<-|[<-|[<-|[]]]]]]; reflexivity.
  - cbn [negb orb andb]. rewrite andb_false_r.
    destruct Hvalid as [<-|[<-|[<-|[<-|[<-|[]]]]]];
      cbn; destruct (call_raises i); destruct (stop_event_is_set i);
      try destruct (String.eqb (str_lower tg) "all");
      cbn; rewrite ?app_nil_r; reflexivity.
Qed.

Lemma execute_loop_spec actions :
  str_lower "" <> "all" -> Forall valid_type actions ->
  forall i calls,
    exists k,
      (k <= length actions)%nat /\
      execute_loop i actions calls = calls ++ omap call_of (take k actions) /\
      (forall j a, actions !! j = Some a -> ends_batch (i + j) a = true ->
                   (k <= S j)%nat) /\
      ((k < length actions)%nat ->
       exists j a, k = S j /\ actions !! j = Some a /\
                   ends_batch (i + j) a = true).
Proof.
  intros Hlower. induction 1 as [|a rest Ha _ IH]; intros i calls.
  - exists 0%nat. cbn. rewrite app_nil_r. split_and!; try lia; reflexivity.
  - rewrite (execute_loop_cons _ _ _ _ Hlower Ha).
    assert (Hgo : forall calls',
              calls' = calls ++ option_list (call_of a) ->
              ends_batch i a = false ->
              exists k,
                (k <= length (a :: rest))%nat /\
                execute_loop (S i) rest calls'
                = calls ++ omap call_of (take k (a :: rest)) /\
                (forall j a', (a :: rest) !! j = Some a' ->
                              ends_batch (i + j) a' = true -> (k <= S j)%nat) /\
                ((k < length (a :: rest))%nat ->
                 exists j a', k = S j /\ (a :: rest) !! j = Some a' /\
                              ends_batch (i + j) a' = true)).
    { intros calls' -> Hends.
      destruct (IH (S i) (calls ++ option_list (call_of a)))
        as (k & Hk & Heq & Hmin & Hlast).
      exists (S k). cbn [length take]. split_and!.
      - lia.
      - change (omap call_of (a :: take k rest))
          with (match call_of a with
                | Some y => y :: omap call_of (take k rest)
                | None => omap call_of (take k rest)
                end).
        rewrite Heq, <- app_assoc.
        destruct (call_of a); reflexivity.
      - intros [|j] a' Hj He; cbn in Hj.
        + injection Hj as <-. rewrite Nat.add_0_r in He. congruence.
        + rewrite <- Nat.add_succ_comm in He.
          pose proof (Hmin j a' Hj He). lia.
      - intros Hlt. destruct Hlast as (j & a' & -> & Hj & He); [lia|].
        exists (S j), a'. rewrite <- Nat.add_succ_comm. split_and!;
          [reflexivity|exact Hj|exact He]. }
    destruct (String.eqb (trigger.target a) "") eqn:Htg.
    + apply Hgo.
      * unfold call_of. rewrite Htg. cbn. rewrite app_nil_r. reflexivity.
      * unfold ends_batch. rewrite Htg. reflexivity.
    + destruct (ends_batch i a) eqn:Hends; [|apply Hgo; reflexivity].
      exists 1%nat. cbn [length take]. split_and!.
      * lia.
      * rewrite take_0.
        change (omap call_of [a])
          with (match call_of a with
                | Some y => [y]
                | None => []
                end).
        destruct (call_of a); reflexivity.
      * intros j a' _ _. lia.
      * intros _. exists 0%nat, a. rewrite Nat.add_0_r. split_and!;
          [reflexivity|reflexivity|exact Hends].
Qed.

Lemma call_of_named a c : call_of a = Some c -> named c.
Proof.
  unfold call_of.
  destruct (String.eqb_spec (trigger.target a) "") as [|Hne]; [discriminate|].
  destruct (String.eqb _ trigger_action.START_JOB);
    [intros [= <-]; exact Hne|].
  destruct (String.eqb _ trigger_action.STOP_JOB).
  - destruct (String.eqb _ "all"); intros [= <-]; [exact Logic.I|exact Hne].
  - destruct (String.eqb _ trigger_action.SWITCH_PROFILE);
      [intros [= <-]; exact Hne|discriminate].
Qed.

(** X14: the calls a batch of actions with valid types makes on the job manager
    are those of a prefix of the batch, in order ([call_of]); the prefix
    ends with the first action that has a target and either switched the
    profile without an exception or found the stop event set, and is the
    whole batch when there is none; no call names a job or a profile by
    the empty string; a batch of [pause_job] and [resume_job] actions and
    of actions without a target makes no call; and an observer without a
    job manager makes none. *)
Theorem triggered_actions_call_the_job_manager actions :
  str_lower "" <> "all" -> Forall valid_type actions ->
  let calls := _execute_triggered_actions true actions in
  (exists k,
     (k <= length actions)%nat /\
     calls = omap call_of (take k actions) /\
     (forall j a, actions !! j = Some a -> ends_batch j a = true ->
                  (k <= S j)%nat) /\
     ((k < length actions)%nat ->
      exists j a, k = S j /\ actions !! j = Some a /\
                  ends_batch j a = true)) /\
  Forall named calls /\
  (Forall (fun a => trigger.action_type a = trigger_action.PAUSE_JOB \/
                    trigger.action_type a = trigger_action.RESUME_JOB \/
                    trigger.target a = "") actions ->
   calls = []) /\
  _execute_triggered_actions false actions = [].
Proof.
  intros Hlower Hvalid. cbv zeta. unfold _execute_triggered_actions.
  cbn [negb].
  destruct (execute_loop_spec actions Hlower Hvalid 0 [])
    as (k & Hk & Heq & Hmin & Hlast).
  cbn [app] in Heq. rewrite Heq. split_and!.
  - exists k. split_and!; [exact Hk|reflexivity|exact Hmin|exact Hlast].
  - apply Forall_forall. intros c Hc.
    apply list_elem_of_omap in Hc as (a & _ & Ha).
    exact (call_of_named a c Ha).
  - intros Hquiet.
    assert (Hnone : forall l, Forall
              (fun a => trigger.action_type a = trigger_action.PAUSE_JOB \/
                        trigger.action_type a = trigger_action.RESUME_JOB \/
                        trigger.target a = "") l ->
              omap call_of l = []).
    { induction 1 as [|a l Ha _ IHl]; [reflexivity|].
      change (omap call_of (a :: l))
        with (match call_of a with
              | Some y => y :: omap call_of l
              | None => omap call_of l
              end).
      rewrite IHl. unfold call_of.
      destruct Ha as [-> | [-> | ->]];
        destruct (String.eqb (trigger.target a) ""); reflexivity. }
    apply Hnone. apply Forall_take. exact Hquiet.
  - reflexivity.
Qed.

End Observer.

(** *** Worked observer runs *)

(** [str.lower] on strings without capitals. *)
Definition plain_lower (s : string) : string := s.

Definition door : condition.Condition :=
  {| condition.id := "door"; condition.name := "Door";
     condition.type := "window_exists"; condition.params := [];
     condition.is_monitored_by_ai_brain := true;
     condition._is_valid := true; condition._validation_error := None |}.

Definition bell : condition.Condition :=
  {| condition.id := "bell"; condition.name := "Bell";
     condition.type := "process_exists"; condition.params := [];
     condition.is_monitored_by_ai_brain := true;
     condition._is_valid := true; condition._validation_error := None |}.

Definition door_or_bell : Trigger :=
  {| trigger.name := "ai"; trigger.conditions := [door; bell];
     trigger.condition_logic := trigger.LOGIC_OR;
     trigger.actions := []; trigger.enabled := true;
     trigger.check_interval_seconds := 1 # 2;
     trigger.is_ai_trigger := true; trigger.last_checked_time := 0;
     trigger.last_triggered_time := 0 |}.

(** With only the bell's state true the OR trigger is met. *)
Lemma ai_trigger_reads_monitored_map_witness :
  (_check_ai_trigger_conditions door_or_bell 3 {[ "bell" := true ]}).1
  = true.
Proof.
  apply (proj1 (proj2 (ai_trigger_reads_monitored_map
                         door_or_bell 3 {[ "bell" := true ]}
                         eq_refl ltac:(discriminate))) eq_refl).
  exists bell. split; [right; left|]. apply lookup_singleton_eq.
Defined.

(** A batch that stops every job and switches the profile, after which
    the start action is not looked at. *)
Definition batch : list trigger.TriggerAction :=
  [ {| trigger.action_type := trigger_action.STOP_JOB;
       trigger.target := "all" |};
    {| trigger.action_type := trigger_action.PAUSE_JOB;
       trigger.target := "j1" |};
    {| trigger.action_type := trigger_action.SWITCH_PROFILE;
       trigger.target := "night" |};
    {| trigger.action_type := trigger_action.START_JOB;
       trigger.target := "j2" |} ].

Lemma triggered_actions_call_the_job_manager_witness :
  Forall named
    (_execute_triggered_actions plain_lower (fun _ => false) (fun _ => false)
       true batch).
Proof.
  refine (proj1 (proj2 (triggered_actions_call_the_job_manager
                          plain_lower (fun _ => false) (fun _ => false)
                          batch ltac:(discriminate) _))).
  repeat constructor; unfold valid_type; simpl; tauto.
Defined.

Example batch_calls :
  _execute_triggered_actions plain_lower (fun _ => false) (fun _ => false)
    true batch
  = [stop_all_running_jobs; load_profile "night"].
Proof. reflexivity. Qed.

End observer.

(** ** core/job_manager.py: the key bindings *)

Module job_manager.

(** What the key bindings read of a [Job]. *)
Record Job := {
  name : string;
  hotkey : string;
  stop_key : string;
  enabled : bool;
}.

(** The fields of the [JobManager] that the bindings use.
    [keyboard_calls] counts the calls made to the [keyboard] library. *)
Record bindings := {
  _bound_hotkeys : gmap string string;
  _bound_stopkeys : gmap string string;
  _keyboard_hook_active : bool;
  _is_globally_recording_keys : bool;
  keyboard_calls : nat;
}.

Definition is_bound (key : string) (st : bindings) : bool :=
  bool_decide (is_Some (_bound_hotkeys st !! key))
  || bool_decide (is_Some (_bound_stopkeys st !! key)).

Section Keyboard.

(** [str.strip], [str.lower], and whether the [n]-th call to the
    [keyboard] library, an [add_hotkey] or a [remove_hotkey] for the given
    key, raises. *)
Variable str_strip : string -> string.
Variable str_lower : string -> string.
Variable add_hotkey_raises : nat -> string -> bool.
Variable remove_hotkey_raises : nat -> string -> bool.

(** [key.strip().lower() if key else ""] *)
Definition clean (key : string) : string :=
  if String.eqb key "" then "" else str_lower (str_strip key).

(** One [keyboard.add_hotkey] with the bookkeeping that follows it, for a
    start hotkey or for a stop key. *)
Definition bind_key (as_stopkey : bool) (key job_name : string)
    (st : bindings) : bindings :=
  if is_bound key st then st
  else if add_hotkey_raises (keyboard_calls st) key then
    {| _bound_hotkeys := _bound_hotkeys st;
       _bound_stopkeys := _bound_stopkeys st;
       _keyboard_hook_active := _keyboard_hook_active st;
       _is_globally_recording_keys := _is_globally_recording_keys st;
       keyboard_calls := S (keyboard_calls st) |}
  else
    {| _bound_hotkeys :=
         if as_stopkey then _bound_hotkeys st
         else <[key := job_name]> (_bound_hotkeys st);
       _bound_stopkeys :=
         if as_stopkey then <[key := job_name]> (_bound_stopkeys st)
         else _bound_stopkeys st;
       _keyboard_hook_active := true;
       _is_globally_recording_keys := _is_globally_recording_keys st;
       keyboard_calls := S (keyboard_calls st) |}.

Definition _bind_job_keys (job : Job) (st : bindings) : bindings :=
  if _is_globally_recording_keys st then st
  else if negb (enabled job) then st
  else
    let clean_hotkey := clean (hotkey job) in
    let clean_stopkey := clean (stop_key job) in
    let st1 :=
      if negb (String.eqb clean_hotkey "")
      then bind_key false clean_hotkey (name job) st else st in
    if negb (String.eqb clean_stopkey "")
       && negb (String.eqb clean_stopkey clean_hotkey)
    then bind_key true clean_stopkey (name job) st1 else st1.

(** One [keyboard.remove_hotkey] with the [del] that follows it. *)
Definition unbind_key (as_stopkey : bool) (key job_name : string)
    (st : bindings) : bindings :=
  let bound_to :=
    (if as_stopkey then _bound_stopkeys st else _bound_hotkeys st) !! key in
  if bool_decide (bound_to = Some job_name) then
    if remove_hotkey_raises (keyboard_calls st) key then
      {| _bound_hotkeys := _bound_hotkeys st;
         _bound_stopkeys := _bound_stopkeys st;
         _keyboard_hook_active := _keyboard_hook_active st;
         _is_globally_recording_keys := _is_globally_recording_keys st;
         keyboard_calls := S (keyboard_calls st) |}
    else
      {| _bound_hotkeys :=
           if as_stopkey then _bound_hotkeys st
           else delete key (_bound_hotkeys st);
         _bound_stopkeys :=
           if as_stopkey then delete key (_bound_stopkeys st)
           else _bound_stopkeys st;
         _keyboard_hook_active := _keyboard_hook_active st;
         _is_globally_recording_keys := _is_globally_recording_keys st;
         keyboard_calls := S (keyboard_calls st) |}
  else st.

Definition _unbind_job_keys (job : Job) (st : bindings) : bindings :=
  let clean_hotkey := clean (hotkey job) in
  let clean_stopkey := clean (stop_key job) in
  let st1 :=
    if negb (String.eqb clean_hotkey "")
    then unbind_key false clean_hotkey (name job) st else st in
  if negb (String.eqb clean_stopkey "")
     && negb (String.eqb clean_stopkey clean_hotkey)
  then unbind_key true clean_stopkey (name job) st1 else st1.

(** [_cleanup_bindings_internal]: one [remove_hotkey] for every key that
    is tracked, whatever it does, then both dictionaries are cleared. *)
Definition _cleanup_bindings_internal (st : bindings) : bindings :=
  {| _bound_hotkeys := ∅; _bound_stopkeys := ∅;
     _keyboard_hook_active := _keyboard_hook_active st;
     _is_globally_recording_keys := _is_globally_recording_keys st;
     keyboard_calls :=
       (keyboard_calls st
        + size (dom (_bound_hotkeys st) ∪ dom (_bound_stopkeys st)))%nat |}.

Definition set_hook_active (b : bool) (st : bindings) : bindings :=
  {| _bound_hotkeys := _bound_hotkeys st;
     _bound_stopkeys := _bound_stopkeys st;
     _keyboard_hook_active := b;
     _is_globally_recording_keys := _is_globally_recording_keys st;
     keyboard_calls := keyboard_calls st |}.

Definition set_recording (b : bool) (st : bindings) : bindings :=
  {| _bound_hotkeys := _bound_hotkeys st;
     _bound_stopkeys := _bound_stopkeys st;
     _keyboard_hook_active := _keyboard_hook_active st;
     _is_globally_recording_keys := b;
     keyboard_calls := keyboard_calls st |}.

(** [_bind_all_keys]; [jobs] are the values of [self.jobs], in order. *)
Definition _bind_all_keys (jobs : list Job) (st : bindings) : bindings :=
  let st1 :=
    foldl (fun st job => if enabled job then _bind_job_keys job st else st)
          (_cleanup_bindings_internal st) jobs in
  set_hook_active
    (negb (bool_decide (_bound_hotkeys st1 = ∅))
     || negb (bool_decide (_bound_stopkeys st1 = ∅))) st1.

Definition cleanup_bindings (st : bindings) : bindings :=
  set_hook_active false (_cleanup_bindings_internal st).

Definition handle_global_key_hook_state_change (jobs : list Job)
    (is_hook_being_taken_by_recorder : bool) (st : bindings) : bindings :=
  if is_hook_being_taken_by_recorder then
    if negb (_is_globally_recording_keys st)
    then set_recording true (_cleanup_bindings_internal st) else st
  else
    if _is_globally_recording_keys st
    then _bind_all_keys jobs (set_recording false st) else st.

(** No key is tracked both as a start hotkey and as a stop key, and keys
    are tracked only while the hook flag is set. *)
Definition bindings_ok (st : bindings) : Prop :=
  (forall k, _bound_hotkeys st !! k = None \/ _bound_stopkeys st !! k = None)
  /\
  (_keyboard_hook_active st = false ->
   _bound_hotkeys st = ∅ /\ _bound_stopkeys st = ∅).

Lemma is_bound_false key st :
  is_bound key st = false ->
  _bound_hotkeys st !! key = None /\ _bound_stopkeys st !! key = None.
Proof.
  unfold is_bound. intros H. apply orb_false_iff in H as [Hh Hs].
  apply bool_decide_eq_false in Hh, Hs.
  split; apply eq_None_not_Some; assumption.
Qed.

Lemma bind_key_ok as_stopkey key job_name st :
  bindings_ok st -> bindings_ok (bind_key as_stopkey key job_name st).
Proof.
  intros [Hdis Hhook]. unfold bind_key.
  destruct (is_bound key st) eqn:Hbound; [split; assumption|].
  apply is_bound_false in Hbound as [Hh Hs].
  destruct (add_hotkey_raises _ _); [split; assumption|].
  split; cbn; [|discriminate].
  intros k. destruct (String.eqb_spec key k) as [<-|Hne].
  - destruct as_stopkey; [left|right]; assumption.
  - destruct as_stopkey; rewrite lookup_insert_ne by exact Hne; apply Hdis.
Qed.

Lemma bind_key_keeps as_stopkey key job_name st k v :
  (_bound_hotkeys st !! k = Some v ->
   _bound_hotkeys (bind_key as_stopkey key job_name st) !! k = Some v) /\
  (_bound_stopkeys st !! k = Some v ->
   _bound_stopkeys (bind_key as_stopkey key job_name st) !! k = Some v).
Proof.
  unfold bind_key.
  destruct (is_bound key st) eqn:Hbound; [split; trivial|].
  apply is_bound_false in Hbound as [Hh Hs].
  destruct (add_hotkey_raises _ _); [split; trivial|].
  split; cbn; intros Hk; destruct as_stopkey; try exact Hk;
    rewrite lookup_insert_ne; try exact Hk; congruence.
Qed.

Lemma unbind_key_ok as_stopkey key job_name st :
  bindings_ok st -> bindings_ok (unbind_key as_stopkey key job_name st).
Proof.
  intros [Hdis Hhook]. unfold unbind_key.
  destruct (bool_decide _); [|split; assumption].
  destruct (remove_hotkey_raises _ _); [split; assumption|].
  split; cbn.
  - intros k. destruct (Hdis k) as [Hk|Hk]; destruct as_stopkey; auto;
      [left|right]; apply lookup_delete_None; auto.
  - intros Hoff. destruct (Hhook Hoff) as [-> ->].
    destruct as_stopkey; rewrite delete_empty; split; reflexivity.
Qed.

Lemma bind_job_ok job st :
  bindings_ok st -> bindings_ok (_bind_job_keys job st).
Proof.
  intros Hst. unfold _bind_job_keys.
  destruct (_is_globally_recording_keys st); [exact Hst|].
  destruct (negb (enabled job)); [exact Hst|].
  assert (H1 : bindings_ok
                 (if negb (String.eqb (clean (hotkey job)) "")
                  then bind_key false (clean (hotkey job)) (name job) st
                  else st)).
  { destruct (negb _); [apply bind_key_ok|]; exact Hst. }
  destruct (negb _ && negb _); [apply bind_key_ok|]; exact H1.
Qed.

Lemma unbind_job_ok job st :
  bindings_ok st -> bindings_ok (_unbind_job_keys job st).
Proof.
  intros Hst. unfold _unbind_job_keys.
  assert (H1 : bindings_ok
                 (if negb (String.eqb (clean (hotkey job)) "")
                  then unbind_key false (clean (hotkey job)) (name job) st
                  else st)).
  { destruct (negb _); [apply unbind_key_ok|]; exact Hst. }
  destruct (negb _ && negb _); [apply unbind_key_ok|]; exact H1.
Qed.

Lemma cleanup_internal_ok st :
  (forall k, _bound_hotkeys (_cleanup_bindings_internal st) !! k = None) /\
  bindings_ok (_cleanup_bindings_internal st).
Proof.
  split; [intros k; apply lookup_empty|].
  split; cbn; [intros k; left; apply lookup_empty|]. intros _.
  split; reflexivity.
Qed.

Lemma bind_all_ok jobs st : bindings_ok (_bind_all_keys jobs st).
Proof.
  unfold _bind_all_keys.
  assert (Hfold : forall st0, bindings_ok st0 ->
            bindings_ok
              (foldl (fun st job =>
                        if enabled job then _bind_job_keys job st else st)
                     st0 jobs)).
  { induction jobs as [|job jobs IH]; intros st0 H0; [exact H0|].
    cbn [foldl]. apply IH. destruct (enabled job); [apply bind_job_ok|];
      exact H0. }
  destruct (Hfold _ (proj2 (cleanup_internal_ok st))) as [Hdis _].
  split; cbn; [exact Hdis|]. intros Hoff.
  apply orb_false_iff in Hoff as [Hh Hs].
  apply negb_false_iff in Hh, Hs. apply bool_decide_eq_true in Hh, Hs.
  split; assumption.
Qed.

(** X18: binding and unbinding a job's keys, binding all keys, cleaning up, and
    handing the keyboard hook to a recorder and taking it back each keep
    the tracked keys consistent: no key is both a start hotkey and a stop
    key, and none is tracked while the hook flag is off.  Binding never
    takes a key from the job that holds it, and binds nothing while a
    recorder holds the hook. *)
Theorem key_bindings_stay_consistent jobs job st :
  bindings_ok st ->
  bindings_ok (_bind_job_keys job st) /\
  bindings_ok (_unbind_job_keys job st) /\
  bindings_ok (_bind_all_keys jobs st) /\
  bindings_ok (cleanup_bindings st) /\
  (forall taken,
     bindings_ok (handle_global_key_hook_state_change jobs taken st)) /\
  (forall k v,
     (_bound_hotkeys st !! k = Some v ->
      _bound_hotkeys (_bind_job_keys job st) !! k = Some v) /\
     (_bound_stopkeys st !! k = Some v ->
      _bound_stopkeys (_bind_job_keys job st) !! k = Some v)) /\
  (_is_globally_recording_keys st = true -> _bind_job_keys job st = st).
Proof.
  intros Hst. split_and!.
  - apply bind_job_ok, Hst.
  - apply unbind_job_ok, Hst.
  - apply bind_all_ok.
  - split; cbn; [intros k; left; apply lookup_empty|].
    intros _. split; reflexivity.
  - intros [|]; unfold handle_global_key_hook_state_change.
    + destruct (negb _); [|exact Hst].
      split; cbn; [intros k; left; apply lookup_empty|].
      intros _. split; reflexivity.
    + destruct (_is_globally_recording_keys st); [apply bind_all_ok|exact Hst].
  - intros k v. unfold _bind_job_keys.
    destruct (_is_globally_recording_keys st); [split; trivial|].
    destruct (negb (enabled job)); [split; trivial|].
    set (st1 := if negb (String.eqb (clean (hotkey job)) "")
                then bind_key false (clean (hotkey job)) (name job) st
                else st).
    assert (H1 : (_bound_hotkeys st !! k = Some v ->
                  _bound_hotkeys st1 !! k = Some v) /\
                 (_bound_stopkeys st !! k = Some v ->
                  _bound_stopkeys st1 !! k = Some v)).
    { subst st1. destruct (negb _); [apply bind_key_keeps|split; trivial]. }
    destruct H1 as [Hh Hs].
    destruct (negb _ && negb _); [|split; assumption].
    split; intros Hk;
      [apply (bind_key_keeps true _ _ st1 k v), Hh, Hk
      |apply (bind_key_keeps true _ _ st1 k v), Hs, Hk].
  - intros Hrec. unfold _bind_job_keys. rewrite Hrec. reflexivity.
Qed.

End Keyboard.

(** *** Two jobs that ask for the same key *)

Definition no_bindings : bindings :=
  {| _bound_hotkeys := ∅; _bound_stopkeys := ∅;
     _keyboard_hook_active := false; _is_globally_recording_keys := false;
     keyboard_calls := 0 |}.

Lemma no_bindings_ok : bindings_ok no_bindings.
Proof. split; [intros k; left; apply lookup_empty|split; reflexivity]. Qed.

Definition first_job : Job :=
  {| name := "first"; hotkey := "f8"; stop_key := "f9"; enabled := true |}.

(** The second job wants as its stop key the first job's start hotkey. *)
Definition second_job : Job :=
  {| name := "second"; hotkey := "f7"; stop_key := "f8"; enabled := true |}.

Definition keyboard_accepts (n : nat) (key : string) : bool := false.

Lemma key_bindings_stay_consistent_witness :
  bindings_ok
    (_bind_all_keys (fun s => s) (fun s => s) keyboard_accepts
       [first_job; second_job] no_bindings).
Proof.
  exact (proj1 (proj2 (proj2 (key_bindings_stay_consistent
                                (fun s => s) (fun s => s)
                                keyboard_accepts keyboard_accepts
                                [first_job; second_job] first_job
                                no_bindings no_bindings_ok)))).
Defined.

End job_manager.

(** ** python_csharp_bridge.py *)

Module python_csharp_bridge.

Definition ERROR_BROKEN_PIPE : Z := 109.
Definition ERROR_NO_DATA : Z := 232.

(** What [WriteFile] and one [ReadFile] give: the bytes read (none when the
    pipe was closed), or the exception raised, a [pywintypes.error] being
    [Win32Error]. *)
Inductive write_result :=
| Written
| WriteRaises (e : exn).

Inductive read_result :=
| Data (data_read : list byte)
| ReadRaises (e : exn).

(** One [CreateFile] of the connect loop: a handle, valid or not, or an
    exception. *)
Inductive connect_attempt :=
| Opened (valid : bool)
| ConnectRaises (e : exn).

Definition ERROR_FILE_NOT_FOUND : Z := 2.
Definition ERROR_PIPE_BUSY : Z := 231.

(** The world of one request.  [connect_attempts] and [reads] are the
    [CreateFile] and [ReadFile] calls the two loops get to make before
    [time.monotonic()] passes their timeouts; [platform_ok] is
    [_IS_WINDOWS and _WinPipeAvailable], [serializable] whether
    [json.dumps] accepts the request. *)
Record world := {
  platform_ok : bool;
  connect_attempts : list connect_attempt;
  serializable : bool;
  write : write_result;
  reads : list read_result;
}.

(** [_connect_to_pipe]: whether the handle it returns is a valid one. *)
Fixpoint _connect_to_pipe (attempts : list connect_attempt) : bool :=
  match attempts with
  | [] => false
  | Opened true :: _ => true
  | Opened false :: rest => _connect_to_pipe rest
  | ConnectRaises (Win32Error code) :: rest =>
      if (code =? ERROR_PIPE_BUSY) || (code =? ERROR_FILE_NOT_FOUND)
      then _connect_to_pipe rest else false
  | ConnectRaises _ :: _ => false
  end.

Definition connected (w : world) : bool :=
  _connect_to_pipe (connect_attempts w).

(** [response_buffer.find(b'\n')] *)
Fixpoint find_newline (buffer : list byte) : option nat :=
  match buffer with
  | [] => None
  | b :: rest =>
      if Byte.eqb b x0a then Some O else S <$> find_newline rest
  end.

(** The handlers around [ReadFile] and the line split: a broken pipe becomes
    [ConnectionAbortedError], every other exception an [IOError], which is
    [OSError]. *)
Definition read_handler (e : exn) : exn :=
  match e with
  | Win32Error code =>
      if code =? ERROR_BROKEN_PIPE then ConnectionAbortedError else OSError
  | _ => OSError
  end.

(** The handlers around [WriteFile]. *)
Definition write_handler (e : exn) : exn :=
  match e with
  | Win32Error code =>
      if (code =? ERROR_BROKEN_PIPE) || (code =? ERROR_NO_DATA)
      then ConnectionAbortedError else OSError
  | _ => OSError
  end.

(** The last handlers of [_send_request]: the listed classes and their
    subclasses pass, anything else becomes [RuntimeError]. *)
Definition outer_handler (e : exn) : exn :=
  match e with
  | ConnectionRefusedError | ConnectionAbortedError | OSError | TimeoutError
  | ValueError | UnicodeDecodeError | JSONDecodeError | RuntimeError => e
  | _ => RuntimeError
  end.

Section SendRequest.

(** [bytes.decode('utf-8')] and [json.loads], each [None] where it raises
    its decode error. *)
Variable utf8_decode : list byte -> option string.
Variable json_loads : string -> option pyval.

(** The body of one pass of the read loop, before its handlers: the loop
    goes on ([inl] the buffer), or leaves through a [break] ([inr] the line,
    if any, and the buffer). *)
Definition read_body (response_buffer : list byte) (r : read_result)
    : result (list byte + (option string * list byte)) :=
  match r with
  | ReadRaises e => Raise e
  | Data [] =>
      match response_buffer with
      | [] => Raise ConnectionAbortedError
      | _ => Ok (inr (None, response_buffer))
      end
  | Data data_read =>
      let buffer := response_buffer ++ data_read in
      match find_newline buffer with
      | Some newline_index =>
          match utf8_decode (take newline_index buffer) with
          | Some response_json_line =>
              Ok (inr (Some response_json_line,
                       drop (S newline_index) buffer))
          | None => Raise ValueError
          end
      | None => Ok (inl buffer)
      end
  end.

(** The read loop: [response_json_line] and what is left in the buffer. *)
Fixpoint read_loop (response_buffer : list byte) (rs : list read_result)
    : result (option string * list byte) :=
  match rs with
  | [] => Ok (None, response_buffer)
  | r :: rest =>
      match read_body response_buffer r with
      | Raise e => Raise (read_handler e)
      | Ok (inl buffer) => read_loop buffer rest
      | Ok (inr done) => Ok done
      end
  end.

(** The envelope: [Status], [Message], [Result]. *)
Definition interpret_response (response_json_line : string) : result pyval :=
  match json_loads response_json_line with
  | None => Raise ValueError
  | Some (PyDict response) =>
      match dict_get "Status" response with
      | Some (PyStr status) =>
          if String.eqb status "Success"
          then Ok (dict_get_default "Result" PyNone response)
          else if String.eqb status "Error" then Raise RuntimeError
          else Raise ValueError
      | _ => Raise ValueError
      end
  | Some _ => Raise AttributeError
  end.

Definition _send_request (w : world) : result pyval :=
  if negb (platform_ok w) then Raise OSError
  else
    let outcome :=
      if negb (connected w) then Raise ConnectionRefusedError
      else if negb (serializable w) then Raise ValueError
      else
        match write w with
        | WriteRaises e => Raise (write_handler e)
        | Written =>
            match read_loop [] (reads w) with
            | Raise e => Raise e
            | Ok (Some response_json_line, response_buffer) =>
                if String.eqb response_json_line "" then Raise TimeoutError
                else interpret_response response_json_line
            | Ok (None, _) => Raise TimeoutError
            end
        end in
    match outcome with
    | Ok result => Ok result
    | Raise e => Raise (outer_handler e)
    end.

(** A world in which the request goes out and the pipe then delivers
    [chunks]. *)
Definition answering (chunks : list read_result) : world :=
  {| platform_ok := true; connect_attempts := [Opened true];
     serializable := true; write := Written; reads := chunks |}.

(** [bool(s)] for an argument that is a string or [None]. *)
Definition given (s : option string) : bool :=
  match s with
  | Some s => negb (String.eqb s "")
  | None => false
  end.

(** What [check_window_exists] and [check_process_exists] make of the
    result of their request. *)
Definition exists_flag (result : pyval) : bool :=
  match result with
  | PyDict d =>
      match dict_get "exists" d with
      | Some (PyBool exists_) => exists_
      | _ => false
      end
  | _ => false
  end.

Definition check_window_exists (window_title class_name : option string)
    (w : world) : result bool :=
  if negb (given window_title) && negb (given class_name) then Ok false
  else
    result <- _send_request w ;;;
    Ok (exists_flag result).

Definition check_process_exists (process_name : string) (w : world)
    : result bool :=
  if String.eqb process_name "" then Ok false
  else
    result <- _send_request w ;;;
    Ok (exists_flag result).

(** The parts of C9 that hold: no connection, no line within the timeout,
    and a well-formed envelope with each status. *)
Lemma refused_connection w :
  platform_ok w = true -> connected w = false ->
  _send_request w = Raise ConnectionRefusedError.
Proof. unfold _send_request. intros -> ->. reflexivity. Qed.

Lemma find_newline_none_app b1 b2 :
  find_newline b1 = None -> find_newline b2 = None ->
  find_newline (b1 ++ b2) = None.
Proof.
  intros H1 H2. induction b1 as [|b b1 IH]; simpl in *; [exact H2|].
  destruct (Byte.eqb b x0a); [discriminate|].
  destruct (find_newline b1); [discriminate|]. rewrite IH; reflexivity.
Qed.

Lemma read_loop_without_newline chunks :
  Forall (fun r => exists bs, r = Data bs /\ bs <> []
                              /\ find_newline bs = None) chunks ->
  forall buffer, find_newline buffer = None ->
  exists rest, read_loop buffer chunks = Ok (None, rest).
Proof.
  induction 1 as [|r chunks (bs & -> & Hne & Hnl) _ IH]; intros buffer Hb;
    simpl.
  - eexists; reflexivity.
  - destruct bs as [|b bs]; [congruence|].
    rewrite (find_newline_none_app _ _ Hb Hnl). apply IH.
    apply find_newline_none_app; assumption.
Qed.

Lemma timeout_without_line chunks :
  Forall (fun r => exists bs, r = Data bs /\ bs <> []
                              /\ find_newline bs = None) chunks ->
  _send_request (answering chunks) = Raise TimeoutError.
Proof.
  intros H. unfold _send_request. simpl.
  destruct (read_loop_without_newline chunks H [] eq_refl) as [rest ->].
  reflexivity.
Qed.

Lemma find_newline_at_end bs :
  find_newline bs = None -> find_newline (bs ++ [x0a]) = Some (length bs).
Proof.
  induction bs as [|b bs IH]; simpl; [reflexivity|].
  destruct (Byte.eqb b x0a); [discriminate|].
  destruct (find_newline bs); [discriminate|].
  intros _. rewrite IH; reflexivity.
Qed.

(** One read that brings exactly one line. *)
Lemma read_one_line line_bytes :
  line_bytes <> [] ->
  find_newline line_bytes = None ->
  read_loop [] [Data (line_bytes ++ [x0a])] =
  match utf8_decode line_bytes with
  | Some line => Ok (Some line, [])
  | None => Raise OSError
  end.
Proof.
  intros Hne Hnl. destruct line_bytes as [|b bs]; [congruence|].
  cbn [read_loop read_body app].
  change (b :: bs ++ [x0a]) with ((b :: bs) ++ [x0a]).
  rewrite (find_newline_at_end _ Hnl), take_app_length.
  destruct (utf8_decode (b :: bs)); [|reflexivity].
  rewrite drop_ge by (rewrite length_app; simpl; lia). reflexivity.
Qed.

Lemma envelope_statuses line_bytes line response :
  line_bytes <> [] ->
  find_newline line_bytes = None ->
  utf8_decode line_bytes = Some line ->
  line <> "" ->
  json_loads line = Some (PyDict response) ->
  _send_request (answering [Data (line_bytes ++ [x0a])]) =
  match dict_get "Status" response with
  | Some (PyStr status) =>
      if String.eqb status "Success"
      then Ok (dict_get_default "Result" PyNone response)
      else if String.eqb status "Error" then Raise RuntimeError
      else Raise ValueError
  | _ => Raise ValueError
  end.
Proof.
  intros Hne Hnl Hdec Hline Hjson. unfold _send_request, answering, connected.
  cbn [platform_ok connect_attempts _connect_to_pipe serializable write
       reads negb].
  rewrite (read_one_line _ Hne Hnl), Hdec.
  apply String.eqb_neq in Hline. rewrite Hline.
  unfold interpret_response. rewrite Hjson.
  destruct (dict_get "Status" response) as [[| | | |status| |]|];
    try reflexivity.
  destruct (String.eqb status "Success"); [reflexivity|].
  destruct (String.eqb status "Error"); reflexivity.
Qed.

Lemma malformed_json line_bytes line :
  line_bytes <> [] ->
  find_newline line_bytes = None ->
  utf8_decode line_bytes = Some line ->
  line <> "" ->
  json_loads line = None ->
  _send_request (answering [Data (line_bytes ++ [x0a])]) = Raise ValueError.
Proof.
  intros Hne Hnl Hdec Hline Hjson. unfold _send_request, answering, connected.
  cbn [platform_ok connect_attempts _connect_to_pipe serializable write
       reads negb].
  rewrite (read_one_line _ Hne Hnl), Hdec.
  apply String.eqb_neq in Hline. rewrite Hline.
  unfold interpret_response. rewrite Hjson. reflexivity.
Qed.

(** X1: the typed outcomes of a request: a pipe that cannot be connected raises
    [ConnectionRefusedError]; reads that bring no newline before the timeout
    raise [TimeoutError]; a non-empty UTF-8 line raises [ValueError] when it
    is not JSON, and when it is a JSON object returns [Result] on status
    ["Success"], raises [RuntimeError] on ["Error"] and [ValueError] on any
    other status. *)
Theorem send_request_typed_outcomes :
  (forall w, platform_ok w = true -> connected w = false ->
             _send_request w = Raise ConnectionRefusedError) /\
  (forall chunks,
     Forall (fun r => exists bs, r = Data bs /\ bs <> []
                                 /\ find_newline bs = None) chunks ->
     _send_request (answering chunks) = Raise TimeoutError) /\
  (forall line_bytes line,
     line_bytes <> [] -> find_newline line_bytes = None ->
     utf8_decode line_bytes = Some line -> line <> "" ->
     (json_loads line = None ->
      _send_request (answering [Data (line_bytes ++ [x0a])])
      = Raise ValueError) /\
     (forall response,
        json_loads line = Some (PyDict response) ->
        _send_request (answering [Data (line_bytes ++ [x0a])]) =
        match dict_get "Status" response with
        | Some (PyStr status) =>
            if String.eqb status "Success"
            then Ok (dict_get_default "Result" PyNone response)
            else if String.eqb status "Error" then Raise RuntimeError
            else Raise ValueError
        | _ => Raise ValueError
        end)).
Proof.
  split; [exact refused_connection|split; [exact timeout_without_line|]].
  intros line_bytes line Hne Hnl Hdec Hline. split.
  - apply malformed_json; assumption.
  - intros response. apply envelope_statuses; assumption.
Qed.

(** C9 fails on the code for three response lines that are not a JSON
    envelope: an empty line is reported as a timeout, bytes that are not
    UTF-8 leave as [OSError] (the [ValueError] raised for them is caught by
    the read loop's own catch-all), and JSON that is not an object leaves
    as [RuntimeError]. *)
Theorem malformed_lines_do_not_raise_ValueError
    bad_bytes array_bytes array_line v :
  utf8_decode [] = Some "" ->
  bad_bytes <> [] -> find_newline bad_bytes = None ->
  utf8_decode bad_bytes = None ->
  array_bytes <> [] -> find_newline array_bytes = None ->
  utf8_decode array_bytes = Some array_line -> array_line <> "" ->
  json_loads array_line = Some (PyList v) ->
  _send_request (answering [Data [x0a]]) = Raise TimeoutError /\
  _send_request (answering [Data (bad_bytes ++ [x0a])]) = Raise OSError /\
  _send_request (answering [Data (array_bytes ++ [x0a])])
  = Raise RuntimeError.
Proof.
  intros Hempty Hbad Hbadnl Hbaddec Harr Harrnl Harrdec Hline Hjson.
  unfold _send_request, answering, connected.
  cbn [platform_ok connect_attempts _connect_to_pipe serializable write
       reads negb].
  repeat split.
  - cbn [read_loop read_body app find_newline Byte.eqb take drop].
    simpl. rewrite Hempty. reflexivity.
  - rewrite (read_one_line _ Hbad Hbadnl), Hbaddec. reflexivity.
  - rewrite (read_one_line _ Harr Harrnl), Harrdec.
    apply String.eqb_neq in Hline. rewrite Hline.
    unfold interpret_response. rewrite Hjson. reflexivity.
Qed.

(** *** The exceptions a request can leave with *)

Lemma read_loop_raises rs :
  forall buffer e,
    read_loop buffer rs = Raise e ->
    e = ConnectionAbortedError \/ e = OSError.
Proof.
  induction rs as [|r rs IH]; intros buffer e; cbn [read_loop];
    [discriminate|].
  destruct (read_body buffer r) as [[next|done]|e0].
  - apply IH.
  - discriminate.
  - intros [= <-]. unfold read_handler.
    destruct e0; auto. destruct (winerror =? ERROR_BROKEN_PIPE); auto.
Qed.

(** X15: whatever the pipe and the service do, an exception that leaves
    [_send_request] is an [OSError] (which [IOError] is), a
    [ConnectionRefusedError], a [ConnectionAbortedError], a [TimeoutError],
    a [ValueError] or a [RuntimeError]; and on a platform without named
    pipes it is an [OSError] whatever else the world holds. *)
Theorem send_request_raises_only_documented_errors w :
  match _send_request w with
  | Ok _ => True
  | Raise e =>
      In e [OSError; ConnectionRefusedError; ConnectionAbortedError;
            TimeoutError; ValueError; RuntimeError]
  end /\
  (platform_ok w = false -> _send_request w = Raise OSError).
Proof.
  split; [|unfold _send_request; intros ->; reflexivity].
  unfold _send_request.
  destruct (platform_ok w); cbn [negb]; [|simpl; tauto].
  destruct (connected w); cbn [negb]; [|simpl; tauto].
  destruct (serializable w); cbn [negb]; [|simpl; tauto].
  destruct (write w) as [|e].
  - destruct (read_loop [] (reads w)) as [[[line|] buffer]|e] eqn:Hread.
    + destruct (String.eqb line ""); [simpl; tauto|].
      unfold interpret_response.
      destruct (json_loads line) as [[| | | | | |response]|];
        try (simpl; tauto).
      destruct (dict_get "Status" response) as [[| | | |status| |]|];
        try (simpl; tauto).
      destruct (String.eqb status "Success"); [exact Logic.I|].
      destruct (String.eqb status "Error"); simpl; tauto.
    + simpl; tauto.
    + destruct (read_loop_raises _ _ _ Hread) as [-> | ->]; simpl; tauto.
  - unfold write_handler. destruct e; try (simpl; tauto).
    destruct ((winerror =? ERROR_BROKEN_PIPE) || (winerror =? ERROR_NO_DATA));
      simpl; tauto.
Qed.

(** *** A line that arrives in pieces *)

Lemma find_newline_app_found b1 b2 i :
  find_newline b1 = None -> find_newline b2 = Some i ->
  find_newline (b1 ++ b2) = Some (length b1 + i)%nat.
Proof.
  intros H1 H2. induction b1 as [|b b1 IH]; simpl in *; [exact H2|].
  destruct (Byte.eqb b x0a); [discriminate|].
  destruct (find_newline b1); [discriminate|]. rewrite IH; reflexivity.
Qed.

(** Reads that bring no newline, then one that brings the first newline at
    position [i]: the line is everything before that newline, the bytes
    after it stay in the buffer, and the reads that would follow are
    never made. *)
Lemma read_loop_reassembles cs last i later :
  Forall (fun c => c <> [] /\ find_newline c = None) cs ->
  find_newline last = Some i ->
  forall buffer,
    find_newline buffer = None ->
    read_loop buffer ((Data <$> cs) ++ Data last :: later) =
    match utf8_decode (buffer ++ concat cs ++ take i last) with
    | Some line => Ok (Some line, drop (S i) last)
    | None => Raise OSError
    end.
Proof.
  intros Hcs Hlast.
  induction Hcs as [|c cs [Hne Hnl] _ IH]; intros buffer Hbuf.
  - cbn [fmap list_fmap app concat read_loop].
    destruct last as [|b last']; [discriminate|].
    cbn [read_body].
    rewrite (find_newline_app_found _ _ _ Hbuf Hlast).
    rewrite take_app_add, <- Nat.add_succ_r, drop_app_add.
    destruct (utf8_decode _); reflexivity.
  - cbn [fmap list_fmap app concat read_loop].
    destruct c as [|b c']; [congruence|].
    cbn [read_body].
    rewrite (find_newline_none_app _ _ Hbuf Hnl).
    change (list_fmap _ _ Data cs) with (Data <$> cs).
    rewrite IH by (apply find_newline_none_app; assumption).
    rewrite <- !app_assoc. reflexivity.
Qed.

(** X16: the answer to a request does not depend on how the pipe cuts the
    response into reads, nor on what follows the first newline: two
    deliveries of the same bytes up to the first newline get the same
    result or the same exception. *)
Theorem response_is_independent_of_chunking
    cs last i later cs' last' i' later' :
  Forall (fun c => c <> [] /\ find_newline c = None) cs ->
  find_newline last = Some i ->
  Forall (fun c => c <> [] /\ find_newline c = None) cs' ->
  find_newline last' = Some i' ->
  concat cs ++ take i last = concat cs' ++ take i' last' ->
  _send_request (answering ((Data <$> cs) ++ Data last :: later)) =
  _send_request (answering ((Data <$> cs') ++ Data last' :: later')).
Proof.
  intros Hcs Hlast Hcs' Hlast' Hsame.
  unfold _send_request, answering, connected.
  cbn [platform_ok connect_attempts _connect_to_pipe serializable write
       reads negb].
  rewrite (read_loop_reassembles cs last i later Hcs Hlast [] eq_refl),
    (read_loop_reassembles cs' last' i' later' Hcs' Hlast' [] eq_refl).
  cbn [app]. rewrite Hsame.
  destruct (utf8_decode _); reflexivity.
Qed.

(** *** Connecting *)

(** An attempt after which the connect loop tries again: an invalid handle,
    or a [pywintypes.error] for a busy or a missing pipe. *)
Definition retried (a : connect_attempt) : Prop :=
  a = Opened false \/
  a = ConnectRaises (Win32Error ERROR_PIPE_BUSY) \/
  a = ConnectRaises (Win32Error ERROR_FILE_NOT_FOUND).

(** X17: [_connect_to_pipe] returns a valid handle exactly when some attempt
    within the timeout opens one and every attempt before it was one the
    loop retries; any other exception ends the loop without a handle. *)
Theorem connect_retries_until_a_handle attempts :
  _connect_to_pipe attempts = true <->
  exists pre post,
    attempts = pre ++ Opened true :: post /\ Forall retried pre.
Proof.
  induction attempts as [|a attempts IH].
  - split; [discriminate|]. intros (pre & post & Heq & _).
    destruct pre; discriminate.
  - assert (Hretry : retried a ->
              (_connect_to_pipe attempts = true <->
               exists pre post,
                 a :: attempts = pre ++ Opened true :: post /\
                 Forall retried pre)).
    { intros Ha. rewrite IH. split.
      - intros (pre & post & -> & Hpre). exists (a :: pre), post.
        split; [reflexivity|constructor; assumption].
      - intros ([|a' pre] & post & Heq & Hpre).
        + injection Heq as -> _.
          destruct Ha as [Ha|[Ha|Ha]]; discriminate.
        + injection Heq as -> ->. exists pre, post.
          split; [reflexivity|]. inversion Hpre; assumption. }
    assert (Hstop : ~ retried a -> a <> Opened true ->
              ~ exists pre post,
                  a :: attempts = pre ++ Opened true :: post /\
                  Forall retried pre).
    { intros Hna Hne ([|a' pre] & post & Heq & Hpre).
      - injection Heq as -> _. congruence.
      - injection Heq as -> _. inversion Hpre; contradiction. }
    destruct a as [[|]|e]; cbn [_connect_to_pipe].
    + split; [intros _|reflexivity]. exists [], attempts.
      split; [reflexivity|constructor].
    + apply Hretry. left. reflexivity.
    + destruct e;
        try (split; [discriminate|];
             intros H; exfalso; revert H; apply Hstop;
             [intros [H|[H|H]]|]; discriminate).
      destruct ((winerror =? ERROR_PIPE_BUSY)
                || (winerror =? ERROR_FILE_NOT_FOUND)) eqn:Hcode.
      * apply Hretry. apply orb_true_iff in Hcode as [H|H];
          apply Z.eqb_eq in H; subst; [right; left|right; right]; reflexivity.
      * split; [discriminate|].
        intros H; exfalso; revert H; apply Hstop; [|discriminate].
        apply orb_false_iff in Hcode as [H1 H2].
        apply Z.eqb_neq in H1, H2.
        intros [H|[H|H]]; [discriminate|injection H|injection H]; congruence.
Qed.

End SendRequest.

(** *** Worked responses *)

(** Decoders for the worked responses: ASCII bytes decode to themselves and
    nothing else decodes; of the JSON texts only the empty array is
    known. *)
Fixpoint ascii_decode (bs : list byte) : option string :=
  match bs with
  | [] => Some EmptyString
  | b :: rest =>
      if (Byte.to_N b <? 128)%N
      then String (ascii_of_byte b) <$> ascii_decode rest
      else None
  end.

Definition empty_array_loads (line : string) : option pyval :=
  if String.eqb line "[]" then Some (PyList []) else None.

(** C9 on an empty line, on the byte FF, and on the line [[]]. *)
Lemma malformed_lines_do_not_raise_ValueError_witness :
  _send_request ascii_decode empty_array_loads (answering [Data [x0a]])
  = Raise TimeoutError /\
  _send_request ascii_decode empty_array_loads (answering [Data [xff; x0a]])
  = Raise OSError /\
  _send_request ascii_decode empty_array_loads
    (answering [Data [x5b; x5d; x0a]])
  = Raise RuntimeError.
Proof.
  exact (malformed_lines_do_not_raise_ValueError
           ascii_decode empty_array_loads [xff] [x5b; x5d] "[]" []
           eq_refl ltac:(discriminate) eq_refl eq_refl
           ltac:(discriminate) eq_refl eq_refl ltac:(discriminate) eq_refl).
Defined.

(** A well-formed envelope, for comparison. *)
Definition envelope_loads (line : string) : option pyval :=
  if String.eqb line "ok"
  then Some (PyDict [("Status", PyStr "Success"); ("Result", PyInt 7)])
  else None.

(** The typed outcomes on the line [ok], which [envelope_loads] reads as a
    success envelope with result 7. *)
Lemma send_request_typed_outcomes_witness :
  _send_request ascii_decode envelope_loads (answering [Data [x6f; x6b; x0a]])
  = Ok (PyInt 7).
Proof.
  exact (proj2 (proj2 (proj2 (send_request_typed_outcomes
                               ascii_decode envelope_loads))
                      [x6f; x6b] "ok" ltac:(discriminate) eq_refl eq_refl
                      ltac:(discriminate))
               _ eq_refl).
Defined.

(** The line [ok] delivered in two reads, and in one read together with a
    byte that follows the newline. *)
Lemma response_is_independent_of_chunking_witness :
  _send_request ascii_decode envelope_loads
    (answering [Data [x6f]; Data [x6b; x0a]]) =
  _send_request ascii_decode envelope_loads
    (answering [Data [x6f; x6b; x0a; x41]]).
Proof.
  refine (response_is_independent_of_chunking
            ascii_decode envelope_loads
            [[x6f]] [x6b; x0a] 1 [] [] [x6f; x6b; x0a; x41] 2 []
            _ eq_refl _ eq_refl eq_refl).
  - constructor; [split; [discriminate|reflexivity]|constructor].
  - constructor.
Defined.

End python_csharp_bridge.

(** ** core/condition.py: [WindowExistsCondition] and
    [ProcessExistsCondition] *)

Module os_conditions.

Import condition.

(** The attributes a subclass adds to the base object; they are not set
    when the base constructor left the object invalid, which is [None] and
    the empty string here. *)
Record WindowExistsCondition := {
  window_base : Condition;
  window_title : option string;
  window_class : option string;
}.

Record ProcessExistsCondition := {
  process_base : Condition;
  process_name : string;
}.

(** [s or None] and [s if s else ""] *)
Definition or_None (s : string) : option string :=
  if String.eqb s "" then None else Some s.

Definition or_empty (s : option string) : string :=
  match s with
  | Some s => s
  | None => ""
  end.

Section Checks.

Variable str_strip : string -> string.
Variable str_title : string -> string.
Variable py_str : pyval -> string.
Variable int_of_str : string -> option Z.
Variable int_error_text : pyval -> string.
Variable _BridgeImported : bool.
Variable utf8_decode : list byte -> option string.
Variable json_loads : string -> option pyval.

Definition WindowExistsCondition_init (uuid : string)
    (params_ id_ name_ : pyval) (is_monitored : bool)
    : result WindowExistsCondition :=
  c <- __init__ str_strip str_title int_of_str
    int_error_text uuid "window_exists"
                params_ id_ name_ is_monitored ;;;
  if negb (_is_valid c) then
    Ok {| window_base := c; window_title := None; window_class := None |}
  else
    let title :=
      or_None (str_strip (py_str (dict_get_default "window_title"
                                                   (PyStr "") (params c)))) in
    let class :=
      or_None (str_strip (py_str (dict_get_default "window_class"
                                                   (PyStr "") (params c)))) in
    let c1 :=
      if negb (python_csharp_bridge.given title)
         && negb (python_csharp_bridge.given class)
      then set_invalid
             "Either window title (contains) or class name (exact) must be specified."
             c
      else c in
    Ok {| window_base :=
            set_params
              (dict_set "window_class" (PyStr (or_empty class))
                 (dict_set "window_title" (PyStr (or_empty title))
                    (params c))) c1;
          window_title := title; window_class := class |}.

Definition WindowExistsCondition_check (c : WindowExistsCondition)
    (w : python_csharp_bridge.world) : bool :=
  if negb (base_check _BridgeImported (window_base c)) then false
  else
    match python_csharp_bridge.check_window_exists utf8_decode json_loads
            (window_title c) (window_class c) w with
    | Ok exists_ => exists_
    | Raise _ => false
    end.

Definition ProcessExistsCondition_init (uuid : string)
    (params_ id_ name_ : pyval) (is_monitored : bool)
    : result ProcessExistsCondition :=
  c <- __init__ str_strip str_title int_of_str
    int_error_text uuid "process_exists"
                params_ id_ name_ is_monitored ;;;
  if negb (_is_valid c) then Ok {| process_base := c; process_name := "" |}
  else
    let the_name :=
      str_strip (py_str (dict_get_default "process_name" (PyStr "")
                                          (params c))) in
    let c1 :=
      if String.eqb the_name "" then
        set_invalid "Process name must be specified (e.g., notepad.exe)." c
      else c in
    Ok {| process_base :=
            set_params (dict_set "process_name" (PyStr the_name) (params c))
                       c1;
          process_name := the_name |}.

Definition ProcessExistsCondition_check (c : ProcessExistsCondition)
    (w : python_csharp_bridge.world) : bool :=
  if negb (base_check _BridgeImported (process_base c)) then false
  else
    match python_csharp_bridge.check_process_exists utf8_decode json_loads
            (process_name c) w with
    | Ok exists_ => exists_
    | Raise _ => false
    end.

(** The service answered the request with a result object whose [exists]
    is the boolean true. *)
Definition service_confirms (w : python_csharp_bridge.world) : Prop :=
  exists d,
    python_csharp_bridge._send_request utf8_decode json_loads w
    = Ok (PyDict d) /\
    dict_get "exists" d = Some (PyBool true).

Lemma exists_flag_true r :
  python_csharp_bridge.exists_flag r = true <->
  exists d, r = PyDict d /\ dict_get "exists" d = Some (PyBool true).
Proof.
  unfold python_csharp_bridge.exists_flag. split.
  - destruct r as [| | | | | |d]; try discriminate.
    destruct (dict_get "exists" d) as [[|[|]| | | | |]|] eqn:Hget;
      try discriminate.
    intros _. exists d. split; [reflexivity|exact Hget].
  - intros (d & -> & ->). reflexivity.
Qed.

Lemma request_confirms w :
  match python_csharp_bridge._send_request utf8_decode json_loads w with
  | Ok r => python_csharp_bridge.exists_flag r
  | Raise _ => false
  end = true <-> service_confirms w.
Proof.
  unfold service_confirms.
  destruct (python_csharp_bridge._send_request _ _ w) as [r|e].
  - rewrite exists_flag_true. split.
    + intros (d & -> & Hd). exists d. split; [reflexivity|exact Hd].
    + intros (d & [= ->] & Hd). exists d. split; [reflexivity|exact Hd].
  - split; [discriminate|]. intros (d & Hd & _). discriminate.
Qed.

(** X19: a window or a process condition that its constructor returned passes
    its check exactly when it is valid, the bridge module was imported,
    and the service answers the one request the check sends with a result
    whose [exists] is the boolean true; an exception of the request, and
    any other answer, make the check false. *)
Theorem os_condition_check_asks_the_service uuid params_ id_ name_ mon w :
  (forall c,
     WindowExistsCondition_init uuid params_ id_ name_ mon = Ok c ->
     (WindowExistsCondition_check c w = true <->
      _is_valid (window_base c) = true /\ _BridgeImported = true /\
      service_confirms w)) /\
  (forall c,
     ProcessExistsCondition_init uuid params_ id_ name_ mon = Ok c ->
     (ProcessExistsCondition_check c w = true <->
      _is_valid (process_base c) = true /\ _BridgeImported = true /\
      service_confirms w)).
Proof.
  split; intros c Hinit.
  - unfold WindowExistsCondition_init in Hinit.
    destruct (__init__ _ _ _ _ _ _ _ _ _) as [c0|e] eqn:Hbase;
      [|discriminate].
    cbn [bind] in Hinit. apply init_fields in Hbase as (Hty & _ & _).
    unfold WindowExistsCondition_check, base_check.
    destruct (_is_valid c0) eqn:Hvalid; cbn [negb] in Hinit.
    + set (title := or_None (str_strip (py_str
               (dict_get_default "window_title" (PyStr "") (params c0)))))
        in Hinit.
      set (class := or_None (str_strip (py_str
               (dict_get_default "window_class" (PyStr "") (params c0)))))
        in Hinit.
      destruct (negb (python_csharp_bridge.given title)
                && negb (python_csharp_bridge.given class)) eqn:Hnone;
        injection Hinit as <-; cbn [window_base window_title window_class
                                    _is_valid set_params set_invalid type].
      * cbn [negb]. split; [discriminate|]. intros [H _]. discriminate.
      * rewrite Hvalid, Hty. cbn [negb].
        change (String.eqb "window_exists" NoneCondition_TYPE) with false.
        cbn [negb andb]. rewrite andb_true_r.
        destruct _BridgeImported; cbn [negb].
        -- unfold python_csharp_bridge.check_window_exists. rewrite Hnone.
           rewrite <- request_confirms.
           destruct (python_csharp_bridge._send_request _ _ w); cbn [bind];
             tauto.
        -- split; [discriminate|]. intros (_ & H & _). discriminate.
    + injection Hinit as <-. cbn [window_base]. rewrite Hvalid. cbn [negb].
      split; [discriminate|]. intros [H _]. discriminate.
  - unfold ProcessExistsCondition_init in Hinit.
    destruct (__init__ _ _ _ _ _ _ _ _ _) as [c0|e] eqn:Hbase;
      [|discriminate].
    cbn [bind] in Hinit. apply init_fields in Hbase as (Hty & _ & _).
    unfold ProcessExistsCondition_check, base_check.
    destruct (_is_valid c0) eqn:Hvalid; cbn [negb] in Hinit.
    + set (the_name := str_strip _) in Hinit.
      destruct (String.eqb the_name "") eqn:Hname;
        injection Hinit as <-; cbn [process_base process_name
                                    _is_valid set_params set_invalid type].
      * cbn [negb]. split; [discriminate|]. intros [H _]. discriminate.
      * rewrite Hvalid, Hty. cbn [negb].
        change (String.eqb "process_exists" NoneCondition_TYPE) with false.
        cbn [negb andb]. rewrite andb_true_r.
        destruct _BridgeImported; cbn [negb].
        -- unfold python_csharp_bridge.check_process_exists. rewrite Hname.
           rewrite <- request_confirms.
           destruct (python_csharp_bridge._send_request _ _ w); cbn [bind];
             tauto.
        -- split; [discriminate|]. intros (_ & H & _). discriminate.
    + injection Hinit as <-. cbn [process_base]. rewrite Hvalid. cbn [negb].
      split; [discriminate|]. intros [H _]. discriminate.
Qed.

End Checks.

(** *** A window that is there *)

(** The service's line [ok] read as a success envelope that reports the
    window. *)
Definition window_found_loads (line : string) : option pyval :=
  if String.eqb line "ok"
  then Some (PyDict [("Status", PyStr "Success");
                     ("Result", PyDict [("exists", PyBool true)])])
  else None.

Definition window_found : python_csharp_bridge.world :=
  python_csharp_bridge.answering
    [python_csharp_bridge.Data [x6f; x6b; x0a]].

Lemma os_condition_check_asks_the_service_witness :
  exists c,
    WindowExistsCondition_init plain_strip plain_title plain_str
      no_int_of_str
        plain_int_error "u0" (PyDict [("window_title", PyStr "Notepad")])
      PyNone PyNone false = Ok c /\
    WindowExistsCondition_check true python_csharp_bridge.ascii_decode
      window_found_loads c window_found = true.
Proof.
  eexists. split; [reflexivity|].
  apply (proj1 (os_condition_check_asks_the_service
                  plain_strip plain_title plain_str no_int_of_str
                    plain_int_error true
                  python_csharp_bridge.ascii_decode window_found_loads
                  "u0" (PyDict [("window_title", PyStr "Notepad")])
                  PyNone PyNone false window_found) _ eq_refl).
  split; [reflexivity|]. split; [reflexivity|].
  eexists. split; reflexivity.
Defined.

End os_conditions.
